(** * NLQ Translator: the Elasticsearch query validator and the tolerant
      JSON extractor

    A shallow embedding of
      - [nlq_translator/elasticsearch/query_validator.py]
        (class [ElasticsearchQueryValidator]) and
      - [nlq_translator/utils/query_utils.py] ([parse_query_string], the
        [recover] of the specification),
    followed by the properties of the specification that concern them.
    The embedding also covers the rest of [query_utils] ([format_query],
    [extract_fields_from_query]) and the callers of the two modules: the
    parsing of the model's response in
    [nlq_translator/elasticsearch/query_generator.py], and [validate] and
    [fix] of [nlq_translator/core/translator.py]; their properties come
    last.

    How Python is modelled:
      - values: the inductive type [value], with the constructors of the
        Python types that [json.loads] produces; a [float] is a [spec_float]
        (IEEE 754 binary64);
      - [dict]: an association list in insertion order (Python dictionaries
        iterate in insertion order and [d[k]] is the entry stored under [k]);
      - [str]: a [string], one [ascii] per character, that is the strings
        over U+0000..U+00FF;
      - [set] of strings: the list of the added names, and a function that
        gives the order in which Python iterates over the set (a parameter:
        the order follows the hashes of the strings);
      - exceptions: a function that can raise returns a [result]; the
        recursion limit of the interpreter is not modelled;
      - [re.search]: a backtracking matcher for the constructs of the two
        patterns in use;
      - [json.loads], [json.dumps]: parameters of the embedded functions;
        module [Json] models them after Python's [json] package. *)

From Stdlib Require Import String Ascii List ZArith Bool Lia Permutation.
From Stdlib Require Import Floats.SpecFloat.
From Stdlib Require DecimalString DecimalFacts DecimalPos DecimalZ.
Import ListNotations.

Open Scope list_scope.
Open Scope string_scope.

(* ================================================================== *)
(** ** Python values                                                   *)
(* ================================================================== *)

Module Py.

(** The values [json.loads] can produce, which are also the values a caller
    builds a query or a mapping from.  [bool] is a subclass of [int] in
    Python; [is_int] below accounts for it. *)
#[local] Unset Elimination Schemes.
Inductive value : Type :=
| PyNone
| PyBool (b : bool)
| PyInt (n : Z)
| PyFloat (f : spec_float)
| PyStr (s : string)
| PyList (items : list value)
| PyDict (entries : list (string * value)).
#[local] Set Elimination Schemes.

(** The exceptions the modelled functions can raise. *)
Inductive exn : Type :=
| AttributeError
| TypeError
| ValueError (msg : string).

Inductive result (A : Type) : Type :=
| Return (a : A)
| Raise (e : exn).
Arguments Return {A} a.
Arguments Raise {A} e.

Definition bind {A B} (m : result A) (k : A -> result B) : result B :=
  match m with
  | Return a => k a
  | Raise e => Raise e
  end.

Notation "x <- m ;; k" := (bind m (fun x => k))
  (at level 61, m at next level, right associativity).

(** [isinstance(v, dict)], [isinstance(v, list)], [isinstance(v, int)]. *)
Definition is_dict (v : value) : bool :=
  match v with PyDict _ => true | _ => false end.

Definition is_list (v : value) : bool :=
  match v with PyList _ => true | _ => false end.

Definition is_int (v : value) : bool :=
  match v with PyInt _ | PyBool _ => true | _ => false end.

(** [v < 0] for a [v] that passed [isinstance(v, int)]: [True] and [False]
    compare as 1 and 0. *)
Definition int_negative (v : value) : bool :=
  match v with PyInt n => (n <? 0)%Z | _ => false end.

(** Truth value testing, [bool(v)]. *)
Definition truthy (v : value) : bool :=
  match v with
  | PyNone => false
  | PyBool b => b
  | PyInt n => negb (n =? 0)%Z
  | PyFloat (S754_zero _) => false
  | PyFloat _ => true
  | PyStr s => negb (s =? "")
  | PyList items => match items with [] => false | _ => true end
  | PyDict entries => match entries with [] => false | _ => true end
  end.

(** [v == {}]. *)
Definition eq_empty_dict (v : value) : bool :=
  match v with PyDict [] => true | _ => false end.

(** [bool(e)] for an [Optional[str]]: [None] and [""] are false. *)
Definition truthy_str (e : option string) : bool :=
  match e with
  | None => false
  | Some s => negb (s =? "")
  end.

(** [k in S] for a set (or list) of strings. *)
Definition str_in (k : string) (S : list string) : bool :=
  existsb (String.eqb k) S.

(** [d.keys()], [k in d] and [d[k]] (as an option). *)
Definition keys (d : list (string * value)) : list string := map fst d.

Definition has_key (k : string) (d : list (string * value)) : bool :=
  str_in k (keys d).

Fixpoint dict_get (k : string) (d : list (string * value)) : option value :=
  match d with
  | [] => None
  | (k', v) :: rest => if k' =? k then Some v else dict_get k rest
  end.

(** [f(d[k])] when [k in d]; [f] comes before the recursion so that a
    function defined by recursion on [value] can go through the look-up. *)
Definition dict_get_with {A} (f : value -> A) (k : string)
  : list (string * value) -> option A :=
  fix go d :=
    match d with
    | [] => None
    | (k', v) :: rest => if k' =? k then Some (f v) else go rest
    end.

(** Two statements in sequence, the first of which may [return]. *)
Definition or_else {R} (first next : option R) : option R :=
  match first with
  | Some r => Some r
  | None => next
  end.

(** A [for] loop whose body may [return]: the function returns what the
    first returning iteration returns. *)
Definition for_return {A R} (body : A -> option R) : list A -> option R :=
  fix go l :=
    match l with
    | [] => None
    | x :: rest =>
        match body x with
        | Some r => Some r
        | None => go rest
        end
    end.

(** A [for] loop that updates a state and that an exception leaves. *)
Definition for_each {A S} (body : A -> S -> result S)
  : list A -> S -> result S :=
  fix go l s :=
    match l with
    | [] => Return s
    | x :: rest =>
        match body x s with
        | Return s' => go rest s'
        | Raise e => Raise e
        end
    end.

(** [", ".join(l)]. *)
Definition join (sep : string) (l : list string) : string :=
  String.concat sep l.

(** [sub in s] for strings. *)
Fixpoint str_contains (sub s : string) : bool :=
  if String.prefix sub s then true
  else match s with
       | EmptyString => false
       | String _ s' => str_contains sub s'
       end.

(** The character [c] occurs in [s]. *)
Fixpoint mentions (c : ascii) (s : string) : bool :=
  match s with
  | EmptyString => false
  | String a s' => Ascii.eqb a c || mentions c s'
  end.

(** [s.split(c)[0]] for a one-character separator. *)
Fixpoint before_char (c : ascii) (s : string) : string :=
  match s with
  | EmptyString => EmptyString
  | String a s' => if Ascii.eqb a c then EmptyString else String a (before_char c s')
  end.

(** The number of constructors of a value. *)
Fixpoint value_size (v : value) : nat :=
  match v with
  | PyList items => S (list_sum (map value_size items))
  | PyDict entries => S (list_sum (map (fun e => value_size (snd e)) entries))
  | _ => 1
  end.

End Py.
Import Py.

(* ================================================================== *)
(** ** [ElasticsearchQueryValidator]                                   *)
(* ================================================================== *)

Module ElasticsearchQueryValidator.

Definition VALID_TOP_LEVEL_KEYS : list string :=
  [ "query"; "from"; "size"; "sort"; "aggs"; "aggregations";
    "_source"; "fields"; "script_fields"; "stored_fields";
    "highlight"; "post_filter"; "rescore"; "explain"; "version";
    "track_total_hits"; "min_score"; "track_scores"; "timeout";
    "terminate_after"; "search_after"; "pit"; "runtime_mappings" ].

Definition VALID_QUERY_TYPES : list string :=
  [ "match"; "match_phrase"; "match_phrase_prefix"; "match_bool_prefix";
    "multi_match"; "term"; "terms"; "range"; "exists"; "prefix"; "wildcard";
    "regexp"; "fuzzy"; "ids"; "bool"; "dis_max"; "function_score"; "boosting";
    "nested"; "has_child"; "has_parent"; "parent_id"; "geo_shape";
    "geo_bounding_box"; "geo_distance"; "geo_polygon"; "more_like_this";
    "script"; "script_score"; "wrapper"; "pinned"; "distance_feature";
    "rank_feature"; "percolate"; "intervals"; "match_all"; "match_none" ].

(** The local [valid_bool_clauses] of [_validate_query_structure]. *)
Definition valid_bool_clauses : list string :=
  [ "must"; "must_not"; "should"; "filter"; "minimum_should_match"; "boost" ].

(** The list the [for clause in ...] loop of the [bool] branch runs over. *)
Definition bool_clause_order : list string :=
  [ "must"; "must_not"; "should"; "filter" ].

(** The field-bearing keys of [_extract_field_names_from_query]. *)
Definition field_query_keys : list string :=
  [ "term"; "terms"; "match"; "match_phrase"; "range"; "exists"; "prefix";
    "wildcard"; "regexp"; "fuzzy" ].

(** [_validate_top_level_structure]: three [if ...: return ...] statements
    in sequence, then [return None]. *)
Definition _validate_top_level_structure
  (query_dict : list (string * value)) : option string :=
  let unknown_keys :=
    filter (fun key => negb (str_in key VALID_TOP_LEVEL_KEYS)) (keys query_dict) in
  match unknown_keys with
  | _ :: _ => Some ("Unknown top-level keys: " ++ join ", " unknown_keys)
  | [] =>
      or_else
        (match dict_get "size" query_dict with
         | Some v =>
             if negb (is_int v) || int_negative v
             then Some "'size' must be a non-negative integer"
             else None
         | None => None
         end)
        (match dict_get "from" query_dict with
         | Some v =>
             if negb (is_int v) || int_negative v
             then Some "'from' must be a non-negative integer"
             else None
         | None => None
         end)
  end.

(** The body of the [for clause in ["must", ...]] loop, given the validator
    for sub-clauses: [Some msg] when the iteration returns [msg], [None] when
    it falls through to the next clause name. *)
Definition bool_clause_step (validate : value -> option string)
  (clause : string) (clause_value : value) : option string :=
  match clause_value with
  | PyList items =>
      for_return
        (fun item =>
           let item_error := validate item in
           if truthy_str item_error
           then Some ("Error in '" ++ clause ++ "' clause: "
                      ++ match item_error with Some e => e | None => "" end)
           else None)
        items
  | PyDict _ =>
      let item_error := validate clause_value in
      if truthy_str item_error
      then Some ("Error in '" ++ clause ++ "' clause: "
                 ++ match item_error with Some e => e | None => "" end)
      else None
  | _ => Some ("'" ++ clause ++ "' clause must be a JSON object or array")
  end.

(** [_validate_query_structure].  [query_type] is the first key of the
    dictionary and [query[query_type]] the value stored under it, that is the
    first entry. *)
Fixpoint _validate_query_structure (query : value) : option string :=
  match query with
  | PyDict [] => Some "'query' cannot be empty"
  | PyDict ((query_type, body) :: _) =>
      if (query_type =? "match_all") && (negb (truthy body) || eq_empty_dict body)
      then None
      else if negb (str_in query_type VALID_QUERY_TYPES)
      then Some ("Unknown query type: " ++ query_type)
      else if query_type =? "bool" then
        match body with
        | PyDict bool_query =>
            let unknown_clauses :=
              filter (fun clause => negb (str_in clause valid_bool_clauses))
                     (keys bool_query) in
            match unknown_clauses with
            | _ :: _ =>
                Some ("Unknown 'bool' clauses: " ++ join ", " unknown_clauses)
            | [] =>
                for_return
                  (fun clause =>
                     match dict_get_with
                             (bool_clause_step _validate_query_structure clause)
                             clause bool_query with
                     | Some r => r
                     | None => None
                     end)
                  bool_clause_order
            end
        | _ => Some "'bool' query must be a JSON object"
        end
      else if query_type =? "nested" then
        match body with
        | PyDict nested_query =>
            if negb (has_key "path" nested_query)
            then Some "'nested' query must have a 'path' field"
            else
              match dict_get_with _validate_query_structure "query" nested_query with
              | None => Some "'nested' query must have a 'query' field"
              | Some query_error =>
                  if truthy_str query_error
                  then Some ("Error in 'nested' query: "
                             ++ match query_error with Some e => e | None => "" end)
                  else None
              end
        | _ => Some "'nested' query must be a JSON object"
        end
      else None
  | _ => Some "'query' must be a JSON object"
  end.

(** The nested [extract_fields(prefix, obj)] of
    [_extract_field_names_from_mapping].  The set [field_names] it fills is
    kept as the list of the added names, in the order of the [add] calls;
    [obj["properties"].items()] and [field_def.get] raise [AttributeError]
    on a value that is not a dictionary. *)
Fixpoint mapping_extract_fields (prefix : string) (obj : value)
  (field_names : list string) {struct obj} : result (list string) :=
  match obj with
  | PyDict entries =>
      field_names <-
        match dict_get_with
                (fun properties =>
                   match properties with
                   | PyDict items =>
                       for_each
                         (fun '(field_name, field_def) field_names =>
                            let full_name :=
                              if prefix =? "" then field_name
                              else prefix ++ field_name in
                            let field_names := (field_names ++ [full_name])%list in
                            match field_def with
                            | PyDict def_entries =>
                                if (match dict_get "type" def_entries with
                                    | Some (PyStr t) => t =? "nested"
                                    | _ => false
                                    end)
                                   && has_key "properties" def_entries
                                then mapping_extract_fields
                                       (full_name ++ ".") field_def field_names
                                else if has_key "properties" def_entries
                                then mapping_extract_fields
                                       (full_name ++ ".") field_def field_names
                                else Return field_names
                            | _ => Raise AttributeError
                            end)
                         items
                   | _ => fun _ => Raise AttributeError
                   end)
                "properties" entries with
        | Some loop => loop field_names
        | None => Return field_names
        end ;;
      for_each
        (fun '(key, value) field_names =>
           if negb (key =? "properties") && is_dict value
           then
             let new_prefix :=
               if prefix =? "" then key ++ "." else prefix ++ key ++ "." in
             mapping_extract_fields new_prefix value field_names
           else Return field_names)
        entries field_names
  | _ => Return field_names
  end.

(** [_extract_field_names_from_mapping]. *)
Definition _extract_field_names_from_mapping (mapping : value)
  : result (list string) :=
  mapping_extract_fields "" mapping [].

(** The body of [for field in fields] in the [multi_match] branch:
    [if "^" in field: field = field.split("^")[0]] and then
    [field_names.add(field)].  On a list or a dictionary [in] is a membership
    test, [split] is missing ([AttributeError]) and [add] finds the value
    unhashable ([TypeError]); on the other values [in] itself raises
    [TypeError]. *)
Definition add_multi_match_field (field : value) (field_names : list string)
  : result (list string) :=
  match field with
  | PyStr s =>
      let s := if str_contains "^" s then before_char "^" s else s in
      Return (field_names ++ [s])%list
  | PyList items =>
      if existsb (fun item => match item with
                              | PyStr t => t =? "^"
                              | _ => false
                              end) items
      then Raise AttributeError
      else Raise TypeError
  | PyDict entries =>
      if has_key "^" entries then Raise AttributeError else Raise TypeError
  | _ => Raise TypeError
  end.

(** The nested [extract_fields(obj)] of [_extract_field_names_from_query];
    [field_names] as in [mapping_extract_fields]. *)
Fixpoint query_extract_fields (obj : value) (field_names : list string)
  {struct obj} : result (list string) :=
  match obj with
  | PyDict entries =>
      for_each
        (fun '(key, value) field_names =>
           if str_in key field_query_keys then
             match value with
             | PyDict d => Return (field_names ++ keys d)%list
             | _ => Return field_names
             end
           else
             match value with
             | PyDict d =>
                 if (key =? "multi_match") && has_key "fields" d then
                   match dict_get "fields" d with
                   | Some (PyList fields) =>
                       for_each add_multi_match_field fields field_names
                   | _ => Return field_names
                   end
                 else query_extract_fields value field_names
             | PyList items =>
                 for_each
                   (fun item field_names =>
                      if is_dict item || is_list item
                      then query_extract_fields item field_names
                      else Return field_names)
                   items field_names
             | _ => Return field_names
             end)
        entries field_names
  | _ => Return field_names
  end.

(** [_extract_field_names_from_query]: the names in the order in which they
    were added to the set. *)
Definition _extract_field_names_from_query (query_dict : value)
  : result (list string) :=
  query_extract_fields query_dict [].

Section Validate.

(** [json.loads] on a string: the decoded value, or [None] when it raises
    [JSONDecodeError]; [json_error s] is the text of that error. *)
Variable json_loads : string -> option value.
Variable json_error : string -> string.

(** The order in which Python iterates over the set obtained by adding the
    given names in the given order. *)
Variable set_iter : list string -> list string.

(** [self.mapping]. *)
Variable mapping : option value.

(** [_validate_against_mapping]. *)
Definition _validate_against_mapping (query_dict : list (string * value))
  : result (option string) :=
  match mapping with
  | None => Return None
  | Some m =>
      if negb (truthy m) then Return None
      else
        field_names <- _extract_field_names_from_mapping m ;;
        query_fields <- _extract_field_names_from_query (PyDict query_dict) ;;
        let unknown_fields :=
          filter (fun field => negb (str_in field field_names))
                 (set_iter query_fields) in
        match unknown_fields with
        | _ :: _ =>
            Return (Some ("Unknown fields in query: " ++ join ", " unknown_fields))
        | [] => Return None
        end
  end.

(** [validate]: the pair [(is_valid, error)], or the exception that leaves
    the call. *)
Definition validate (query : value) : result (bool * option string) :=
  match (match query with
         | PyStr s =>
             match json_loads s with
             | Some v => inr v
             | None => inl (json_error s)
             end
         | _ => inr query
         end) with
  | inl e => Return (false, Some ("Invalid JSON: " ++ e))
  | inr (PyDict query_dict) =>
      let top_level_errors := _validate_top_level_structure query_dict in
      if truthy_str top_level_errors then Return (false, top_level_errors)
      else
        let query_errors :=
          match dict_get "query" query_dict with
          | Some q => _validate_query_structure q
          | None => None
          end in
        if truthy_str query_errors then Return (false, query_errors)
        else
          match mapping with
          | Some m =>
              if truthy m then
                mapping_errors <- _validate_against_mapping query_dict ;;
                if truthy_str mapping_errors
                then Return (false, mapping_errors)
                else Return (true, None)
              else Return (true, None)
          | None => Return (true, None)
          end
  | inr _ => Return (false, Some "Query must be a JSON object")
  end.

End Validate.

End ElasticsearchQueryValidator.

(* ================================================================== *)
(** ** Regular expressions, as [re.search] runs them                   *)
(* ================================================================== *)

Module Re.

(** The constructs the two patterns of [parse_query_string] use. *)
Inductive regex : Type :=
| Lit (l : string)                  (* literal characters *)
| Opt (r : regex)                   (* (?:r)?   greedy *)
| Star (cls : ascii -> bool)        (* [cls]*   greedy *)
| StarLazy (cls : ascii -> bool)    (* [cls]*?  lazy   *)
| Seq (r1 r2 : regex)               (* r1 r2 *)
| Group (r : regex).                (* (r), the capturing group 1 *)

(** [\s] on a [str] pattern: the white space characters of Unicode, here
    those below U+0100. *)
Definition space (c : ascii) : bool :=
  let n := nat_of_ascii c in
  (((9 <=? n) && (n <=? 13)) || ((28 <=? n) && (n <=? 32))
   || (n =? 133) || (n =? 160))%nat.

(** [[\s\S]]. *)
Definition any (c : ascii) : bool := space c || negb (space c).

(** What is left of [s] after the prefix [l]. *)
Fixpoint strip_prefix (l s : string) : option string :=
  match l, s with
  | EmptyString, _ => Some s
  | String a l', String b s' => if Ascii.eqb a b then strip_prefix l' s' else None
  | String _ _, EmptyString => None
  end.

(** The ways [[cls]*] matches at the start of [s], as (consumed, rest), in
    the order a backtracking matcher tries them: longest first. *)
Fixpoint star_greedy (cls : ascii -> bool) (s : string) : list (string * string) :=
  match s with
  | String a s' =>
      if cls a
      then (map (fun m => (String a (fst m), snd m)) (star_greedy cls s')
              ++ [(EmptyString, s)])%list
      else [(EmptyString, s)]
  | EmptyString => [(EmptyString, EmptyString)]
  end.

(** The same for [[cls]*?]: shortest first. *)
Fixpoint star_lazy (cls : ascii -> bool) (s : string) : list (string * string) :=
  match s with
  | String a s' =>
      (EmptyString, s)
        :: (if cls a
            then map (fun m => (String a (fst m), snd m)) (star_lazy cls s')
            else [])
  | EmptyString => [(EmptyString, EmptyString)]
  end.

(** A way of matching: the text consumed, the text of group 1 if the group
    took part, and the rest of the subject. *)
Record way : Type := Way { consumed : string; group1 : option string; rest : string }.

(** All the ways [r] matches at the start of [s], in the order in which a
    backtracking matcher explores them. *)
Fixpoint matches (r : regex) (s : string) : list way :=
  match r with
  | Lit l =>
      match strip_prefix l s with
      | Some s' => [Way l None s']
      | None => []
      end
  | Opt r' => (matches r' s ++ [Way EmptyString None s])%list
  | Star cls => map (fun m => Way (fst m) None (snd m)) (star_greedy cls s)
  | StarLazy cls => map (fun m => Way (fst m) None (snd m)) (star_lazy cls s)
  | Seq r1 r2 =>
      flat_map
        (fun w1 =>
           map (fun w2 =>
                  Way (consumed w1 ++ consumed w2)
                      (match group1 w2 with Some g => Some g | None => group1 w1 end)
                      (rest w2))
               (matches r2 (rest w1)))
        (matches r1 s)
  | Group r' => map (fun w => Way (consumed w) (Some (consumed w)) (rest w)) (matches r' s)
  end.

(** [re.search(r, s)]: the first way of matching at the leftmost position
    that has one. *)
Fixpoint search (r : regex) (s : string) : option way :=
  match matches r s with
  | w :: _ => Some w
  | [] =>
      match s with
      | String _ s' => search r s'
      | EmptyString => None
      end
  end.

(** A way with one more character consumed in front. *)
Definition push (a : ascii) (w : way) : way :=
  Way (String a (consumed w)) (group1 w) (rest w).

(** [m.group(1)] for a pattern whose group 1 takes part in every match. *)
Definition group_1 (w : way) : string :=
  match group1 w with Some g => g | None => EmptyString end.

End Re.

(* ================================================================== *)
(** ** [nlq_translator.utils.query_utils]                              *)
(* ================================================================== *)

Module QueryUtils.
Import Re.

(** [r'```(?:json)?\s*([\s\S]*?)\s*```']. *)
Definition fenced_block_pattern : regex :=
  Seq (Lit "```")
    (Seq (Opt (Lit "json"))
       (Seq (Star space)
          (Seq (Group (StarLazy any))
             (Seq (Star space) (Lit "```"))))).

(** [r'({[\s\S]*})']. *)
Definition json_object_pattern : regex :=
  Group (Seq (Lit "{") (Seq (Star any) (Lit "}"))).

(** The text has a fenced block: two triple-backtick markers, one after
    the other. *)
Definition has_fenced_block (text : string) : Prop :=
  exists before inside after,
    text = before ++ "```" ++ inside ++ "```" ++ after.

(** Strategy 3 in the words of the specification: the substring that
    begins at the first opening brace and extends to the closing brace that
    structurally matches it.  [close_span depth s] runs over [s], [depth]
    braces being open besides the first. *)
Fixpoint close_span (depth : nat) (s : string) : option string :=
  match s with
  | EmptyString => None
  | String c s' =>
      if Ascii.eqb c "{" then option_map (String c) (close_span (S depth) s')
      else if Ascii.eqb c "}" then
        match depth with
        | O => Some (String c EmptyString)
        | S depth' => option_map (String c) (close_span depth' s')
        end
      else option_map (String c) (close_span depth s')
  end.

Fixpoint balanced_brace_span (s : string) : option string :=
  match s with
  | EmptyString => None
  | String c s' =>
      if Ascii.eqb c "{" then option_map (String c) (close_span 0 s')
      else balanced_brace_span s'
  end.

Section ParseQueryString.

(** [json.loads]: the decoded value, or [None] when it raises
    [JSONDecodeError]; [json_error s] is the text of that error. *)
Variable json_loads : string -> option value.
Variable json_error : string -> string.

(** [parse_query_string].  Inside the inner [try] every exception becomes
    [ValueError("Invalid JSON query string: ...")]. *)
Definition parse_query_string (query_string : string) : result value :=
  match json_loads query_string with
  | Some v => Return v
  | None =>
      match search fenced_block_pattern query_string with
      | Some json_match =>
          match json_loads (group_1 json_match) with
          | Some v => Return v
          | None =>
              Raise (ValueError ("Invalid JSON query string: "
                                 ++ json_error (group_1 json_match)))
          end
      | None =>
          match search json_object_pattern query_string with
          | Some json_match =>
              match json_loads (group_1 json_match) with
              | Some v => Return v
              | None =>
                  Raise (ValueError ("Invalid JSON query string: "
                                     ++ json_error (group_1 json_match)))
              end
          | None =>
              Raise (ValueError ("Invalid JSON query string: "
                       ++ "Could not extract valid JSON from the query string"))
          end
      end
  end.

(** The outcome of a strategy that found the text [candidate]: its value,
    or the [ValueError] that the inner [except] raises. *)
Definition parsed (candidate : string) : result value :=
  match json_loads candidate with
  | Some v => Return v
  | None => Raise (ValueError ("Invalid JSON query string: " ++ json_error candidate))
  end.

End ParseQueryString.

Section FormatQuery.

Variable json_loads : string -> option value.
Variable json_error : string -> string.

(** [json.dumps(v, indent=indent)] for an [int] or [None]. *)
Variable json_dumps : option Z -> value -> string.

(** [format_query(query, indent)], for an [int] [indent]. *)
Definition format_query (query : value) (indent : Z) : result string :=
  match query with
  | PyStr s =>
      match json_loads s with
      | Some query_dict => Return (json_dumps (Some indent) query_dict)
      | None => Raise (ValueError ("Invalid JSON query: " ++ json_error s))
      end
  | _ => Return (json_dumps (Some indent) query)
  end.

End FormatQuery.

(** The set literal of [extract_fields_from_query]. *)
Definition field_keys : list string :=
  [ "term"; "terms"; "match"; "match_phrase"; "range"; "exists"; "prefix";
    "wildcard"; "regexp"; "fuzzy" ].

(** The nested [extract_fields(obj)] of [extract_fields_from_query]; the
    set [field_names] is kept as the list of the added names, and the body
    of [for field in fields] is that of the validator's extractor. *)
Fixpoint extract_fields (obj : value) (field_names : list string)
  {struct obj} : result (list string) :=
  match obj with
  | PyDict entries =>
      for_each
        (fun '(key, value) field_names =>
           if str_in key field_keys then
             match value with
             | PyDict d => Return (field_names ++ keys d)%list
             | _ => Return field_names
             end
           else
             match value with
             | PyDict d =>
                 if (key =? "multi_match") && has_key "fields" d then
                   match dict_get "fields" d with
                   | Some (PyList fields) =>
                       for_each ElasticsearchQueryValidator.add_multi_match_field
                                fields field_names
                   | _ => Return field_names
                   end
                 else extract_fields value field_names
             | PyList items =>
                 for_each
                   (fun item field_names =>
                      if is_dict item || is_list item
                      then extract_fields item field_names
                      else Return field_names)
                   items field_names
             | _ => Return field_names
             end)
        entries field_names
  | _ => Return field_names
  end.

Section ExtractFieldsFromQuery.

Variable json_loads : string -> option value.
Variable json_error : string -> string.

(** [extract_fields_from_query]: the names in the order in which they were
    added to the set. *)
Definition extract_fields_from_query (query : value) : result (list string) :=
  query_dict <- match query with
                | PyStr s => parse_query_string json_loads json_error s
                | _ => Return query
                end ;;
  extract_fields query_dict [].

End ExtractFieldsFromQuery.

End QueryUtils.

(* ================================================================== *)
(** ** [nlq_translator.elasticsearch.query_generator]                  *)
(* ================================================================== *)

Module ElasticsearchQueryGenerator.
Import Re QueryUtils.

(** What a method of the generator gives: the value it returns, or the
    message of the [Exception] it raises (the outer [except] turns every
    exception into one). *)
Inductive outcome : Type :=
| Returned (query : value)
| Exception (msg : string).

Section Generator.

Variable json_loads : string -> option value.
Variable json_error : string -> string.

(** [json.dumps(query, indent=2)]. *)
Variable json_dumps : option Z -> value -> string.

(** A call of a method of [self.llm]: the [content] of the response, or
    the text [str(e)] of the exception the call raised. *)
Definition llm_reply : Type := (string + string)%type.

(** The statements that parse [response.content], common to the three
    methods up to the word that starts the message: the value returned, or
    the message of the [ValueError] raised to the outer handler.  In the
    inner handler [e] is the [JSONDecodeError] of the whole content; the
    two patterns are written as in [parse_query_string]. *)
Definition parse_content (what : string) (content : string) : value + string :=
  match json_loads content with
  | Some query => inl query
  | None =>
      let not_valid := what ++ " query is not valid JSON: " ++ json_error content in
      match search fenced_block_pattern content with
      | Some json_match =>
          match json_loads (group_1 json_match) with
          | Some query => inl query
          | None => inr not_valid
          end
      | None =>
          match search json_object_pattern content with
          | Some json_match =>
              match json_loads (group_1 json_match) with
              | Some query => inl query
              | None => inr not_valid
              end
          | None => inr not_valid
          end
      end
  end.

(** The outer [try] of a method: [doing] is "generating", "fixing" or
    "improving". *)
Definition guarded (doing what : string) (reply : llm_reply) : outcome :=
  match reply with
  | inl content =>
      match parse_content what content with
      | inl query => Returned query
      | inr msg => Exception ("Error " ++ doing ++ " Elasticsearch query: " ++ msg)
      end
  | inr error => Exception ("Error " ++ doing ++ " Elasticsearch query: " ++ error)
  end.

(** [generate_query]. *)
Definition generate_query
  (translate_to_query : string -> string -> option value -> llm_reply)
  (natural_language : string) (mapping : option value) : outcome :=
  guarded "generating" "Generated"
          (translate_to_query natural_language "elasticsearch" mapping).

(** [query_str]: the indented text of a dictionary, the query itself
    otherwise. *)
Definition query_str (query : value) : value :=
  match query with
  | PyDict _ => PyStr (json_dumps (Some 2%Z) query)
  | _ => query
  end.

(** [fix_query]. *)
Definition fix_query
  (llm_fix_query : value -> string -> option string -> option value -> llm_reply)
  (query : value) (error_message : option string) (mapping : option value)
  : outcome :=
  guarded "fixing" "Fixed"
          (llm_fix_query (query_str query) "elasticsearch" error_message mapping).

(** [improve_query]. *)
Definition improve_query
  (llm_improve_query : value -> string -> option string -> option value -> llm_reply)
  (query : value) (improvement_goal : option string) (mapping : option value)
  : outcome :=
  guarded "improving" "Improved"
          (llm_improve_query (query_str query) "elasticsearch" improvement_goal mapping).

End Generator.

End ElasticsearchQueryGenerator.

(* ================================================================== *)
(** ** [nlq_translator.core.translator]                                *)
(* ================================================================== *)

Module NLQueryTranslator.

(** What [self.database_client] answers during a call: [is_connected()],
    and the mapping that [get_mapping()] returns ([None] when it raises). *)
Record database_client : Type :=
  { is_connected : bool; get_mapping : option value }.

Section Translator.

Variable json_loads : string -> option value.
Variable json_error : string -> string.
Variable set_iter : list string -> list string.

(** [NLQueryTranslator.validate].  The state of the translator that the
    method reads and writes is [self.query_validator], that is the mapping
    the validator was built with ([None] for [ElasticsearchQueryValidator()]);
    [client] is [self.database_client], [None] when there is none.  The
    result is the new validator and what its [validate] gives. *)
Definition validate (query_validator : option value)
  (client : option database_client) (query : value) (mapping : option value)
  : option value * result (bool * option string) :=
  let query_validator :=
    match mapping with
    | None =>
        match client with
        | Some c =>
            if is_connected c then
              match get_mapping c with
              | Some fetched => Some fetched
              | None => query_validator
              end
            else query_validator
        | None => query_validator
        end
    | Some m => Some m
    end in
  (query_validator,
   ElasticsearchQueryValidator.validate json_loads json_error set_iter
     query_validator query).

End Translator.

(** A client that supplies no mapping during a call. *)
Definition supplies_no_mapping (client : option database_client) : Prop :=
  match client with
  | Some c => is_connected c = false \/ get_mapping c = None
  | None => True
  end.

(** The [mapping] of [fix] after its first statement: the mapping given,
    or else the one the database client returns when it is connected. *)
Definition mapping_or_fetched (client : option database_client)
  (mapping : option value) : option value :=
  match mapping with
  | None =>
      match client with
      | Some c => if is_connected c then get_mapping c else None
      | None => None
      end
  | Some m => Some m
  end.

Section Fix.

Variable json_loads : string -> option value.
Variable json_error : string -> string.
Variable set_iter : list string -> list string.
Variable json_dumps : option Z -> value -> string.

(** [self.llm.fix_query]. *)
Variable llm_fix_query :
  value -> string -> option string -> option value
  -> ElasticsearchQueryGenerator.llm_reply.

(** [NLQueryTranslator.fix] ([fix] is a keyword here): the new validator and what the call gives.
    [client] is what the database client answers to [fix] itself and
    [client'] what it answers to the [validate] that [fix] calls. *)
Definition fix_ (query_validator : option value)
  (client client' : option database_client)
  (query : value) (error_message : option string) (mapping : option value)
  : option value * result ElasticsearchQueryGenerator.outcome :=
  let mapping := mapping_or_fetched client mapping in
  match error_message with
  | Some _ =>
      (query_validator,
       Return (ElasticsearchQueryGenerator.fix_query json_loads json_error
                 json_dumps llm_fix_query query error_message mapping))
  | None =>
      let validated :=
        validate json_loads json_error set_iter query_validator client' query mapping in
      (fst validated,
       outcome <- snd validated ;;
       let error_message :=
         if negb (fst outcome) && truthy_str (snd outcome) then snd outcome else None in
       Return (ElasticsearchQueryGenerator.fix_query json_loads json_error
                 json_dumps llm_fix_query query error_message mapping))
  end.

End Fix.

End NLQueryTranslator.

(* ================================================================== *)
(** ** [json.loads] and [json.dumps]                                   *)
(* ================================================================== *)

(** A model of the decoder and of the encoder of Python's [json] module, on
    strings over the characters U+0000..U+00FF.  [loads] follows the
    scanner of [json.decoder] (strict mode; [NaN], [Infinity] and
    [-Infinity] are accepted); a [\u] escape above [00ff] denotes a
    character that a [string] cannot hold, and [loads] answers [None] for
    it.  [dumps]
    follows [json.encoder] with its default arguments ([ensure_ascii], the
    separators [", "] and [": "]). *)

Module Json.

Definition quote : ascii := "034"%char.
Definition backslash : ascii := "092"%char.

(** [WHITESPACE]: space, tab, line feed, carriage return. *)
Definition is_ws (c : ascii) : bool :=
  Ascii.eqb c " " || Ascii.eqb c "009" || Ascii.eqb c "010" || Ascii.eqb c "013".

Fixpoint skip_ws (s : string) : string :=
  match s with
  | String c s' => if is_ws c then skip_ws s' else s
  | EmptyString => EmptyString
  end.

Definition is_digit (c : ascii) : bool :=
  let n := nat_of_ascii c in ((48 <=? n) && (n <=? 57))%nat.

(** The longest prefix of digits, and the rest. *)
Fixpoint span_digits (s : string) : string * string :=
  match s with
  | String c s' =>
      if is_digit c
      then let (ds, r) := span_digits s' in (String c ds, r)
      else (EmptyString, s)
  | EmptyString => (EmptyString, EmptyString)
  end.

(** [int(ds)] for a string of digits. *)
Definition nat_of_digits (ds : string) : Z :=
  match DecimalString.NilEmpty.uint_of_string ds with
  | Some u => Z.of_uint u
  | None => 0%Z
  end.

(** [int(lexeme)] for the integer part of a number. *)
Definition int_of_lexeme (lexeme : string) : Z :=
  match lexeme with
  | String "-" ds => (- nat_of_digits ds)%Z
  | _ => nat_of_digits lexeme
  end.

(** The binary64 number nearest to [(-1)^neg * d * 10^x], ties to even:
    what [float] returns on a decimal literal.  A quotient is computed with
    more than 53 bits and a sticky bit, and then rounded. *)
Definition float_of_decimal (neg : bool) (d x : Z) : spec_float :=
  if (d =? 0)%Z then S754_zero neg
  else if (0 <=? x)%Z
  then binary_normalize 53 1024 (cond_Zopp neg (d * 10 ^ x)) 0 false
  else
    let den := (10 ^ (- x))%Z in
    let k := Z.max 0 (64 + Z.log2 den - Z.log2 d) in
    let num := (d * 2 ^ k)%Z in
    let sticky := if (num mod den =? 0)%Z then 0%Z else 1%Z in
    binary_normalize 53 1024 (cond_Zopp neg (2 * (num / den) + sticky))
                     (- k - 1) false.

(** [float(integer + frac + exp)] for the three groups of [NUMBER_RE]:
    [frac] has its point and [exp] its letter. *)
Definition float_of_lexeme (integer frac exp : string) : spec_float :=
  let neg := match integer with String "-" _ => true | _ => false end in
  let int_digits := match integer with String "-" ds => ds | _ => integer end in
  let frac_digits := match frac with String _ ds => ds | EmptyString => EmptyString end in
  let exponent :=
    match exp with
    | String _ (String "-" ds) => (- nat_of_digits ds)%Z
    | String _ (String "+" ds) => nat_of_digits ds
    | String _ ds => nat_of_digits ds
    | EmptyString => 0%Z
    end in
  float_of_decimal neg (nat_of_digits (int_digits ++ frac_digits))
                   (exponent - Z.of_nat (String.length frac_digits)).

(** [NUMBER_RE]: an optional minus sign and either [0] or a non-zero digit
    followed by digits; an optional point with at least one digit; an
    optional [e] or [E] with an optional sign and at least one digit.  The
    three groups (an absent group is the empty string) and the rest. *)
Definition scan_unsigned (s : string) : option (string * string) :=
  match s with
  | String "0" r => Some ("0", r)
  | String c _ => if is_digit c then Some (span_digits s) else None
  | EmptyString => None
  end.

Definition scan_integer (s : string) : option (string * string) :=
  match s with
  | String "-" s' =>
      match scan_unsigned s' with
      | Some (ds, r) => Some (String "-" ds, r)
      | None => None
      end
  | _ => scan_unsigned s
  end.

Definition scan_frac (s : string) : string * string :=
  match s with
  | String "." s' =>
      match span_digits s' with
      | (EmptyString, _) => (EmptyString, s)
      | (ds, r) => (String "." ds, r)
      end
  | _ => (EmptyString, s)
  end.

Definition scan_exp (s : string) : string * string :=
  match s with
  | String e s' =>
      if Ascii.eqb e "e" || Ascii.eqb e "E" then
        let (sign, s2) :=
          match s' with
          | String "-" t => ("-", t)
          | String "+" t => ("+", t)
          | _ => (EmptyString, s')
          end in
        match span_digits s2 with
        | (EmptyString, _) => (EmptyString, s)
        | (ds, r) => (String e (sign ++ ds), r)
        end
      else (EmptyString, s)
  | EmptyString => (EmptyString, s)
  end.

(** The number branch of the scanner: an [int] when there is neither a
    fraction nor an exponent, a [float] otherwise. *)
Definition scan_number (s : string) : option (value * string) :=
  match scan_integer s with
  | Some (integer, s1) =>
      let (frac, s2) := scan_frac s1 in
      let (exp, s3) := scan_exp s2 in
      match frac, exp with
      | EmptyString, EmptyString => Some (PyInt (int_of_lexeme integer), s3)
      | _, _ => Some (PyFloat (float_of_lexeme integer frac exp), s3)
      end
  | None => None
  end.

(** The value of a hexadecimal digit. *)
Definition hex_value (c : ascii) : option N :=
  let n := N_of_ascii c in
  if ((48 <=? n) && (n <=? 57))%N then Some (n - 48)%N
  else if ((97 <=? n) && (n <=? 102))%N then Some (n - 87)%N
  else if ((65 <=? n) && (n <=? 70))%N then Some (n - 55)%N
  else None.

Definition hex4 (a b c d : ascii) : option N :=
  match hex_value a, hex_value b, hex_value c, hex_value d with
  | Some x, Some y, Some z, Some w => Some (((x * 16 + y) * 16 + z) * 16 + w)%N
  | _, _, _, _ => None
  end.

(** [BACKSLASH]: the one-character escapes. *)
Definition unescape (c : ascii) : option ascii :=
  if Ascii.eqb c quote then Some quote
  else if Ascii.eqb c backslash then Some backslash
  else if Ascii.eqb c "/" then Some "/"%char
  else if Ascii.eqb c "b" then Some "008"%char
  else if Ascii.eqb c "f" then Some "012"%char
  else if Ascii.eqb c "n" then Some "010"%char
  else if Ascii.eqb c "r" then Some "013"%char
  else if Ascii.eqb c "t" then Some "009"%char
  else None.

Definition cons_char (c : ascii) (r : option (string * string))
  : option (string * string) :=
  match r with
  | Some (s, rest) => Some (String c s, rest)
  | None => None
  end.

(** [scanstring], from the character after the opening quote: the decoded
    string and what follows the closing quote. *)
Fixpoint scanstring (s : string) : option (string * string) :=
  match s with
  | EmptyString => None
  | String c s' =>
      if Ascii.eqb c quote then Some (EmptyString, s')
      else if Ascii.eqb c backslash then
        match s' with
        | String "u" (String h1 (String h2 (String h3 (String h4 s'')))) =>
            match hex4 h1 h2 h3 h4 with
            | Some n =>
                if (n <? 256)%N then cons_char (ascii_of_N n) (scanstring s'')
                else None
            | None => None
            end
        | String e s'' =>
            match unescape e with
            | Some c' => cons_char c' (scanstring s'')
            | None => None
            end
        | EmptyString => None
        end
      else if (N_of_ascii c <? 32)%N then None
      else cons_char c (scanstring s')
  end.

(** [dict(pairs)]: a later pair with the same key replaces the value and
    keeps the place of the first. *)
Fixpoint dict_set (k : string) (v : value) (d : list (string * value))
  : list (string * value) :=
  match d with
  | [] => [(k, v)]
  | (k', v') :: rest =>
      if k' =? k then (k, v) :: rest else (k', v') :: dict_set k v rest
  end.

Definition dict_of_pairs (pairs : list (string * value)) : list (string * value) :=
  fold_left (fun d kv => dict_set (fst kv) (snd kv) d) pairs [].

(** What follows the character [c] when [s] starts with it. *)
Definition expect (c : ascii) (s : string) : option string :=
  match s with
  | String a r => if Ascii.eqb a c then Some r else None
  | EmptyString => None
  end.

(** [scan_once] at the first character of a value, with [JSONArray] and
    [JSONObject]; [array_items] and [object_items] are their [while True]
    loops, entered at the first character of an item and of a key.  [fuel]
    bounds the number of nested calls; the length of the text is enough. *)
Fixpoint scan_once (fuel : nat) (s : string) {struct fuel}
  : option (value * string) :=
  match fuel with
  | O => None
  | S fuel =>
      match s with
      | EmptyString => None
      | String c s' =>
          if Ascii.eqb c quote then
            match scanstring s' with
            | Some (str, r) => Some (PyStr str, r)
            | None => None
            end
          else if Ascii.eqb c "{" then
            match expect "}" (skip_ws s') with
            | Some r => Some (PyDict [], r)
            | None =>
                match object_items fuel (skip_ws s') with
                | Some (pairs, r) => Some (PyDict (dict_of_pairs pairs), r)
                | None => None
                end
            end
          else if Ascii.eqb c "[" then
            match expect "]" (skip_ws s') with
            | Some r => Some (PyList [], r)
            | None =>
                match array_items fuel (skip_ws s') with
                | Some (values, r) => Some (PyList values, r)
                | None => None
                end
            end
          else
            match Re.strip_prefix "null" s, Re.strip_prefix "true" s,
                  Re.strip_prefix "false" s with
            | Some r, _, _ => Some (PyNone, r)
            | _, Some r, _ => Some (PyBool true, r)
            | _, _, Some r => Some (PyBool false, r)
            | None, None, None =>
                match scan_number s with
                | Some res => Some res
                | None =>
                    match Re.strip_prefix "NaN" s, Re.strip_prefix "Infinity" s,
                          Re.strip_prefix "-Infinity" s with
                    | Some r, _, _ => Some (PyFloat S754_nan, r)
                    | _, Some r, _ => Some (PyFloat (S754_infinity false), r)
                    | _, _, Some r => Some (PyFloat (S754_infinity true), r)
                    | None, None, None => None
                    end
                end
            end
      end
  end

with array_items (fuel : nat) (s : string) {struct fuel}
  : option (list value * string) :=
  match fuel with
  | O => None
  | S fuel =>
      match scan_once fuel s with
      | Some (v, r) =>
          match expect "]" (skip_ws r) with
          | Some r' => Some ([v], r')
          | None =>
              match expect "," (skip_ws r) with
              | Some r' =>
                  match array_items fuel (skip_ws r') with
                  | Some (values, r'') => Some (v :: values, r'')
                  | None => None
                  end
              | None => None
              end
          end
      | None => None
      end
  end

with object_items (fuel : nat) (s : string) {struct fuel}
  : option (list (string * value) * string) :=
  match fuel with
  | O => None
  | S fuel =>
      match expect quote s with
      | Some s' =>
          match scanstring s' with
          | Some (key, r) =>
              match expect ":" (skip_ws r) with
              | Some r' =>
                  match scan_once fuel (skip_ws r') with
                  | Some (v, r'') =>
                      match expect "}" (skip_ws r'') with
                      | Some r3 => Some ([(key, v)], r3)
                      | None =>
                          match expect "," (skip_ws r'') with
                          | Some r3 =>
                              match object_items fuel (skip_ws r3) with
                              | Some (pairs, r4) => Some ((key, v) :: pairs, r4)
                              | None => None
                              end
                          | None => None
                          end
                      end
                  | None => None
                  end
              | None => None
              end
          | None => None
          end
      | None => None
      end
  end.

(** [json.loads(s)]: white space, one value, white space, the end. *)
Definition loads (s : string) : option value :=
  let s := skip_ws s in
  match scan_once (S (String.length s)) s with
  | Some (v, r) =>
      match skip_ws r with
      | EmptyString => Some v
      | _ => None
      end
  | None => None
  end.

(** [ESCAPE_ASCII] and [ESCAPE_DCT] of [json.encoder]: the quote, the
    backslash and every character outside [' '..'~'] are escaped. *)
Definition hex_digit (n : N) : ascii :=
  if (n <? 10)%N then ascii_of_N (48 + n) else ascii_of_N (87 + n).

Definition escape_char (c : ascii) : string :=
  let n := N_of_ascii c in
  if Ascii.eqb c quote then String backslash (String quote EmptyString)
  else if Ascii.eqb c backslash then String backslash (String backslash EmptyString)
  else if Ascii.eqb c "010" then String backslash "n"
  else if Ascii.eqb c "013" then String backslash "r"
  else if Ascii.eqb c "009" then String backslash "t"
  else if Ascii.eqb c "008" then String backslash "b"
  else if Ascii.eqb c "012" then String backslash "f"
  else if ((n <? 32) || (126 <? n))%N
  then String backslash
         (String "u" (String "0" (String "0"
            (String (hex_digit (n / 16)) (String (hex_digit (n mod 16)) EmptyString)))))
  else String c EmptyString.

Fixpoint escape (s : string) : string :=
  match s with
  | EmptyString => EmptyString
  | String c s' => escape_char c ++ escape s'
  end.

Definition encode_basestring_ascii (s : string) : string :=
  String quote (escape s ++ String quote EmptyString).

(** What may follow a value in the text that [dumps] writes: the end, or
    the comma, bracket or brace that closes it. *)
Inductive value_end : string -> Prop :=
| end_of_text : value_end EmptyString
| end_comma r : value_end (String "," r)
| end_bracket r : value_end (String "]" r)
| end_brace r : value_end (String "}" r).

(** The keys of every dictionary of [v] are distinct, as in every Python
    dictionary. *)
Fixpoint distinct (l : list string) : bool :=
  match l with
  | [] => true
  | x :: l' => negb (str_in x l') && distinct l'
  end.

Fixpoint unique_keys (v : value) : bool :=
  match v with
  | PyList items => forallb unique_keys items
  | PyDict entries =>
      distinct (keys entries) && forallb (fun e => unique_keys (snd e)) entries
  | _ => true
  end.

(** The floats of [v] that [floatstr] hands to [float.__repr__]. *)
Fixpoint repr_floats (v : value) : list spec_float :=
  match v with
  | PyFloat (S754_zero s) => [S754_zero s]
  | PyFloat (S754_finite s m e) => [S754_finite s m e]
  | PyList items => flat_map repr_floats items
  | PyDict entries => flat_map (fun e => repr_floats (snd e)) entries
  | _ => []
  end.

(** The decoder reads the text of [f] back as [f]. *)
Definition reads_back (float_repr : spec_float -> string) (f : spec_float) : Prop :=
  forall rest, value_end rest ->
    scan_number (float_repr f ++ rest) = Some (PyFloat f, rest).

Section Dumps.

(** [float.__repr__] on a finite number. *)
Variable float_repr : spec_float -> string.

(** [floatstr]. *)
Definition floatstr (f : spec_float) : string :=
  match f with
  | S754_nan => "NaN"
  | S754_infinity false => "Infinity"
  | S754_infinity true => "-Infinity"
  | _ => float_repr f
  end.

(** [json.dumps(v)] for a value whose dictionary keys are strings. *)
Fixpoint dumps (v : value) : string :=
  match v with
  | PyNone => "null"
  | PyBool true => "true"
  | PyBool false => "false"
  | PyInt n => DecimalString.NilZero.string_of_int (Z.to_int n)
  | PyFloat f => floatstr f
  | PyStr s => encode_basestring_ascii s
  | PyList items => "[" ++ join ", " (map dumps items) ++ "]"
  | PyDict entries =>
      "{" ++ join ", " (map (fun e => encode_basestring_ascii (fst e)
                                      ++ ": " ++ dumps (snd e)) entries)
          ++ "}"
  end.

(** The text [dumps] writes for an entry of a dictionary. *)
Definition entry_text (e : string * value) : string :=
  encode_basestring_ascii (fst e) ++ ": " ++ dumps (snd e).

(** The text of [v] is read back as [v], with what follows it left, when
    the dictionaries of [v] have distinct keys and the texts of its floats
    are read back. *)
Definition reads_value (v : value) : Prop :=
  unique_keys v = true ->
  (forall f, In f (repr_floats v) -> reads_back float_repr f) ->
  forall fuel rest,
    2 * value_size v <= fuel -> value_end rest ->
    scan_once fuel (dumps v ++ rest) = Some (v, rest).

End Dumps.

(** A value starts with a character that is neither white space nor a
    closing bracket. *)
Definition value_start (s : string) : Prop :=
  exists c s', s = String c s' /\ is_ws c = false /\ Ascii.eqb c "]" = false.

(** [float.__repr__] on the floats of the examples below: 0.0, -0.0 and
    1.5. *)
Definition repr_table (f : spec_float) : string :=
  match f with
  | S754_zero false => "0.0"
  | S754_zero true => "-0.0"
  | S754_finite false 6755399441055744 (-52) => "1.5"
  | _ => EmptyString
  end.

(** [s] between double quotes, to write JSON texts with. *)
Definition quoted (s : string) : string :=
  String quote (s ++ String quote EmptyString).

(** The text of a [JSONDecodeError] names the place of the failure and is
    not modelled: the properties below hold for every [json_error].  Where a
    closed statement needs one, this one stands for it. *)
Definition error_text (s : string) : string := "JSONDecodeError".

End Json.

(* ================================================================== *)
(** ** [json.dumps] with an indentation                                *)
(* ================================================================== *)

Module JsonIndent.
Import Json.

(** [s * n] for a string [s]. *)
Fixpoint replicate (n : nat) (s : string) : string :=
  match n with
  | O => EmptyString
  | S n' => s ++ replicate n' s
  end.

(** ['\n' + _indent * _current_indent_level]. *)
Definition newline_indent (_indent : string) (level : nat) : string :=
  String "010" (replicate level _indent).

Section Iterencode.

Variable float_repr : spec_float -> string.

(** The string [_indent] of [_make_iterencode]. *)
Variable _indent : string.

(** [_iterencode] with an [_indent] that is not [None], at the indentation
    level [level]: the item separator is [","], followed by a new line and
    the indentation; the key separator is [": "]. *)
Fixpoint iterencode (level : nat) (v : value) : string :=
  match v with
  | PyList [] => "[]"
  | PyList items =>
      "[" ++ newline_indent _indent (S level)
      ++ join ("," ++ newline_indent _indent (S level))
           (map (iterencode (S level)) items)
      ++ newline_indent _indent level ++ "]"
  | PyDict [] => "{}"
  | PyDict entries =>
      "{" ++ newline_indent _indent (S level)
      ++ join ("," ++ newline_indent _indent (S level))
           (map (fun e => encode_basestring_ascii (fst e) ++ ": "
                          ++ iterencode (S level) (snd e)) entries)
      ++ newline_indent _indent level ++ "}"
  | _ => dumps float_repr v
  end.

(** The text of an entry of a dictionary. *)
Definition entry_text_indent (level : nat) (e : string * value) : string :=
  encode_basestring_ascii (fst e) ++ ": " ++ iterencode level (snd e).

End Iterencode.

(** [json.dumps(v, indent=indent)] for an [indent] that is [None] or an
    [int]: [' ' * indent] is the indentation of one level. *)
Definition dumps_indent (float_repr : spec_float -> string) (indent : option Z)
  (v : value) : string :=
  match indent with
  | None => dumps float_repr v
  | Some n => iterencode float_repr (replicate (Z.to_nat n) " ") 0 v
  end.

(** What may follow a value in an indented text: the end, the comma, or the
    new line before the closing bracket. *)
Inductive value_end_indent : string -> Prop :=
| indent_end_of_text : value_end_indent EmptyString
| indent_end_comma r : value_end_indent (String "," r)
| indent_end_newline r : value_end_indent (String "010" r).

(** The decoder reads the text of [f] back as [f] in an indented text. *)
Definition reads_back_indent (float_repr : spec_float -> string) (f : spec_float)
  : Prop :=
  forall rest, value_end_indent rest ->
    scan_number (float_repr f ++ rest) = Some (PyFloat f, rest).

Definition reads_value_indent (float_repr : spec_float -> string)
  (_indent : string) (v : value) : Prop :=
  unique_keys v = true ->
  (forall f, In f (repr_floats v) -> reads_back_indent float_repr f) ->
  forall level fuel rest,
    2 * value_size v <= fuel -> value_end_indent rest ->
    scan_once fuel (iterencode float_repr _indent level v ++ rest) = Some (v, rest).

End JsonIndent.

(* ================================================================== *)
(** ** Iteration orders of a set of strings                            *)
(* ================================================================== *)

(** Python iterates over a set of strings in the order of their hashes in
    its table, which changes from one process to the next: every order of
    the distinct elements is possible. *)
Module SetOrder.

(** The distinct names of a sequence of [add] calls, in the order in which
    they were first added. *)
Fixpoint first_encounter (names : list string) : list string :=
  match names with
  | [] => []
  | name :: names' =>
      name :: filter (fun other => negb (other =? name)) (first_encounter names')
  end.

(** An iteration order lists each distinct added name once. *)
Definition lists_distinct_names (set_iter : list string -> list string)
  (names : list string) : Prop :=
  Permutation (set_iter names) (first_encounter names).

(** Two iteration orders: that of the first encounters, and its reverse. *)
Definition insertion_order (names : list string) : list string :=
  first_encounter names.

Definition reverse_order (names : list string) : list string :=
  rev (first_encounter names).

End SetOrder.

(* ================================================================== *)
(** ** The grammar of section 4.3, as a predicate on clauses           *)
(* ================================================================== *)

Module Grammar.
Import ElasticsearchQueryValidator.

(** A clause follows the grammar when it is a non-empty object whose first
    key is a clause type; the body of a [bool] is an object whose keys are
    legal sub-keys and whose [must], [must_not], [should] and [filter]
    values are clauses or arrays of clauses that follow the grammar; the body
    of a [nested] is an object with a [path] and a [query] that follows the
    grammar. *)
Fixpoint well_formed_clause (clause : value) : bool :=
  match clause with
  | PyDict ((clause_type, body) :: _) =>
      str_in clause_type VALID_QUERY_TYPES
      && (if clause_type =? "bool" then
            match body with
            | PyDict sub =>
                forallb (fun k => str_in k valid_bool_clauses) (keys sub)
                && forallb
                     (fun k =>
                        match dict_get_with
                                (fun v =>
                                   match v with
                                   | PyDict _ => well_formed_clause v
                                   | PyList items => forallb well_formed_clause items
                                   | _ => false
                                   end) k sub with
                        | Some b => b
                        | None => true
                        end)
                     bool_clause_order
            | _ => false
            end
          else if clause_type =? "nested" then
            match body with
            | PyDict sub =>
                has_key "path" sub
                && match dict_get_with well_formed_clause "query" sub with
                   | Some b => b
                   | None => false
                   end
            | _ => false
            end
          else true)
  | _ => false
  end.

(** A paging value is a non-negative integer ([True] and [False] are
    integers in Python). *)
Definition paging_value_ok (v : value) : bool :=
  match v with
  | PyInt n => (0 <=? n)%Z
  | PyBool _ => true
  | _ => false
  end.

Definition paging_ok (key : string) (document : list (string * value)) : bool :=
  match dict_get key document with
  | Some v => paging_value_ok v
  | None => true
  end.

(** The keys of a document that are not top-level keys. *)
Definition unknown_top_level_keys (document : list (string * value)) : list string :=
  filter (fun key => negb (str_in key VALID_TOP_LEVEL_KEYS)) (keys document).

(** [k] occurs in [msg]. *)
Definition occurs_in (k msg : string) : Prop :=
  exists before after, msg = before ++ k ++ after.

(** The error of one sub-key of a [bool] body, in the words of section 4.3: none
    when the sub-key is absent; for a single clause its error; for an array
    the error of its first failing clause; a type error otherwise. *)
Definition sub_key_error (sub_key : string) (body : list (string * value))
  : option string :=
  match dict_get sub_key body with
  | None => None
  | Some (PyDict d) =>
      option_map (fun e => "Error in '" ++ sub_key ++ "' clause: " ++ e)
                 (_validate_query_structure (PyDict d))
  | Some (PyList items) =>
      option_map (fun e => "Error in '" ++ sub_key ++ "' clause: " ++ e)
                 (match List.find (fun item => match _validate_query_structure item with
                                                | Some _ => true
                                                | None => false
                                                end) items with
                  | Some item => _validate_query_structure item
                  | None => None
                  end)
  | Some _ => Some ("'" ++ sub_key ++ "' clause must be a JSON object or array")
  end.

(** The first error in the priority order must, must_not, should, filter. *)
Definition first_sub_key_error (body : list (string * value)) : option string :=
  match sub_key_error "must" body with
  | Some e => Some e
  | None =>
      match sub_key_error "must_not" body with
      | Some e => Some e
      | None =>
          match sub_key_error "should" body with
          | Some e => Some e
          | None => sub_key_error "filter" body
          end
      end
  end.

End Grammar.

(* ================================================================== *)
(** ** Shapes of schemas, documents and replies                        *)
(* ================================================================== *)

Module Shape.

(** [isinstance(v, str)]. *)
Definition is_str (v : value) : bool :=
  match v with PyStr _ => true | _ => false end.

(** Every value stored under a key [properties], at any depth, is an
    object whose values are objects. *)
Fixpoint properties_are_objects (v : value) : bool :=
  match v with
  | PyDict entries =>
      forallb
        (fun e =>
           (if fst e =? "properties" then
              match snd e with
              | PyDict fields => forallb (fun f => is_dict (snd f)) fields
              | _ => false
              end
            else true)
           && properties_are_objects (snd e))
        entries
  | PyList items => forallb properties_are_objects items
  | _ => true
  end.

(** Every list stored under the key [fields] of an object stored under a
    key [multi_match], at any depth, holds strings only. *)
Fixpoint multi_match_fields_are_strings (v : value) : bool :=
  match v with
  | PyDict entries =>
      forallb
        (fun e =>
           (if fst e =? "multi_match" then
              match snd e with
              | PyDict d =>
                  match dict_get "fields" d with
                  | Some (PyList fields) => forallb is_str fields
                  | _ => true
                  end
              | _ => true
              end
            else true)
           && multi_match_fields_are_strings (snd e))
        entries
  | PyList items => forallb multi_match_fields_are_strings items
  | _ => true
  end.

(** An entry of the [fields] list of a [multi_match]: a field name, with
    its boost after a caret when it has one. *)
Definition boosted (spec : string * option string) : value :=
  PyStr (match snd spec with
         | Some boost => fst spec ++ "^" ++ boost
         | None => fst spec
         end).

End Shape.

Module Fence.
Import Re.

(** Every character of [s] is white space for [\s]. *)
Fixpoint all_space (s : string) : bool :=
  match s with
  | EmptyString => true
  | String c s' => space c && all_space s'
  end.

(** [s] is not empty and its first character is not white space. *)
Definition starts_without_space (s : string) : bool :=
  match s with
  | String c _ => negb (space c)
  | EmptyString => false
  end.

(** [s] is not empty and its last character is not white space. *)
Fixpoint ends_without_space (s : string) : bool :=
  match s with
  | EmptyString => false
  | String c s' =>
      match s' with
      | EmptyString => negb (space c)
      | String _ _ => ends_without_space s'
      end
  end.

(** The part of the fence pattern that follows group 1: [\s*```]. *)
Definition closing_fence : regex := Seq (Star space) (Lit "```").

End Fence.

(* ================================================================== *)
(** ** Properties                                                      *)
(* ================================================================== *)

Import ElasticsearchQueryValidator Grammar.

(** *** Induction on values *)

Lemma value_ind (P : value -> Prop)
  (HNone : P PyNone)
  (HBool : forall b, P (PyBool b))
  (HInt : forall n, P (PyInt n))
  (HFloat : forall f, P (PyFloat f))
  (HStr : forall s, P (PyStr s))
  (HList : forall items, Forall P items -> P (PyList items))
  (HDict : forall entries, Forall (fun e => P (snd e)) entries -> P (PyDict entries))
  : forall v, P v.
Proof.
  fix IH 1. intros [ | b | n | f | s | items | entries ].
  - exact HNone.
  - apply HBool.
  - apply HInt.
  - apply HFloat.
  - apply HStr.
  - apply HList. induction items as [ | x xs IHxs ]; constructor.
    + apply IH.
    + exact IHxs.
  - apply HDict. induction entries as [ | [k x] xs IHxs ]; constructor.
    + apply IH.
    + exact IHxs.
Qed.

(** *** Strings *)

Lemma append_assoc (a b c : string) : (a ++ b) ++ c = a ++ (b ++ c).
Proof. induction a as [ | x a IH ]; simpl; [ reflexivity | now rewrite IH ]. Qed.

Lemma append_nil_r (a : string) : a ++ "" = a.
Proof. induction a as [ | x a IH ]; simpl; [ reflexivity | now rewrite IH ]. Qed.

Lemma occurs_in_refl k : occurs_in k k.
Proof. exists "", "". simpl. now rewrite append_nil_r. Qed.

Lemma occurs_in_app_l k a b : occurs_in k a -> occurs_in k (a ++ b).
Proof.
  intros (x & y & ->). exists x, (y ++ b). now rewrite !append_assoc.
Qed.

Lemma occurs_in_app_r k a b : occurs_in k b -> occurs_in k (a ++ b).
Proof.
  intros (x & y & ->). exists (a ++ x), y. now rewrite !append_assoc.
Qed.

Lemma occurs_in_join k sep l : In k l -> occurs_in k (join sep l).
Proof.
  unfold join. induction l as [ | x [ | y l ] IH ]; intros Hin.
  - contradiction.
  - destruct Hin as [ -> | [] ]. apply occurs_in_refl.
  - destruct Hin as [ -> | Hin ].
    + apply occurs_in_app_l, occurs_in_refl.
    + change (occurs_in k (x ++ (sep ++ String.concat sep (y :: l)))).
      apply occurs_in_app_r, occurs_in_app_r, IH, Hin.
Qed.

(** *** The structural validator *)

Section StructuralValidator.

Variable json_loads : string -> option value.
Variable json_error : string -> string.
Variable set_iter : list string -> list string.

Lemma unknown_top_level_keys_In k document :
  In k (unknown_top_level_keys document)
  <-> In k (keys document) /\ str_in k VALID_TOP_LEVEL_KEYS = false.
Proof.
  unfold unknown_top_level_keys. rewrite filter_In, negb_true_iff. tauto.
Qed.

Lemma validate_unknown_top_level_keys mapping document :
  unknown_top_level_keys document <> [] ->
  validate json_loads json_error set_iter mapping (PyDict document)
  = Return (false, Some ("Unknown top-level keys: "
                         ++ join ", " (unknown_top_level_keys document))).
Proof.
  intros Hne. unfold validate, _validate_top_level_structure.
  fold (unknown_top_level_keys document).
  destruct (unknown_top_level_keys document) as [ | u us ]; [ congruence | ].
  reflexivity.
Qed.

(** C6.  A document with a key outside [TopLevelKeys] is invalid, whatever
    the schema, and the error message is the list of all its unknown
    top-level keys: each of them occurs in the message. *)
Theorem unknown_top_level_keys_all_reported mapping document k :
  In k (keys document) ->
  str_in k VALID_TOP_LEVEL_KEYS = false ->
  exists msg,
    validate json_loads json_error set_iter mapping (PyDict document)
    = Return (false, Some msg)
    /\ msg = "Unknown top-level keys: " ++ join ", " (unknown_top_level_keys document)
    /\ forall k', In k' (keys document) ->
                  str_in k' VALID_TOP_LEVEL_KEYS = false ->
                  occurs_in k' msg.
Proof.
  intros Hin Hunknown.
  assert (Hk : In k (unknown_top_level_keys document))
    by (apply unknown_top_level_keys_In; auto).
  eexists. split; [ | split; [ reflexivity | ] ].
  - apply validate_unknown_top_level_keys. intros Heq. now rewrite Heq in Hk.
  - intros k' Hin' Hunknown'. apply occurs_in_app_r, occurs_in_join.
    apply unknown_top_level_keys_In; auto.
Qed.

(** C8.  A clause whose first key is [match_all] or [match_none] and whose
    body is [{}] or [null] is accepted, whatever its other keys; the document
    that has it as its query is valid when no schema is given. *)
Theorem match_all_match_none_accepted clause_type body others :
  clause_type = "match_all" \/ clause_type = "match_none" ->
  body = PyDict [] \/ body = PyNone ->
  _validate_query_structure (PyDict ((clause_type, body) :: others)) = None
  /\ validate json_loads json_error set_iter None
       (PyDict [("query", PyDict ((clause_type, body) :: others))])
     = Return (true, None).
Proof.
  intros [ -> | -> ] [ -> | -> ]; split; reflexivity.
Qed.

(** C10.  The clause validator looks at the first entry of a clause only:
    the entries after it never change its answer, nor that of [validate]
    without a schema; thus [{"match_all": {}, "not_a_clause": 1}] under
    [query] is valid, and so it is with any other keys after [match_all]. *)
Theorem clause_dispatch_reads_first_key_only :
  (forall clause_type body others,
      _validate_query_structure (PyDict ((clause_type, body) :: others))
      = _validate_query_structure (PyDict [(clause_type, body)]))
  /\ (forall clause_type body others,
         validate json_loads json_error set_iter None
           (PyDict [("query", PyDict ((clause_type, body) :: others))])
         = validate json_loads json_error set_iter None
             (PyDict [("query", PyDict [(clause_type, body)])]))
  /\ (forall others,
         validate json_loads json_error set_iter None
           (PyDict [("query", PyDict (("match_all", PyDict []) :: others))])
         = Return (true, None))
  /\ validate json_loads json_error set_iter None
       (PyDict [("query", PyDict [("match_all", PyDict []);
                                  ("not_a_clause", PyInt 1)])])
     = Return (true, None).
Proof.
  repeat split; reflexivity.
Qed.

(** The look-up helpers agree with [dict_get]. *)
Lemma dict_get_with_spec {A} (f : value -> A) k d :
  dict_get_with f k d = option_map f (dict_get k d).
Proof.
  induction d as [ | [k' v] d IH ]; simpl; [ reflexivity | ].
  destruct (k' =? k); [ reflexivity | exact IH ].
Qed.

Lemma dict_get_In k d v : dict_get k d = Some v -> In (k, v) d.
Proof.
  induction d as [ | [k' w] d IH ]; simpl; [ discriminate | ].
  destruct (k' =? k) eqn:E.
  - intros [= ->]. apply String.eqb_eq in E. subst. now left.
  - intros H. right. auto.
Qed.

Lemma value_size_item item items :
  In item items -> value_size item < value_size (PyList items).
Proof.
  simpl. induction items as [ | x xs IH ]; simpl; intros []; subst; [ lia | ].
  specialize (IH H). lia.
Qed.

Lemma value_size_entry k v entries :
  In (k, v) entries -> value_size v < value_size (PyDict entries).
Proof.
  simpl. induction entries as [ | x xs IH ]; simpl; intros []; subst; simpl; [ lia | ].
  specialize (IH H). lia.
Qed.

Lemma filter_negb_forallb {A} (f : A -> bool) l :
  forallb f l = true -> filter (fun x => negb (f x)) l = [].
Proof.
  induction l as [ | x l IH ]; simpl; [ reflexivity | ].
  intros H. apply andb_prop in H as [Hx Hl]. rewrite Hx. simpl. auto.
Qed.

Lemma for_return_none {A R} (body : A -> option R) l :
  (forall x, In x l -> body x = None) -> for_return body l = None.
Proof.
  induction l as [ | x l IH ]; simpl; intros H; [ reflexivity | ].
  rewrite (H x) by now left. apply IH. intros y Hy. apply H. now right.
Qed.

(** A clause that follows the grammar has no structural error. *)
Lemma well_formed_clause_valid clause :
  well_formed_clause clause = true -> _validate_query_structure clause = None.
Proof.
  remember (value_size clause) as n eqn:Hn.
  assert (Hlt : value_size clause <= n) by lia. clear Hn.
  revert clause Hlt.
  induction n as [ | n IH ]; intros clause Hlt Hwf.
  { destruct clause; simpl in Hlt; lia. }
  destruct clause as [ | | | | | | [ | [clause_type body] others ] ]; try discriminate.
  assert (Hbody : value_size body <= n).
  { pose proof (value_size_entry clause_type body ((clause_type, body) :: others)
                  (or_introl eq_refl)). lia. }
  cbn [well_formed_clause] in Hwf.
  apply andb_prop in Hwf as [Htype Hwf].
  cbn [_validate_query_structure].
  destruct ((clause_type =? "match_all") && (negb (truthy body) || eq_empty_dict body));
    [ reflexivity | ].
  rewrite Htype. cbn [negb].
  destruct (clause_type =? "bool").
  - destruct body as [ | | | | | | sub ]; try discriminate.
    apply andb_prop in Hwf as [Hkeys Hsub].
    rewrite (filter_negb_forallb _ _ Hkeys).
    apply for_return_none. intros clause Hclause.
    rewrite forallb_forall in Hsub. specialize (Hsub clause Hclause).
    rewrite dict_get_with_spec in Hsub. rewrite dict_get_with_spec.
    destruct (dict_get clause sub) as [ v | ] eqn:Hget; [ | reflexivity ].
    assert (Hv : value_size v < value_size (PyDict sub))
      by (eapply value_size_entry, dict_get_In, Hget).
    cbn [option_map] in *.
    destruct v as [ | | | | | items | d ]; try discriminate.
    + cbn [bool_clause_step]. apply for_return_none. intros item Hitem.
      rewrite forallb_forall in Hsub.
      rewrite IH; [ reflexivity | | auto ].
      pose proof (value_size_item item items Hitem). lia.
    + cbn [bool_clause_step]. rewrite IH; [ reflexivity | lia | exact Hsub ].
  - destruct (clause_type =? "nested"); [ | reflexivity ].
    destruct body as [ | | | | | | sub ]; try discriminate.
    apply andb_prop in Hwf as [Hpath Hquery].
    rewrite Hpath. cbn [negb].
    rewrite dict_get_with_spec in Hquery. rewrite dict_get_with_spec.
    destruct (dict_get "query" sub) as [ q | ] eqn:Hget; [ | discriminate ].
    cbn [option_map] in *.
    rewrite IH; [ reflexivity | | exact Hquery ].
    pose proof (value_size_entry _ _ _ (dict_get_In _ _ _ Hget)). lia.
Qed.

Lemma paging_ok_no_error key (msg : string) document :
  paging_ok key document = true ->
  match dict_get key document with
  | Some v => if negb (is_int v) || int_negative v then Some msg else None
  | None => None
  end = None.
Proof.
  unfold paging_ok. destruct (dict_get key document) as [ v | ]; [ | reflexivity ].
  destruct v; simpl; try discriminate; try reflexivity.
  intros H. apply Z.leb_le in H.
  replace (n <? 0)%Z with false; [ reflexivity | ].
  symmetry. apply Z.ltb_ge. exact H.
Qed.

(** C1, amended.  A document whose top-level keys are all in
    [TopLevelKeys], whose [size] and [from], when present, are non-negative
    integers, and whose [query], when present, follows the clause grammar, is
    valid when no schema is in use ([self.mapping] is [None] or empty). *)
Theorem well_formed_document_valid mapping document :
  unknown_top_level_keys document = [] ->
  paging_ok "size" document = true ->
  paging_ok "from" document = true ->
  match dict_get "query" document with
  | Some q => well_formed_clause q = true
  | None => True
  end ->
  match mapping with
  | Some m => truthy m = false
  | None => True
  end ->
  validate json_loads json_error set_iter mapping (PyDict document)
  = Return (true, None).
Proof.
  intros Hkeys Hsize Hfrom Hquery Hmapping.
  unfold validate, _validate_top_level_structure.
  fold (unknown_top_level_keys document). rewrite Hkeys.
  rewrite (paging_ok_no_error "size" _ _ Hsize).
  rewrite (paging_ok_no_error "from" _ _ Hfrom).
  cbn [or_else truthy_str].
  assert (Hq : match dict_get "query" document with
               | Some q => _validate_query_structure q
               | None => None
               end = None).
  { destruct (dict_get "query" document) as [ q | ];
      [ apply well_formed_clause_valid, Hquery | reflexivity ]. }
  rewrite Hq. cbn [truthy_str].
  destruct mapping as [ m | ]; [ rewrite Hmapping | ]; reflexivity.
Qed.

(** Every error message of the clause validator is a non-empty string, so
    that [if item_error:] tests whether there is an error. *)
Lemma for_return_some {A R} (body : A -> option R) l r :
  for_return body l = Some r -> exists x, In x l /\ body x = Some r.
Proof.
  induction l as [ | x l IH ]; simpl; [ discriminate | ].
  destruct (body x) as [ r' | ] eqn:E.
  - intros [= <-]. exists x. auto.
  - intros H. destruct (IH H) as (y & Hy & Hr). exists y. auto.
Qed.

Lemma bool_clause_step_nonempty validate clause v e :
  bool_clause_step validate clause v = Some e -> e <> "".
Proof.
  destruct v; simpl; try (intros [= <-]; discriminate).
  - intros H. apply for_return_some in H as (x & _ & H).
    destruct (truthy_str (validate x)); [ | discriminate ].
    injection H as <-. discriminate.
  - destruct (truthy_str _); [ | discriminate ]. intros [= <-]. discriminate.
Qed.

Lemma validate_query_structure_nonempty clause e :
  _validate_query_structure clause = Some e -> e <> "".
Proof.
  destruct clause as [ | | | | | | [ | [clause_type body] others ] ];
    try (intros [= <-]; discriminate).
  cbn [_validate_query_structure].
  destruct (_ && _); [ discriminate | ].
  destruct (negb _); [ intros [= <-]; discriminate | ].
  destruct (clause_type =? "bool").
  - destruct body; try (intros [= <-]; discriminate).
    destruct (filter _ _); [ | intros [= <-]; discriminate ].
    intros H. apply for_return_some in H as (clause & _ & H).
    rewrite dict_get_with_spec in H.
    destruct (dict_get clause entries) as [ v | ]; [ | discriminate ].
    eapply bool_clause_step_nonempty, H.
  - destruct (clause_type =? "nested"); [ | discriminate ].
    destruct body; try (intros [= <-]; discriminate).
    destruct (negb _); [ intros [= <-]; discriminate | ].
    destruct (dict_get_with _ _ _) as [ query_error | ];
      [ | intros [= <-]; discriminate ].
    destruct (truthy_str query_error); [ | discriminate ].
    intros [= <-]. discriminate.
Qed.

Lemma truthy_str_validate_query_structure clause :
  truthy_str (_validate_query_structure clause)
  = match _validate_query_structure clause with Some _ => true | None => false end.
Proof.
  destruct (_validate_query_structure clause) as [ e | ] eqn:E; [ | reflexivity ].
  apply validate_query_structure_nonempty in E.
  destruct e; [ congruence | reflexivity ].
Qed.

(** One iteration of the [for clause in ...] loop computes the error of
    that sub-key. *)
Lemma bool_clause_step_sub_key_error clause body :
  match dict_get_with (bool_clause_step _validate_query_structure clause) clause body with
  | Some r => r
  | None => None
  end = sub_key_error clause body.
Proof.
  rewrite dict_get_with_spec. unfold sub_key_error.
  destruct (dict_get clause body) as [ v | ]; [ | reflexivity ].
  destruct v as [ | | | | | items | d ]; try reflexivity.
  - cbn [option_map bool_clause_step].
    induction items as [ | item items IH ]; [ reflexivity | ].
    cbn [for_return find].
    rewrite truthy_str_validate_query_structure.
    destruct (_validate_query_structure item) as [ e | ] eqn:E;
      [ now rewrite ?E | exact IH ].
  - cbn [option_map bool_clause_step].
    rewrite truthy_str_validate_query_structure.
    destruct (_validate_query_structure (PyDict d)); reflexivity.
Qed.

Lemma bool_clause_validation body others :
  forallb (fun k => str_in k valid_bool_clauses) (keys body) = true ->
  _validate_query_structure (PyDict (("bool", PyDict body) :: others))
  = first_sub_key_error body.
Proof.
  intros Hkeys. cbn [_validate_query_structure].
  change ("bool" =? "match_all") with false.
  change (str_in "bool" VALID_QUERY_TYPES) with true.
  change ("bool" =? "bool") with true.
  cbn [andb negb].
  rewrite (filter_negb_forallb _ _ Hkeys).
  unfold bool_clause_order, first_sub_key_error. cbn [for_return].
  rewrite !bool_clause_step_sub_key_error.
  destruct (sub_key_error "must" body); [ reflexivity | ].
  destruct (sub_key_error "must_not" body); [ reflexivity | ].
  destruct (sub_key_error "should" body); [ reflexivity | ].
  destruct (sub_key_error "filter" body); reflexivity.
Qed.

(** Looking a key up does not depend on the order of the entries. *)
Lemma dict_get_In_NoDup k v d :
  NoDup (keys d) -> In (k, v) d -> dict_get k d = Some v.
Proof.
  induction d as [ | [k' w] d IH ]; simpl; [ contradiction | ].
  intros Hnd Hin. inversion Hnd as [ | ? ? Hnotin Hnd' ]; subst.
  destruct Hin as [ [= -> ->] | Hin ].
  - now rewrite String.eqb_refl.
  - destruct (k' =? k) eqn:E; [ | auto ].
    apply String.eqb_eq in E. subst. exfalso. apply Hnotin.
    apply (in_map fst) in Hin. exact Hin.
Qed.

Lemma dict_get_Permutation k d d' :
  NoDup (keys d) -> Permutation d d' -> dict_get k d = dict_get k d'.
Proof.
  intros Hnd Hperm.
  assert (Hnd' : NoDup (keys d'))
    by (eapply Permutation_NoDup; [ apply Permutation_map, Hperm | exact Hnd ]).
  destruct (dict_get k d) as [ v | ] eqn:E.
  - symmetry. apply dict_get_In_NoDup; [ exact Hnd' | ].
    eapply Permutation_in; [ exact Hperm | apply dict_get_In, E ].
  - destruct (dict_get k d') as [ v' | ] eqn:E'; [ | reflexivity ].
    apply dict_get_In in E'.
    apply (Permutation_in _ (Permutation_sym Hperm)) in E'.
    apply (dict_get_In_NoDup _ _ _ Hnd) in E'. congruence.
Qed.

Lemma sub_key_error_Permutation k d d' :
  NoDup (keys d) -> Permutation d d' -> sub_key_error k d = sub_key_error k d'.
Proof.
  intros Hnd Hperm. unfold sub_key_error.
  now rewrite (dict_get_Permutation k d d' Hnd Hperm).
Qed.

(** C5.  In a [bool] clause whose sub-keys are all legal, the result is the
    first error in the order must, must_not, should, filter, the error of a
    sub-key being that of its single clause or of the first failing clause of
    its array (and a type error when the value is neither); the order of the
    sub-keys in the input object does not matter. *)
Theorem bool_sub_keys_fixed_priority body others :
  forallb (fun k => str_in k valid_bool_clauses) (keys body) = true ->
  NoDup (keys body) ->
  _validate_query_structure (PyDict (("bool", PyDict body) :: others))
  = first_sub_key_error body
  /\ forall body',
       Permutation body body' ->
       _validate_query_structure (PyDict (("bool", PyDict body') :: others))
       = _validate_query_structure (PyDict (("bool", PyDict body) :: others)).
Proof.
  intros Hkeys Hnd. split; [ apply bool_clause_validation, Hkeys | ].
  intros body' Hperm.
  assert (Hkeys' : forallb (fun k => str_in k valid_bool_clauses) (keys body') = true).
  { rewrite forallb_forall in *. intros k Hk. apply Hkeys.
    eapply Permutation_in; [ apply Permutation_sym, Permutation_map, Hperm | exact Hk ]. }
  rewrite !bool_clause_validation by assumption.
  unfold first_sub_key_error.
  now rewrite !(fun k => sub_key_error_Permutation k body body' Hnd Hperm).
Qed.

(** *** Conformance to the schema *)

Lemma first_encounter_In name names :
  In name (SetOrder.first_encounter names) <-> In name names.
Proof.
  induction names as [ | x names IH ]; [ reflexivity | ].
  cbn [SetOrder.first_encounter In]. rewrite filter_In, IH, negb_true_iff.
  destruct (String.eqb_spec name x) as [ -> | Hne ].
  - intuition.
  - intuition congruence.
Qed.

Lemma Permutation_filter_str (f : string -> bool) l l' :
  Permutation l l' -> Permutation (filter f l) (filter f l').
Proof.
  induction 1 as [ | x l l' _ IH | x y l | l l' l'' _ IH1 _ IH2 ]; cbn [filter].
  - constructor.
  - destruct (f x); [ constructor | ]; exact IH.
  - destruct (f x), (f y); try reflexivity. constructor.
  - etransitivity; eassumption.
Qed.


(** Conversely, a clause without structural error follows the grammar. *)
Lemma forallb_filter_negb {A} (f : A -> bool) l :
  filter (fun x => negb (f x)) l = [] -> forallb f l = true.
Proof.
  induction l as [ | x l IH ]; cbn [filter forallb]; [ reflexivity | ].
  destruct (f x); cbn [negb andb]; [ exact IH | discriminate ].
Qed.

Lemma for_return_none_inv {A R} (body : A -> option R) l :
  for_return body l = None -> forall x, In x l -> body x = None.
Proof.
  induction l as [ | y l IH ]; cbn [for_return]; intros H x Hx; [ contradiction | ].
  destruct (body y) eqn:E; [ discriminate | ].
  destruct Hx as [ <- | Hx ]; [ exact E | now apply IH ].
Qed.

Lemma truthy_str_false_validate_query_structure clause :
  truthy_str (_validate_query_structure clause) = false ->
  _validate_query_structure clause = None.
Proof.
  rewrite truthy_str_validate_query_structure.
  destruct (_validate_query_structure clause); [ discriminate | reflexivity ].
Qed.

Lemma valid_clause_well_formed clause :
  _validate_query_structure clause = None -> well_formed_clause clause = true.
Proof.
  remember (value_size clause) as n eqn:Hn.
  assert (Hlt : value_size clause <= n) by lia. clear Hn.
  revert clause Hlt.
  induction n as [ | n IH ]; intros clause Hlt Hvalid.
  { destruct clause; simpl in Hlt; lia. }
  destruct clause as [ | | | | | | [ | [clause_type body] others ] ]; try discriminate.
  assert (Hbody : value_size body <= n).
  { pose proof (value_size_entry clause_type body ((clause_type, body) :: others)
                  (or_introl eq_refl)). lia. }
  cbn [_validate_query_structure] in Hvalid. cbn [well_formed_clause].
  destruct (String.eqb_spec clause_type "match_all") as [ -> | Hma ].
  { reflexivity. }
  cbn [andb] in Hvalid.
  destruct (str_in clause_type VALID_QUERY_TYPES); [ | discriminate ].
  cbn [negb andb] in *.
  destruct (clause_type =? "bool").
  - destruct body as [ | | | | | | sub ]; try discriminate.
    destruct (filter _ (keys sub)) eqn:Hkeys; [ | discriminate ].
    rewrite (forallb_filter_negb _ _ Hkeys). cbn [andb].
    apply forallb_forall. intros clause Hclause.
    pose proof (for_return_none_inv _ _ Hvalid clause Hclause) as Hstep.
    cbn beta in Hstep.
    rewrite dict_get_with_spec in Hstep. rewrite dict_get_with_spec.
    destruct (dict_get clause sub) as [ v | ] eqn:Hget; [ | reflexivity ].
    assert (Hv : value_size v < value_size (PyDict sub))
      by (eapply value_size_entry, dict_get_In, Hget).
    cbn [option_map] in *.
    destruct v as [ | | | | | items | d ]; try discriminate.
    + cbn [bool_clause_step] in Hstep. apply forallb_forall. intros item Hitem.
      pose proof (for_return_none_inv _ _ Hstep item Hitem) as Hitem_ok.
      cbn beta in Hitem_ok.
      destruct (truthy_str (_validate_query_structure item)) eqn:Ht;
        [ discriminate | ].
      apply IH; [ | now apply truthy_str_false_validate_query_structure ].
      pose proof (value_size_item item items Hitem). lia.
    + cbn [bool_clause_step] in Hstep.
      destruct (truthy_str (_validate_query_structure (PyDict d))) eqn:Ht;
        [ discriminate | ].
      apply IH; [ lia | now apply truthy_str_false_validate_query_structure ].
  - destruct (clause_type =? "nested"); [ | reflexivity ].
    destruct body as [ | | | | | | sub ]; try discriminate.
    destruct (has_key "path" sub); [ | discriminate ]. cbn [negb andb] in *.
    rewrite dict_get_with_spec in Hvalid. rewrite dict_get_with_spec.
    destruct (dict_get "query" sub) as [ q | ] eqn:Hget; [ | discriminate ].
    cbn [option_map] in *.
    destruct (truthy_str (_validate_query_structure q)) eqn:Ht; [ discriminate | ].
    apply IH; [ | now apply truthy_str_false_validate_query_structure ].
    pose proof (value_size_entry _ _ _ (dict_get_In _ _ _ Hget)). lia.
Qed.

(** The grammar is exactly what the clause validator accepts. *)
Lemma well_formed_clause_iff clause :
  well_formed_clause clause = true <-> _validate_query_structure clause = None.
Proof.
  split; [ apply well_formed_clause_valid | apply valid_clause_well_formed ].
Qed.

(** Without a schema [validate] returns an outcome on every input. *)
Lemma validate_without_schema_returns query :
  exists outcome,
    validate json_loads json_error set_iter None query = Return outcome.
Proof.
  unfold validate.
  destruct query as [ | | | | s | | document ];
    try (eexists; reflexivity).
  - destruct (json_loads s) as [ [ | | | | | | document ] | ];
      try (eexists; reflexivity);
      destruct (truthy_str (_validate_top_level_structure document));
      try (eexists; reflexivity);
      destruct (truthy_str _); eexists; reflexivity.
  - destruct (truthy_str (_validate_top_level_structure document));
      try (eexists; reflexivity);
      destruct (truthy_str _); eexists; reflexivity.
Qed.

(** C2.  [validate] raises on a schema whose property definition is not an
    object ([field_def.get] on a string), on a schema whose [properties] is
    not an object, and on a [multi_match] whose [fields] holds a number
    (["^" in field]): the exception leaves the call, no outcome is
    returned. *)
Theorem validate_raises_on_malformed_schema_or_fields :
  validate json_loads json_error set_iter
    (Some (PyDict [("properties", PyDict [("title", PyStr "text")])]))
    (PyDict [("query", PyDict [("match_all", PyDict [])])])
  = Raise AttributeError
  /\ validate json_loads json_error set_iter
       (Some (PyDict [("properties", PyList [])]))
       (PyDict [("query", PyDict [("match_all", PyDict [])])])
     = Raise AttributeError
  /\ validate json_loads json_error set_iter
       (Some (PyDict [("properties",
                       PyDict [("title", PyDict [("type", PyStr "text")])])]))
       (PyDict [("query",
                 PyDict [("multi_match",
                          PyDict [("query", PyStr "x");
                                  ("fields", PyList [PyStr "title"; PyInt 2])])])])
     = Raise TypeError.
Proof.
  repeat split; reflexivity.
Qed.

End StructuralValidator.

(** *** The two patterns of [parse_query_string] *)

Section Patterns.
Import Re QueryUtils.

Lemma any_true c : any c = true.
Proof. unfold any. destruct (space c); reflexivity. Qed.

(** What a way consumes and what it leaves make up the subject. *)
Lemma strip_prefix_Some l s s' : strip_prefix l s = Some s' -> s = l ++ s'.
Proof.
  revert s. induction l as [ | a l IH ]; intros s; simpl.
  - now intros [= ->].
  - destruct s as [ | b s ]; [ discriminate | ].
    destruct (Ascii.eqb_spec a b) as [ -> | ]; [ | discriminate ].
    intros H. now rewrite (IH _ H).
Qed.

(** A greedy star that can take the first character tries the ways that
    take it first, then the ways that take nothing. *)
Lemma matches_star_seq_cons cls r a s :
  cls a = true ->
  matches (Seq (Star cls) r) (String a s)
  = (map (push a) (matches (Seq (Star cls) r) s)
       ++ map (fun w => Way (consumed w) (group1 w) (rest w))
              (matches r (String a s)))%list.
Proof.
  intros Ha. cbn [matches star_greedy]. rewrite Ha.
  rewrite map_app, flat_map_app. cbn [map flat_map fst snd consumed group1 rest].
  rewrite List.app_nil_r. f_equal.
  - rewrite map_map. rewrite !flat_map_concat_map, concat_map, !map_map.
    f_equal. apply map_ext. intros [c t]. cbn [fst snd consumed group1 rest].
    rewrite map_map. apply map_ext. intros w. reflexivity.
  - apply map_ext. intros w. destruct (group1 w); reflexivity.
Qed.

Lemma matches_lit_mismatch a b l s :
  Ascii.eqb a b = false -> matches (Lit (String a l)) (String b s) = [].
Proof. intros H. cbn [matches strip_prefix]. now rewrite H. Qed.

(** Where no [}] follows, [[\s\S]*}] does not match. *)
Lemma star_any_brace_none s :
  mentions "}" s = false -> matches (Seq (Star any) (Lit "}")) s = [].
Proof.
  induction s as [ | a s IH ]; [ reflexivity | ].
  cbn [mentions]. intros H. apply orb_false_elim in H as [Ha Hs].
  rewrite matches_star_seq_cons by apply any_true.
  rewrite (IH Hs). cbn [map app].
  rewrite matches_lit_mismatch; [ reflexivity | ].
  now rewrite Ascii.eqb_sym.
Qed.

(** [[\s\S]*}] first runs up to the last [}]. *)
Lemma star_any_brace_last inside after :
  mentions "}" after = false ->
  exists others,
    matches (Seq (Star any) (Lit "}")) (inside ++ "}" ++ after)
    = Way (inside ++ "}") None after :: others.
Proof.
  intros Hafter. induction inside as [ | a inside (others & IH) ].
  - cbn [append]. rewrite matches_star_seq_cons by apply any_true.
    rewrite (star_any_brace_none _ Hafter). cbn [map app].
    eexists. reflexivity.
  - cbn [append] in *. rewrite matches_star_seq_cons by apply any_true.
    rewrite IH. cbn [map app push consumed group1 rest].
    eexists. reflexivity.
Qed.

Lemma matches_seq_char_hit a r s :
  matches (Seq (Lit (String a "")) r) (String a s)
  = map (fun w => Way (String a (consumed w))
                      (match group1 w with Some g => Some g | None => None end)
                      (rest w))
        (matches r s).
Proof.
  cbn [matches strip_prefix]. rewrite Ascii.eqb_refl.
  cbn [flat_map consumed group1 rest append]. now rewrite List.app_nil_r.
Qed.

Lemma matches_seq_char_miss a b r s :
  Ascii.eqb a b = false -> matches (Seq (Lit (String a "")) r) (String b s) = [].
Proof.
  intros H. cbn [matches strip_prefix]. rewrite H. reflexivity.
Qed.

(** The object pattern finds the span from the first [{] to the last [}]. *)
Lemma search_json_object_pattern before inside after :
  mentions "{" before = false ->
  mentions "}" after = false ->
  search json_object_pattern (before ++ "{" ++ inside ++ "}" ++ after)
  = Some (Way ("{" ++ inside ++ "}") (Some ("{" ++ inside ++ "}")) after).
Proof.
  intros Hbefore Hafter. unfold json_object_pattern.
  induction before as [ | a before IH ].
  - cbn [append search].
    change (matches (Group ?r) ?s)
      with (map (fun w => Way (consumed w) (Some (consumed w)) (rest w)) (matches r s)).
    rewrite matches_seq_char_hit.
    destruct (star_any_brace_last inside after Hafter) as (others & Hlast).
    change ("}" ++ after) with (String "}" after) in Hlast.
    rewrite Hlast. reflexivity.
  - cbn [mentions] in Hbefore. apply orb_false_elim in Hbefore as [Ha Hb].
    cbn [append search].
    change (matches (Group ?r) ?s)
      with (map (fun w => Way (consumed w) (Some (consumed w)) (rest w)) (matches r s)).
    rewrite matches_seq_char_miss by (now rewrite Ascii.eqb_sym).
    cbn [map]. apply IH, Hb.
Qed.

(** The ways of a sequence are the ways of its second part after a way of
    its first part. *)
Lemma in_matches_seq r1 r2 s w :
  In w (matches (Seq r1 r2) s) <->
  exists w1 w2,
    In w1 (matches r1 s) /\ In w2 (matches r2 (rest w1))
    /\ w = Way (consumed w1 ++ consumed w2)
               (match group1 w2 with Some g => Some g | None => group1 w1 end)
               (rest w2).
Proof.
  cbn [matches]. rewrite in_flat_map. split.
  - intros (w1 & H1 & H). apply in_map_iff in H as (w2 & <- & H2).
    exists w1, w2. auto.
  - intros (w1 & w2 & H1 & H2 & ->). exists w1. split; [ exact H1 | ].
    apply in_map_iff. exists w2. auto.
Qed.

Lemma in_star_greedy_nil cls s : In (EmptyString, s) (star_greedy cls s).
Proof.
  destruct s as [ | a s ]; cbn [star_greedy]; [ now left | ].
  destruct (cls a); [ apply in_or_app; right | ]; now left.
Qed.

Lemma in_star_lazy_any taken s : In (taken, s) (star_lazy any (taken ++ s)).
Proof.
  induction taken as [ | a taken IH ].
  - destruct s; now left.
  - cbn [append star_lazy]. right. rewrite any_true.
    apply in_map_iff. exists (taken, s). auto.
Qed.

Lemma star_greedy_split cls s m :
  In m (star_greedy cls s) -> s = fst m ++ snd m.
Proof.
  revert m. induction s as [ | a s IH ]; intros m; cbn [star_greedy].
  - intros [ <- | [] ]. reflexivity.
  - destruct (cls a).
    + intros H. apply in_app_or in H as [ H | [ <- | [] ] ]; [ | reflexivity ].
      apply in_map_iff in H as (m' & <- & H). cbn [fst snd append].
      now rewrite <- (IH _ H).
    + intros [ <- | [] ]. reflexivity.
Qed.

Lemma star_lazy_split cls s m :
  In m (star_lazy cls s) -> s = fst m ++ snd m.
Proof.
  revert m. induction s as [ | a s IH ]; intros m; cbn [star_lazy].
  - intros [ <- | [] ]. reflexivity.
  - intros [ <- | H ]; [ reflexivity | ].
    destruct (cls a); [ | contradiction ].
    apply in_map_iff in H as (m' & <- & H). cbn [fst snd append].
    now rewrite <- (IH _ H).
Qed.

Lemma matches_split r : forall s w, In w (matches r s) -> s = consumed w ++ rest w.
Proof.
  induction r as [ l | r IH | cls | cls | r1 IH1 r2 IH2 | r IH ]; intros s w.
  - cbn [matches]. destruct (strip_prefix l s) as [ s' | ] eqn:E; [ | contradiction ].
    intros [ <- | [] ]. now apply strip_prefix_Some.
  - cbn [matches]. intros H. apply in_app_or in H as [ H | [ <- | [] ] ]; auto.
  - cbn [matches]. intros H. apply in_map_iff in H as (m & <- & H).
    now apply star_greedy_split in H.
  - cbn [matches]. intros H. apply in_map_iff in H as (m & <- & H).
    now apply star_lazy_split in H.
  - intros H. apply in_matches_seq in H as (w1 & w2 & H1 & H2 & ->).
    cbn [consumed rest]. rewrite append_assoc.
    rewrite <- (IH2 _ _ H2). now apply IH1.
  - cbn [matches]. intros H. apply in_map_iff in H as (w' & <- & H).
    cbn [consumed rest]. now apply IH.
Qed.

Lemma in_matches_lit l s w : In w (matches (Lit l) s) -> consumed w = l.
Proof.
  cbn [matches]. destruct (strip_prefix l s); [ | contradiction ].
  intros [ <- | [] ]. reflexivity.
Qed.

Lemma search_Some r s w :
  search r s = Some w ->
  exists before s', s = before ++ s' /\ In w (matches r s').
Proof.
  induction s as [ | a s IH ]; cbn [search].
  - destruct (matches r "") as [ | w' ws ] eqn:E; [ discriminate | ].
    intros [= ->]. exists "", "". rewrite E. split; [ reflexivity | now left ].
  - destruct (matches r (String a s)) as [ | w' ws ] eqn:E.
    + intros H. destruct (IH H) as (before & s' & -> & Hin).
      exists (String a before), s'. auto.
    + intros [= ->]. exists "", (String a s). rewrite E.
      split; [ reflexivity | now left ].
Qed.

Lemma search_not_None r before s' :
  matches r s' <> [] -> search r (before ++ s') <> None.
Proof.
  intros Hne. induction before as [ | a before IH ]; cbn [append].
  - destruct s'; cbn [search]; destruct (matches r _); congruence.
  - cbn [search].
    destruct (matches r (String a (before ++ s'))); [ exact IH | discriminate ].
Qed.

(** [re.search] finds a fenced block exactly in the texts that have two
    triple-backtick markers, one after the other. *)
Lemma search_fenced_block_pattern text :
  search fenced_block_pattern text <> None <-> has_fenced_block text.
Proof.
  unfold fenced_block_pattern. split.
  - destruct (search _ text) as [ w | ] eqn:E; [ intros _ | congruence ].
    apply search_Some in E as (before & s' & -> & Hin).
    pose proof (matches_split _ _ _ Hin) as Hs'.
    apply in_matches_seq in Hin as (w1 & w2 & H1 & H2 & ->).
    apply in_matches_lit in H1.
    apply in_matches_seq in H2 as (w3 & w4 & _ & H4 & ->).
    apply in_matches_seq in H4 as (w5 & w6 & _ & H6 & ->).
    apply in_matches_seq in H6 as (w7 & w8 & _ & H8 & ->).
    apply in_matches_seq in H8 as (w9 & w10 & _ & H10 & ->).
    apply in_matches_lit in H10.
    cbn [consumed rest] in Hs'. rewrite H1, H10 in Hs'.
    exists before, (consumed w3 ++ consumed w5 ++ consumed w7 ++ consumed w9), (rest w10).
    rewrite Hs'. now rewrite !append_assoc.
  - intros (before & inside & after & ->).
    apply search_not_None.
    assert (Hin : In (Way ("```" ++ "" ++ "" ++ inside ++ "" ++ "```")
                          (Some inside) after)
                     (matches (Seq (Lit "```")
                                (Seq (Opt (Lit "json"))
                                   (Seq (Star space)
                                      (Seq (Group (StarLazy any))
                                         (Seq (Star space) (Lit "```"))))))
                              ("```" ++ inside ++ "```" ++ after))).
    { apply in_matches_seq.
      exists (Way "```" None (inside ++ "```" ++ after)),
             (Way ("" ++ "" ++ inside ++ "" ++ "```") (Some inside) after).
      split; [ now left | ]. split; [ | reflexivity ].
      apply in_matches_seq.
      exists (Way "" None (inside ++ "```" ++ after)),
             (Way ("" ++ inside ++ "" ++ "```") (Some inside) after).
      split; [ cbn [matches rest]; apply in_or_app; right; now left | ].
      split; [ | reflexivity ].
      apply in_matches_seq.
      exists (Way "" None (inside ++ "```" ++ after)),
             (Way (inside ++ "" ++ "```") (Some inside) after).
      split.
      { cbn [matches rest]. apply in_map_iff.
        exists (EmptyString, inside ++ "```" ++ after).
        split; [ reflexivity | apply in_star_greedy_nil ]. }
      split; [ | reflexivity ].
      apply in_matches_seq.
      exists (Way inside (Some inside) ("```" ++ after)),
             (Way ("" ++ "```") None after).
      split.
      { cbn [matches rest]. apply in_map_iff.
        exists (Way inside None ("```" ++ after)). split; [ reflexivity | ].
        apply in_map_iff. exists (inside, "```" ++ after).
        split; [ reflexivity | apply in_star_lazy_any ]. }
      split; [ | reflexivity ].
      apply in_matches_seq.
      exists (Way "" None ("```" ++ after)), (Way "```" None after).
      split.
      { cbn [matches rest]. apply in_map_iff.
        exists (EmptyString, "```" ++ after).
        split; [ reflexivity | apply in_star_greedy_nil ]. }
      split; [ now left | reflexivity ]. }
    intros Heq. rewrite Heq in Hin. exact Hin.
Qed.

End Patterns.

(** *** The tolerant extractor *)

Section Recover.
Import Re QueryUtils.

Variable json_loads : string -> option value.
Variable json_error : string -> string.

Lemma search_fenced_block_pattern_None text :
  search fenced_block_pattern text = None <-> ~ has_fenced_block text.
Proof.
  rewrite <- search_fenced_block_pattern.
  destruct (search fenced_block_pattern text); split; try congruence.
  intros H. exfalso. apply H. discriminate.
Qed.


(** C4, amended.  When the whole text does not parse and has no fenced
    block, the brace scan parses the substring from the first [{] of the text
    to its last [}]. *)
Theorem brace_scan_first_open_to_last_close before inside after :
  mentions "{" before = false ->
  mentions "}" after = false ->
  json_loads (before ++ "{" ++ inside ++ "}" ++ after) = None ->
  ~ has_fenced_block (before ++ "{" ++ inside ++ "}" ++ after) ->
  search json_object_pattern (before ++ "{" ++ inside ++ "}" ++ after)
  = Some (Way ("{" ++ inside ++ "}") (Some ("{" ++ inside ++ "}")) after)
  /\ parse_query_string json_loads json_error (before ++ "{" ++ inside ++ "}" ++ after)
     = parsed json_loads json_error ("{" ++ inside ++ "}").
Proof.
  intros Hbefore Hafter Hwhole Hfence.
  pose proof (search_json_object_pattern before inside after Hbefore Hafter) as Hspan.
  split; [ exact Hspan | ].
  unfold parse_query_string, parsed. rewrite Hwhole.
  apply search_fenced_block_pattern_None in Hfence. rewrite Hfence, Hspan.
  reflexivity.
Qed.

End Recover.

(** *** Round trip through [json.dumps] and [json.loads] *)

Section JsonRoundTrip.
Import Json.


Lemma length_append (a b : string) :
  String.length (a ++ b) = String.length a + String.length b.
Proof. induction a as [ | c a IH ]; simpl; [ reflexivity | now rewrite IH ]. Qed.

(** One escaped character is read back as that character. *)
Lemma scanstring_escape_char c tail :
  scanstring (escape_char c ++ tail) = cons_char c (scanstring tail).
Proof.
  destruct c as [[] [] [] [] [] [] [] []]; reflexivity.
Qed.

Lemma scanstring_escape s rest :
  scanstring (escape s ++ String quote rest) = Some (s, rest).
Proof.
  induction s as [ | c s IH ]; [ reflexivity | ].
  cbn [escape]. rewrite append_assoc, scanstring_escape_char, IH. reflexivity.
Qed.

Lemma scan_once_string fuel s rest :
  scan_once (S fuel) (encode_basestring_ascii s ++ rest) = Some (PyStr s, rest).
Proof.
  unfold encode_basestring_ascii. cbn [append scan_once].
  change (Ascii.eqb quote quote) with true. cbn iota.
  rewrite append_assoc. cbn [append]. now rewrite scanstring_escape.
Qed.

(** *** Integers *)


Lemma span_digits_value_end rest :
  value_end rest -> span_digits rest = (EmptyString, rest).
Proof. destruct 1; reflexivity. Qed.

Lemma scan_frac_value_end rest :
  value_end rest -> scan_frac rest = (EmptyString, rest).
Proof. destruct 1; reflexivity. Qed.

Lemma scan_exp_value_end rest :
  value_end rest -> scan_exp rest = (EmptyString, rest).
Proof. destruct 1; reflexivity. Qed.

Lemma span_digits_uint d rest :
  value_end rest ->
  span_digits (DecimalString.NilEmpty.string_of_uint d ++ rest)
  = (DecimalString.NilEmpty.string_of_uint d, rest).
Proof.
  intros Hrest.
  induction d; cbn [DecimalString.NilEmpty.string_of_uint append span_digits];
    [ now apply span_digits_value_end | .. ];
    change (is_digit _) with true; cbn iota; now rewrite IHd.
Qed.

(** The decimal digits of a positive number do not start with a zero. *)
Lemma to_uint_head p :
  match Pos.to_uint p with
  | Decimal.Nil | Decimal.D0 _ => False
  | _ => True
  end.
Proof.
  pose proof (DecimalPos.Unsigned.to_of (Pos.to_uint p)) as H.
  rewrite DecimalPos.Unsigned.of_to in H. cbn [N.to_uint] in H.
  pose proof (DecimalPos.Unsigned.to_uint_nonzero p) as Hnz.
  pose proof (DecimalPos.Unsigned.to_uint_nonnil p) as Hnn.
  destruct (Pos.to_uint p) as [ | d | d | d | d | d | d | d | d | d | d ];
    try exact I; [ congruence | ].
  rewrite DecimalFacts.unorm_D0 in H.
  destruct d as [ | d | d | d | d | d | d | d | d | d | d ];
    try congruence;
    match type of H with
    | _ = Decimal.unorm ?u =>
        assert (Hle : Decimal.nb_digits (Decimal.unorm u) <= Decimal.nb_digits u)
          by (apply DecimalFacts.nb_digits_unorm; discriminate);
        rewrite <- H in Hle; cbn [Decimal.nb_digits] in Hle; lia
    end.
Qed.

Lemma nat_of_digits_uint d :
  nat_of_digits (DecimalString.NilEmpty.string_of_uint d) = Z.of_uint d.
Proof.
  unfold nat_of_digits. now rewrite DecimalString.NilEmpty.usu.
Qed.

Lemma of_uint_to_uint p : Z.of_uint (Pos.to_uint p) = Zpos p.
Proof.
  unfold Z.of_uint. now rewrite DecimalPos.Unsigned.of_to.
Qed.

(** The digits of a positive number are scanned as an integer part. *)
Lemma scan_unsigned_pos p rest :
  value_end rest ->
  scan_unsigned (DecimalString.NilEmpty.string_of_uint (Pos.to_uint p) ++ rest)
  = Some (DecimalString.NilEmpty.string_of_uint (Pos.to_uint p), rest)
  /\ scan_integer (DecimalString.NilEmpty.string_of_uint (Pos.to_uint p) ++ rest)
     = scan_unsigned (DecimalString.NilEmpty.string_of_uint (Pos.to_uint p) ++ rest)
  /\ int_of_lexeme (DecimalString.NilEmpty.string_of_uint (Pos.to_uint p)) = Zpos p
  /\ DecimalString.NilZero.string_of_uint (Pos.to_uint p)
     = DecimalString.NilEmpty.string_of_uint (Pos.to_uint p).
Proof.
  intros Hrest. pose proof (to_uint_head p) as Hhead.
  pose proof (span_digits_uint (Pos.to_uint p) rest Hrest) as Hspan.
  pose proof (nat_of_digits_uint (Pos.to_uint p)) as Hval.
  rewrite of_uint_to_uint in Hval.
  destruct (Pos.to_uint p) as [ | d | d | d | d | d | d | d | d | d | d ];
    try contradiction;
    cbn [DecimalString.NilEmpty.string_of_uint append] in *;
    (repeat split; [ unfold scan_unsigned; change (is_digit _) with true;
                     cbn iota; now rewrite Hspan | exact Hval ]).
Qed.

Lemma scan_number_int n rest :
  value_end rest ->
  scan_number (DecimalString.NilZero.string_of_int (Z.to_int n) ++ rest)
  = Some (PyInt n, rest).
Proof.
  intros Hrest. unfold scan_number.
  destruct n as [ | p | p ]; cbn [Z.to_int DecimalString.NilZero.string_of_int].
  - cbn. rewrite scan_frac_value_end, scan_exp_value_end by assumption.
    reflexivity.
  - destruct (scan_unsigned_pos p rest Hrest) as (Hscan & Hint & Hval & ->).
    rewrite Hint, Hscan.
    rewrite scan_frac_value_end, scan_exp_value_end by assumption.
    now rewrite Hval.
  - destruct (scan_unsigned_pos p rest Hrest) as (Hscan & Hint & Hval & ->).
    cbn [append scan_integer]. rewrite Hscan.
    rewrite scan_frac_value_end, scan_exp_value_end by assumption.
    unfold int_of_lexeme. unfold int_of_lexeme in Hval.
    pose proof (to_uint_head p) as Hhead.
    destruct (Pos.to_uint p) as [ | d | d | d | d | d | d | d | d | d | d ];
      try contradiction;
      cbn [DecimalString.NilEmpty.string_of_uint] in *; now rewrite Hval.
Qed.

(** *** The scanner on the first character *)

Lemma scan_number_head s res :
  scan_number s = Some res ->
  exists c s', s = String c s' /\ (Ascii.eqb c "-" || is_digit c) = true.
Proof.
  intros H. destruct s as [ | c s' ]; [ discriminate | ].
  exists c, s'. split; [ reflexivity | ].
  destruct c as [[] [] [] [] [] [] [] []]; try reflexivity;
    exfalso; cbn in H; discriminate.
Qed.

Lemma scan_once_number fuel s res :
  scan_number s = Some res -> scan_once (S fuel) s = Some res.
Proof.
  intros H. destruct (scan_number_head s res H) as (c & s' & -> & Hhead).
  destruct c as [[] [] [] [] [] [] [] []];
    try (vm_compute in Hhead; discriminate Hhead);
    cbn -[scan_number]; now rewrite H.
Qed.

Lemma scan_once_start fuel s r : scan_once fuel s = Some r -> value_start s.
Proof.
  intros H. destruct fuel as [ | fuel ]; [ discriminate | ].
  destruct s as [ | c s' ]; [ discriminate | ].
  exists c, s'.
  destruct c as [[] [] [] [] [] [] [] []];
    try (repeat split; reflexivity);
    exfalso; cbn in H; discriminate.
Qed.

Lemma skip_ws_start s : value_start s -> skip_ws s = s.
Proof.
  intros (c & s' & -> & Hws & _). cbn [skip_ws]. now rewrite Hws.
Qed.

Lemma expect_bracket_start s : value_start s -> expect "]" s = None.
Proof.
  intros (c & s' & -> & _ & Hc). cbn [expect]. now rewrite Hc.
Qed.

(** *** [dict(pairs)] on distinct keys *)

Lemma dict_set_fresh k v d :
  str_in k (keys d) = false -> dict_set k v d = (d ++ [(k, v)])%list.
Proof.
  induction d as [ | [k' v'] d IH ]; [ reflexivity | ].
  cbn [keys map fst str_in existsb dict_set app].
  intros H. apply orb_false_elim in H as [Hk Hd].
  rewrite String.eqb_sym, Hk. f_equal. apply IH, Hd.
Qed.

Lemma str_in_app k l l' : str_in k (l ++ l')%list = str_in k l || str_in k l'.
Proof. unfold str_in. apply existsb_app. Qed.

Lemma distinct_app_cons l x l' :
  distinct (l ++ x :: l')%list = true -> str_in x l = false.
Proof.
  induction l as [ | y l IH ]; [ reflexivity | ].
  cbn [List.app distinct]. intros H. apply andb_prop in H as [Hy Hl].
  change (str_in x (y :: l)) with ((x =? y) || str_in x l).
  rewrite (IH Hl), orb_false_r.
  apply negb_true_iff in Hy. rewrite str_in_app in Hy.
  apply orb_false_elim in Hy as [_ Hy].
  change (str_in y (x :: l')) with ((y =? x) || str_in y l') in Hy.
  apply orb_false_elim in Hy as [Hy _]. now rewrite String.eqb_sym.
Qed.

Lemma fold_dict_set_distinct pairs : forall acc,
  distinct (keys (acc ++ pairs)%list) = true ->
  fold_left (fun d kv => dict_set (fst kv) (snd kv) d) pairs acc
  = (acc ++ pairs)%list.
Proof.
  induction pairs as [ | [k v] pairs IH ]; intros acc Hd; cbn [fold_left].
  - now rewrite List.app_nil_r.
  - cbn [fst snd]. rewrite dict_set_fresh.
    + rewrite IH; rewrite <- List.app_assoc; [ reflexivity | exact Hd ].
    + unfold keys in Hd. rewrite map_app in Hd. cbn [map fst] in Hd.
      now apply distinct_app_cons in Hd.
Qed.

Lemma dict_of_pairs_distinct pairs :
  distinct (keys pairs) = true -> dict_of_pairs pairs = pairs.
Proof. intros H. unfold dict_of_pairs. now rewrite fold_dict_set_distinct. Qed.

(** *** Values *)

Lemma value_size_pos v : 1 <= value_size v.
Proof. destruct v; simpl; lia. Qed.

Variable float_repr : spec_float -> string.

Lemma array_items_dumps items :
  Forall (reads_value float_repr) items ->
  forallb unique_keys items = true ->
  (forall f, In f (flat_map repr_floats items) -> reads_back float_repr f) ->
  items <> [] ->
  forall fuel rest,
    1 + 2 * list_sum (map value_size items) <= fuel -> value_end rest ->
    array_items fuel (join ", " (map (dumps float_repr) items) ++ "]" ++ rest)
    = Some (items, rest).
Proof.
  induction 1 as [ | v items Hv Hitems IH ]; [ congruence | ].
  intros Hkeys Hfloats _ fuel rest Hfuel Hrest.
  cbn [forallb] in Hkeys. apply andb_prop in Hkeys as [Hkv Hkitems].
  unfold list_sum in *. cbn [map fold_right] in Hfuel.
  destruct fuel as [ | fuel ]; [ lia | ].
  assert (Hfv : forall f, In f (repr_floats v) -> reads_back float_repr f).
  { intros f Hf. apply Hfloats. cbn [flat_map]. apply in_or_app. now left. }
  assert (Hfitems : forall f, In f (flat_map repr_floats items) -> reads_back float_repr f).
  { intros f Hf. apply Hfloats. cbn [flat_map]. apply in_or_app. now right. }
  destruct items as [ | v' items ].
  - cbn [map join String.concat array_items].
    rewrite (Hv Hkv Hfv fuel ("]" ++ rest)); [ reflexivity | lia | constructor ].
  - assert (Hnext : array_items fuel
               (join ", " (map (dumps float_repr) (v' :: items)) ++ "]" ++ rest)
             = Some (v' :: items, rest)).
    { apply IH; try assumption; [ discriminate | ].
      cbn [map fold_right] in *. pose proof (value_size_pos v). lia. }
    change (join ", " (map (dumps float_repr) (v :: v' :: items)))
      with (dumps float_repr v
            ++ ", " ++ join ", " (map (dumps float_repr) (v' :: items))).
    rewrite !append_assoc. cbn [append array_items].
    rewrite (Hv Hkv Hfv fuel); [ | lia | constructor ].
    cbn [skip_ws is_ws Ascii.eqb Bool.eqb orb expect].
    assert (Hstart : value_start
              (join ", " (map (dumps float_repr) (v' :: items)) ++ String "]" rest)).
    { destruct fuel as [ | fuel' ]; [ discriminate | ].
      cbn [array_items] in Hnext.
      destruct (scan_once fuel' _) as [ [w r] | ] eqn:E; [ | discriminate ].
      eapply scan_once_start, E. }
    rewrite (skip_ws_start _ Hstart). cbn [append] in Hnext. now rewrite Hnext.
Qed.

Lemma object_items_dumps entries :
  Forall (fun e => reads_value float_repr (snd e)) entries ->
  forallb (fun e => unique_keys (snd e)) entries = true ->
  (forall f, In f (flat_map (fun e => repr_floats (snd e)) entries) ->
             reads_back float_repr f) ->
  entries <> [] ->
  forall fuel rest,
    1 + 2 * list_sum (map (fun e => value_size (snd e)) entries) <= fuel ->
    value_end rest ->
    object_items fuel (join ", " (map (entry_text float_repr) entries) ++ "}" ++ rest)
    = Some (entries, rest).
Proof.
  induction 1 as [ | [k v] entries Hv Hentries IH ]; [ congruence | ].
  intros Hkeys Hfloats _ fuel rest Hfuel Hrest.
  cbn [forallb snd] in Hkeys, Hv. apply andb_prop in Hkeys as [Hkv Hkentries].
  unfold list_sum in *. cbn [map fold_right snd] in Hfuel.
  destruct fuel as [ | fuel ]; [ lia | ].
  assert (Hfv : forall f, In f (repr_floats v) -> reads_back float_repr f).
  { intros f Hf. apply Hfloats. cbn [flat_map snd]. apply in_or_app. now left. }
  assert (Hfentries : forall f,
             In f (flat_map (fun e => repr_floats (snd e)) entries) ->
             reads_back float_repr f).
  { intros f Hf. apply Hfloats. cbn [flat_map]. apply in_or_app. now right. }
  assert (Hstart : forall tail, value_end tail ->
             value_start (dumps float_repr v ++ tail)).
  { intros tail Htail. eapply scan_once_start.
    apply (Hv Hkv Hfv (2 * value_size v) tail); [ lia | exact Htail ]. }
  destruct entries as [ | e' entries ].
  - cbn [map join String.concat object_items].
    unfold entry_text at 1, encode_basestring_ascii. cbn [fst snd].
    rewrite !append_assoc. cbn [append expect].
    change (Ascii.eqb quote quote) with true. cbn iota.
    rewrite !append_assoc. cbn [append]. rewrite scanstring_escape.
    cbn [skip_ws is_ws Ascii.eqb Bool.eqb orb expect].
    rewrite (skip_ws_start _ (Hstart _ (end_brace rest))).
    rewrite (Hv Hkv Hfv fuel); [ reflexivity | lia | constructor ].
  - assert (Hnext : object_items fuel
               (join ", " (map (entry_text float_repr) (e' :: entries)) ++ "}" ++ rest)
             = Some (e' :: entries, rest)).
    { apply IH; try assumption; [ discriminate | ].
      cbn [map fold_right] in *. pose proof (value_size_pos v). lia. }
    change (join ", " (map (entry_text float_repr) ((k, v) :: e' :: entries)))
      with (entry_text float_repr (k, v) ++ ", " ++ join ", " (map (entry_text float_repr) (e' :: entries))).
    cbn [object_items].
    unfold entry_text at 1, encode_basestring_ascii. cbn [fst snd].
    rewrite !append_assoc. cbn [append expect].
    change (Ascii.eqb quote quote) with true. cbn iota.
    rewrite !append_assoc. cbn [append]. rewrite scanstring_escape.
    cbn [skip_ws is_ws Ascii.eqb Bool.eqb orb expect].
    rewrite (skip_ws_start _ (Hstart _ (end_comma _))).
    rewrite (Hv Hkv Hfv fuel); [ | lia | constructor ].
    cbn [skip_ws is_ws Ascii.eqb Bool.eqb orb expect].
    assert (Hq : skip_ws (join ", " (map (entry_text float_repr) (e' :: entries)) ++ String "}" rest)
                 = join ", " (map (entry_text float_repr) (e' :: entries)) ++ String "}" rest).
    { destruct entries; reflexivity. }
    rewrite Hq. cbn [append] in Hnext. now rewrite Hnext.
Qed.

(** Every value whose dictionaries have distinct keys and whose floats are
    read back is read back. *)
Lemma scan_once_dumps v : reads_value float_repr v.
Proof.
  induction v as [ | b | n | f | s | items IH | entries IH ] using value_ind;
    intros Hkeys Hfloats fuel rest Hfuel Hrest;
    (destruct fuel as [ | fuel ]; [ cbn [value_size] in Hfuel; lia | ]).
  - reflexivity.
  - destruct b; reflexivity.
  - apply scan_once_number. cbn [dumps]. now apply scan_number_int.
  - destruct f as [ s | [ | ] | | s m e ]; try reflexivity;
      apply scan_once_number; cbn [dumps floatstr];
      apply Hfloats; try assumption; now left.
  - apply scan_once_string.
  - destruct items as [ | v items ]; [ reflexivity | ].
    cbn [unique_keys] in Hkeys. cbn [repr_floats] in Hfloats.
    cbn [value_size] in Hfuel.
    pose proof (array_items_dumps (v :: items) IH Hkeys Hfloats
                  ltac:(discriminate) fuel rest ltac:(lia) Hrest) as Hitems.
    change (dumps float_repr (PyList (v :: items)))
      with ("[" ++ join ", " (map (dumps float_repr) (v :: items)) ++ "]").
    rewrite !append_assoc. cbn [append scan_once].
    change (Ascii.eqb "[" quote) with false.
    change (Ascii.eqb "[" "{") with false.
    change (Ascii.eqb "[" "[") with true. cbn iota.
    assert (Hstart : value_start
              (join ", " (map (dumps float_repr) (v :: items)) ++ "]" ++ rest)).
    { destruct fuel as [ | fuel' ]; [ discriminate | ].
      cbn [array_items] in Hitems.
      destruct (scan_once fuel' _) as [ [w r] | ] eqn:E; [ | discriminate ].
      eapply scan_once_start, E. }
    change ("]" ++ rest) with (String "]" rest) in Hstart, Hitems.
    rewrite (skip_ws_start _ Hstart), (expect_bracket_start _ Hstart).
    now rewrite Hitems.
  - destruct entries as [ | e entries ]; [ reflexivity | ].
    cbn [unique_keys] in Hkeys. apply andb_prop in Hkeys as [Hdistinct Hkeys].
    cbn [repr_floats] in Hfloats. cbn [value_size] in Hfuel.
    pose proof (object_items_dumps (e :: entries) IH Hkeys Hfloats
                  ltac:(discriminate) fuel rest ltac:(lia) Hrest) as Hentries.
    change (dumps float_repr (PyDict (e :: entries)))
      with ("{" ++ join ", " (map (entry_text float_repr) (e :: entries)) ++ "}").
    rewrite !append_assoc. cbn [append scan_once].
    change (Ascii.eqb "{" quote) with false.
    change (Ascii.eqb "{" "{") with true. cbn iota.
    assert (Hq : skip_ws (join ", " (map (entry_text float_repr) (e :: entries)) ++ "}" ++ rest)
                 = join ", " (map (entry_text float_repr) (e :: entries)) ++ "}" ++ rest
                 /\ expect "}" (join ", " (map (entry_text float_repr) (e :: entries)) ++ "}" ++ rest)
                    = None).
    { destruct entries; split; reflexivity. }
    change ("}" ++ rest) with (String "}" rest) in Hq, Hentries.
    destruct Hq as [-> ->]. rewrite Hentries.
    now rewrite (dict_of_pairs_distinct _ Hdistinct).
Qed.


(** The length of the text bounds the fuel that reading it takes. *)
Lemma join_length {A} (text : A -> string) (size : A -> nat) l :
  Forall (fun a => 2 * size a <= S (String.length (text a))) l ->
  2 * list_sum (map size l) + List.length l
  <= String.length (join ", " (map text l)) + 2.
Proof.
  unfold list_sum.
  induction 1 as [ | a l Ha Hl IH ]; [ simpl; lia | ].
  destruct l as [ | b l ].
  - cbn [map join String.concat fold_right List.length]. lia.
  - change (join ", " (map text (a :: b :: l)))
      with (text a ++ ", " ++ join ", " (map text (b :: l))).
    rewrite !length_append. cbn [map fold_right List.length String.length] in *.
    lia.
Qed.

Lemma scan_number_nonempty s res :
  scan_number (s ++ "") = Some res -> 1 <= String.length s.
Proof.
  rewrite append_nil_r. intros H.
  destruct (scan_number_head _ _ H) as (c & s' & -> & _). simpl. lia.
Qed.

Lemma dumps_length v :
  (forall f, In f (repr_floats v) -> reads_back float_repr f) ->
  2 * value_size v <= S (String.length (dumps float_repr v)).
Proof.
  induction v as [ | b | n | f | s | items IH | entries IH ] using value_ind;
    intros Hfloats.
  - simpl. lia.
  - destruct b; simpl; lia.
  - pose proof (scan_number_nonempty _ _ (scan_number_int n "" end_of_text)).
    cbn [value_size dumps]. lia.
  - destruct f as [ s | [ | ] | | s m e ]; try (simpl; lia);
      cbn [value_size dumps floatstr];
      match goal with
      | |- context [ float_repr ?x ] =>
          pose proof (scan_number_nonempty _ _
                        (Hfloats x (or_introl eq_refl) "" end_of_text))
      end; lia.
  - simpl. lia.
  - assert (H : Forall (fun v => 2 * value_size v
                                 <= S (String.length (dumps float_repr v))) items).
    { rewrite Forall_forall in *. intros v Hv. apply IH; [ exact Hv | ].
      intros f Hf. apply Hfloats. cbn [repr_floats]. apply in_flat_map. eauto. }
    apply (join_length (dumps float_repr) value_size) in H.
    change (dumps float_repr (PyList items))
      with ("[" ++ join ", " (map (dumps float_repr) items) ++ "]").
    cbn [value_size]. rewrite !length_append. cbn [String.length].
    destruct items; [ simpl; lia | cbn [List.length] in H; lia ].
  - assert (H : Forall (fun e => 2 * value_size (snd e)
                                 <= S (String.length (entry_text float_repr e))) entries).
    { rewrite Forall_forall in *. intros e He.
      unfold entry_text. rewrite !length_append.
      assert (2 * value_size (snd e) <= S (String.length (dumps float_repr (snd e)))).
      { apply IH; [ exact He | ].
        intros f Hf. apply Hfloats. cbn [repr_floats]. apply in_flat_map. eauto. }
      lia. }
    apply (join_length (entry_text float_repr) (fun e => value_size (snd e))) in H.
    change (dumps float_repr (PyDict entries))
      with ("{" ++ join ", " (map (entry_text float_repr) entries) ++ "}").
    cbn [value_size]. rewrite !length_append. cbn [String.length].
    destruct entries; [ simpl; lia | cbn [List.length] in H; lia ].
Qed.

(** [json.loads] reads the text that [json.dumps] writes for [v] back as
    [v]. *)
Lemma loads_dumps v :
  unique_keys v = true ->
  (forall f, In f (repr_floats v) -> reads_back float_repr f) ->
  loads (dumps float_repr v) = Some v.
Proof.
  intros Hkeys Hfloats. unfold loads.
  pose proof (scan_once_dumps v Hkeys Hfloats) as Hscan.
  assert (Hstart : value_start (dumps float_repr v)).
  { rewrite <- (append_nil_r (dumps float_repr v)).
    eapply scan_once_start. apply (Hscan (2 * value_size v)); [ lia | constructor ]. }
  rewrite (skip_ws_start _ Hstart).
  rewrite <- (append_nil_r (dumps float_repr v)) at 2.
  rewrite Hscan; [ reflexivity | | constructor ].
  pose proof (dumps_length v Hfloats). lia.
Qed.

End JsonRoundTrip.

(** *** The fuel of the decoder *)

Section JsonFuel.
Import Json.

Lemma skip_ws_length s : String.length (skip_ws s) <= String.length s.
Proof.
  induction s as [ | c s IH ]; cbn [skip_ws]; [ lia | ].
  destruct (is_ws c); cbn [String.length]; lia.
Qed.

Lemma expect_length c s r : expect c s = Some r -> String.length s = S (String.length r).
Proof.
  destruct s as [ | a s ]; cbn [expect]; [ discriminate | ].
  destruct (Ascii.eqb a c); [ | discriminate ]. now intros [= ->].
Qed.

Lemma strip_prefix_length l s r :
  Re.strip_prefix l s = Some r -> String.length s = String.length l + String.length r.
Proof.
  intros H. apply strip_prefix_Some in H. subst. apply length_append.
Qed.

Lemma cons_char_length c o str r n :
  cons_char c o = Some (str, r) ->
  (forall str' r', o = Some (str', r') -> String.length r' < n) ->
  String.length r < n.
Proof.
  destruct o as [ [str' r'] | ]; cbn [cons_char]; [ | discriminate ].
  intros [= <- <-] H. now apply (H str' r').
Qed.

Lemma scanstring_length s str r :
  scanstring s = Some (str, r) -> String.length r < String.length s.
Proof.
  enough (H : forall n s, String.length s <= n ->
              forall str r, scanstring s = Some (str, r) ->
                            String.length r < String.length s)
    by (apply (H (String.length s)); lia).
  clear s str r. induction n as [ | n IH ]; intros s Hle str r.
  { destruct s; [ discriminate | simpl in Hle; lia ]. }
  destruct s as [ | c s ]; [ discriminate | ].
  cbn [String.length] in *. cbn [scanstring].
  destruct (Ascii.eqb c quote); [ intros [= <- <-]; lia | ].
  destruct (Ascii.eqb c backslash).
  - destruct s as [ | e s ]; [ discriminate | ].
    assert (Hplain : match unescape e with
                     | Some c' => cons_char c' (scanstring s)
                     | None => None
                     end = Some (str, r) ->
                     String.length r < S (S (String.length s))).
    { destruct (unescape e); [ | discriminate ]. intros H.
      eapply cons_char_length; [ exact H | ].
      intros str' r' Hs. apply IH in Hs; cbn [String.length] in *; lia. }
    destruct e as [[] [] [] [] [] [] [] []]; try exact Hplain.
    destruct s as [ | h1 [ | h2 [ | h3 [ | h4 s ] ] ] ]; try exact Hplain.
    destruct (hex4 h1 h2 h3 h4) as [ code | ]; [ | discriminate ].
    destruct (code <? 256)%N; [ | discriminate ]. intros H.
    eapply cons_char_length; [ exact H | ].
    intros str' r' Hs. apply IH in Hs; cbn [String.length] in *; lia.
  - destruct (N_of_ascii c <? 32)%N; [ discriminate | ]. intros H.
    eapply cons_char_length; [ exact H | ].
    intros str' r' Hs. apply IH in Hs; lia.
Qed.

Lemma span_digits_length s :
  String.length (snd (span_digits s)) <= String.length s.
Proof.
  induction s as [ | c s IH ]; cbn [span_digits]; [ simpl; lia | ].
  destruct (is_digit c); [ | simpl; lia ].
  destruct (span_digits s) as [ds r]. cbn [snd String.length] in *. lia.
Qed.

Lemma scan_unsigned_length s ds r :
  scan_unsigned s = Some (ds, r) -> String.length r < String.length s.
Proof.
  destruct s as [ | c s ]; [ discriminate | ].
  assert (Hdigits : (if is_digit c then Some (span_digits (String c s)) else None)
                    = Some (ds, r) ->
                    String.length r < String.length (String c s)).
  { destruct (is_digit c) eqn:Hc; [ | discriminate ].
    cbn [span_digits]. rewrite Hc.
    pose proof (span_digits_length s).
    destruct (span_digits s) as [ds' r']. intros [= <- <-].
    cbn [snd String.length] in *. lia. }
  destruct c as [[] [] [] [] [] [] [] []]; try exact Hdigits.
  cbn [scan_unsigned]. intros [= <- <-]. cbn [String.length]. lia.
Qed.

Lemma scan_integer_length s ds r :
  scan_integer s = Some (ds, r) -> String.length r < String.length s.
Proof.
  destruct s as [ | c s ]; [ discriminate | ].
  destruct c as [[] [] [] [] [] [] [] []];
    try (apply scan_unsigned_length).
  cbn [scan_integer].
  destruct (scan_unsigned s) as [ [ds' r'] | ] eqn:E; [ | discriminate ].
  intros [= <- <-]. apply scan_unsigned_length in E. cbn [String.length]. lia.
Qed.

Lemma scan_frac_length s : String.length (snd (scan_frac s)) <= String.length s.
Proof.
  destruct s as [ | c s ]; [ simpl; lia | ].
  destruct c as [[] [] [] [] [] [] [] []]; try (simpl; lia).
  cbn [scan_frac]. pose proof (span_digits_length s).
  destruct (span_digits s) as [ [ | d ds ] r ]; cbn [snd String.length] in *; lia.
Qed.

Lemma scan_exp_length s : String.length (snd (scan_exp s)) <= String.length s.
Proof.
  destruct s as [ | e s ]; [ simpl; lia | ]. cbn [scan_exp].
  destruct (Ascii.eqb e "e" || Ascii.eqb e "E"); [ | simpl; lia ].
  destruct s as [ | c s' ]; [ simpl; lia | ].
  destruct c as [[] [] [] [] [] [] [] []];
    match goal with
    | |- context [ span_digits ?t ] =>
        pose proof (span_digits_length t);
        destruct (span_digits t) as [ [ | ? ? ] ? ];
        cbn [snd String.length] in *; lia
    end.
Qed.

Lemma scan_number_length s v r :
  scan_number s = Some (v, r) -> String.length r < String.length s.
Proof.
  unfold scan_number.
  destruct (scan_integer s) as [ [integer s1] | ] eqn:E; [ | discriminate ].
  apply scan_integer_length in E.
  pose proof (scan_frac_length s1). destruct (scan_frac s1) as [frac s2].
  pose proof (scan_exp_length s2). destruct (scan_exp s2) as [exp s3].
  cbn [snd] in *.
  destruct frac; [ destruct exp | ]; intros [= <- <-]; lia.
Qed.

(** More fuel does not change a result. *)
Lemma scan_more_fuel fuel :
  (forall fuel' s res, fuel <= fuel' ->
     scan_once fuel s = Some res -> scan_once fuel' s = Some res)
  /\ (forall fuel' s res, fuel <= fuel' ->
        array_items fuel s = Some res -> array_items fuel' s = Some res)
  /\ (forall fuel' s res, fuel <= fuel' ->
        object_items fuel s = Some res -> object_items fuel' s = Some res).
Proof.
  induction fuel as [ | fuel (IHv & IHa & IHo) ];
    [ repeat split; intros; discriminate | ].
  repeat split; intros [ | fuel' ] s res Hle; try lia;
    assert (Hle' : fuel <= fuel') by lia.
  - cbn [scan_once]. destruct s as [ | c s' ]; [ discriminate | ].
    destruct (Ascii.eqb c quote); [ trivial | ].
    destruct (Ascii.eqb c "{").
    { destruct (expect "}" (skip_ws s')); [ trivial | ].
      destruct (object_items fuel (skip_ws s')) as [ p | ] eqn:E; [ | discriminate ].
      now rewrite (IHo _ _ _ Hle' E). }
    destruct (Ascii.eqb c "[").
    { destruct (expect "]" (skip_ws s')); [ trivial | ].
      destruct (array_items fuel (skip_ws s')) as [ p | ] eqn:E; [ | discriminate ].
      now rewrite (IHa _ _ _ Hle' E). }
    trivial.
  - cbn [array_items].
    destruct (scan_once fuel s) as [ [v r] | ] eqn:E; [ | discriminate ].
    rewrite (IHv _ _ _ Hle' E).
    destruct (expect "]" (skip_ws r)); [ trivial | ].
    destruct (expect "," (skip_ws r)) as [ r' | ]; [ | discriminate ].
    destruct (array_items fuel (skip_ws r')) as [ p | ] eqn:E'; [ | discriminate ].
    now rewrite (IHa _ _ _ Hle' E').
  - cbn [object_items].
    destruct (expect quote s) as [ s' | ]; [ | discriminate ].
    destruct (scanstring s') as [ [key r] | ]; [ | discriminate ].
    destruct (expect ":" (skip_ws r)) as [ r' | ]; [ | discriminate ].
    destruct (scan_once fuel (skip_ws r')) as [ [v r''] | ] eqn:E; [ | discriminate ].
    rewrite (IHv _ _ _ Hle' E).
    destruct (expect "}" (skip_ws r'')); [ trivial | ].
    destruct (expect "," (skip_ws r'')) as [ r3 | ]; [ | discriminate ].
    destruct (object_items fuel (skip_ws r3)) as [ p | ] eqn:E'; [ | discriminate ].
    now rewrite (IHo _ _ _ Hle' E').
Qed.

Lemma scan_once_more fuel fuel' s res :
  scan_once fuel s = Some res -> fuel <= fuel' -> scan_once fuel' s = Some res.
Proof. intros H Hle. exact (proj1 (scan_more_fuel fuel) fuel' s res Hle H). Qed.

Lemma array_items_more fuel fuel' s res :
  array_items fuel s = Some res -> fuel <= fuel' -> array_items fuel' s = Some res.
Proof. intros H Hle. exact (proj1 (proj2 (scan_more_fuel fuel)) fuel' s res Hle H). Qed.

Lemma object_items_more fuel fuel' s res :
  object_items fuel s = Some res -> fuel <= fuel' -> object_items fuel' s = Some res.
Proof. intros H Hle. exact (proj2 (proj2 (scan_more_fuel fuel)) fuel' s res Hle H). Qed.

(** A result takes no more fuel than the number of characters it reads. *)
Lemma scan_fuel_read fuel :
  (forall s v r, scan_once fuel s = Some (v, r) ->
     String.length r < String.length s
     /\ scan_once (String.length s - String.length r) s = Some (v, r))
  /\ (forall s vs r, array_items fuel s = Some (vs, r) ->
        String.length r < String.length s
        /\ array_items (String.length s - String.length r) s = Some (vs, r))
  /\ (forall s ps r, object_items fuel s = Some (ps, r) ->
        String.length r < String.length s
        /\ object_items (String.length s - String.length r) s = Some (ps, r)).
Proof.
  induction fuel as [ | fuel (IHv & IHa & IHo) ];
    [ repeat split; intros; discriminate | ].
  assert (Hshape : forall A (f : nat -> string -> option A) s r res,
            String.length r < String.length s ->
            (forall k, String.length s - String.length r = S k ->
                       f (S k) s = Some res) ->
            String.length r < String.length s
            /\ f (String.length s - String.length r) s = Some res).
  { intros A f s r res Hlt Hk. split; [ exact Hlt | ].
    destruct (String.length s - String.length r) as [ | k ] eqn:E; [ lia | ].
    now apply Hk. }
  split; [ | split ].
  - intros s v r. cbn [scan_once]. destruct s as [ | c s' ]; [ discriminate | ].
    intros H. apply Hshape.
    + cbn [String.length].
      destruct (Ascii.eqb c quote).
      { destruct (scanstring s') as [ [str r0] | ] eqn:E; [ | discriminate ].
        injection H as <- <-. apply scanstring_length in E. lia. }
      destruct (Ascii.eqb c "{").
      { pose proof (skip_ws_length s').
        destruct (expect "}" (skip_ws s')) as [ r0 | ] eqn:E.
        - injection H as <- <-. apply expect_length in E. lia.
        - destruct (object_items fuel (skip_ws s')) as [ [ps r0] | ] eqn:E';
            [ | discriminate ].
          injection H as <- <-. apply IHo in E'. lia. }
      destruct (Ascii.eqb c "[").
      { pose proof (skip_ws_length s').
        destruct (expect "]" (skip_ws s')) as [ r0 | ] eqn:E.
        - injection H as <- <-. apply expect_length in E. lia.
        - destruct (array_items fuel (skip_ws s')) as [ [vs r0] | ] eqn:E';
            [ | discriminate ].
          injection H as <- <-. apply IHa in E'. lia. }
      destruct (Re.strip_prefix "null" (String c s')) eqn:E1;
        [ injection H as <- <-; apply strip_prefix_length in E1;
          cbn [String.length] in E1; lia | ].
      destruct (Re.strip_prefix "true" (String c s')) eqn:E2;
        [ injection H as <- <-; apply strip_prefix_length in E2;
          cbn [String.length] in E2; lia | ].
      destruct (Re.strip_prefix "false" (String c s')) eqn:E3;
        [ injection H as <- <-; apply strip_prefix_length in E3;
          cbn [String.length] in E3; lia | ].
      destruct (scan_number (String c s')) as [ [w r0] | ] eqn:E4;
        [ injection H as <- <-; apply scan_number_length in E4;
          cbn [String.length] in E4; lia | ].
      destruct (Re.strip_prefix "NaN" (String c s')) eqn:E5;
        [ injection H as <- <-; apply strip_prefix_length in E5;
          cbn [String.length] in E5; lia | ].
      destruct (Re.strip_prefix "Infinity" (String c s')) eqn:E6;
        [ injection H as <- <-; apply strip_prefix_length in E6;
          cbn [String.length] in E6; lia | ].
      destruct (Re.strip_prefix "-Infinity" (String c s')) eqn:E7;
        [ injection H as <- <-; apply strip_prefix_length in E7;
          cbn [String.length] in E7; lia | discriminate ].
    + intros k Hk. cbn [scan_once String.length] in *.
      destruct (Ascii.eqb c quote); [ exact H | ].
      destruct (Ascii.eqb c "{").
      { pose proof (skip_ws_length s').
        destruct (expect "}" (skip_ws s')); [ exact H | ].
        destruct (object_items fuel (skip_ws s')) as [ [ps r0] | ] eqn:E';
          [ | discriminate ].
        injection H as <- <-. apply IHo in E' as [Hlt E'].
        rewrite (object_items_more _ k _ _ E') by lia.
        reflexivity. }
      destruct (Ascii.eqb c "[").
      { pose proof (skip_ws_length s').
        destruct (expect "]" (skip_ws s')); [ exact H | ].
        destruct (array_items fuel (skip_ws s')) as [ [vs r0] | ] eqn:E';
          [ | discriminate ].
        injection H as <- <-. apply IHa in E' as [Hlt E'].
        rewrite (array_items_more _ k _ _ E') by lia.
        reflexivity. }
      exact H.
  - intros s vs r. cbn [array_items].
    destruct (scan_once fuel s) as [ [v r1] | ] eqn:E; [ | discriminate ].
    apply IHv in E as [Hlt1 E].
    pose proof (skip_ws_length r1).
    destruct (expect "]" (skip_ws r1)) as [ r' | ] eqn:Eclose.
    + intros [= <- <-]. pose proof (expect_length _ _ _ Eclose).
      apply Hshape; [ lia | ]. intros k Hk. cbn [array_items].
      rewrite (scan_once_more _ k _ _ E) by lia.
      now rewrite Eclose.
    + destruct (expect "," (skip_ws r1)) as [ r' | ] eqn:Ecomma; [ | discriminate ].
      pose proof (expect_length _ _ _ Ecomma). pose proof (skip_ws_length r').
      destruct (array_items fuel (skip_ws r')) as [ [vs' r''] | ] eqn:E';
        [ | discriminate ].
      apply IHa in E' as [Hlt2 E']. intros [= <- <-].
      apply Hshape; [ lia | ]. intros k Hk. cbn [array_items].
      rewrite (scan_once_more _ k _ _ E) by lia.
      rewrite Eclose, Ecomma.
      rewrite (array_items_more _ k _ _ E') by lia.
      reflexivity.
  - intros s ps r. cbn [object_items].
    destruct (expect quote s) as [ s' | ] eqn:Equote; [ | discriminate ].
    pose proof (expect_length _ _ _ Equote).
    destruct (scanstring s') as [ [key r0] | ] eqn:Ekey; [ | discriminate ].
    pose proof (scanstring_length _ _ _ Ekey). pose proof (skip_ws_length r0).
    destruct (expect ":" (skip_ws r0)) as [ r' | ] eqn:Ecolon; [ | discriminate ].
    pose proof (expect_length _ _ _ Ecolon). pose proof (skip_ws_length r').
    destruct (scan_once fuel (skip_ws r')) as [ [v r1] | ] eqn:E; [ | discriminate ].
    apply IHv in E as [Hlt1 E]. pose proof (skip_ws_length r1).
    destruct (expect "}" (skip_ws r1)) as [ r3 | ] eqn:Eclose.
    + intros [= <- <-]. pose proof (expect_length _ _ _ Eclose).
      apply Hshape; [ lia | ]. intros k Hk. cbn [object_items].
      rewrite Equote, Ekey, Ecolon.
      rewrite (scan_once_more _ k _ _ E) by lia.
      now rewrite Eclose.
    + destruct (expect "," (skip_ws r1)) as [ r3 | ] eqn:Ecomma; [ | discriminate ].
      pose proof (expect_length _ _ _ Ecomma). pose proof (skip_ws_length r3).
      destruct (object_items fuel (skip_ws r3)) as [ [ps' r4] | ] eqn:E';
        [ | discriminate ].
      apply IHo in E' as [Hlt2 E']. intros [= <- <-].
      apply Hshape; [ lia | ]. intros k Hk. cbn [object_items].
      rewrite Equote, Ekey, Ecolon.
      rewrite (scan_once_more _ k _ _ E) by lia.
      rewrite Eclose, Ecomma.
      rewrite (object_items_more _ k _ _ E') by lia.
      reflexivity.
Qed.

(** [loads] does not fail for want of fuel: a text that some fuel decodes
    to the end is decoded by [loads]. *)
Lemma loads_enough_fuel s fuel v r :
  scan_once fuel (skip_ws s) = Some (v, r) ->
  skip_ws r = EmptyString ->
  loads s = Some v.
Proof.
  intros H Hr. unfold loads.
  apply (proj1 (scan_fuel_read fuel)) in H as [Hlt H].
  rewrite (scan_once_more _ (S (String.length (skip_ws s))) _ _ H) by lia.
  now rewrite Hr.
Qed.

End JsonFuel.


(** *** Instances *)

(** C1: a document with known top-level keys only and no clause, one whose
    only clause type is [bool], and, with a schema, one whose only clause
    type is [match], are all invalid. *)
Lemma known_keys_and_clause_types_not_sufficient :
  unknown_top_level_keys [("size", PyInt (-1))] = []
  /\ validate Json.loads Json.error_text SetOrder.insertion_order None
       (PyDict [("size", PyInt (-1))])
     = Return (false, Some "'size' must be a non-negative integer")
  /\ unknown_top_level_keys [("query", PyDict [("bool", PyInt 5)])] = []
  /\ str_in "bool" VALID_QUERY_TYPES = true
  /\ validate Json.loads Json.error_text SetOrder.insertion_order None
       (PyDict [("query", PyDict [("bool", PyInt 5)])])
     = Return (false, Some "'bool' query must be a JSON object")
  /\ str_in "match" VALID_QUERY_TYPES = true
  /\ validate Json.loads Json.error_text SetOrder.insertion_order
       (Some (PyDict [("properties",
                       PyDict [("title", PyDict [("type", PyStr "text")])])]))
       (PyDict [("query", PyDict [("match", PyDict [("body", PyStr "x")])])])
     = Return (false, Some "Unknown fields in query: body").
Proof.
  repeat split; reflexivity.
Qed.

Lemma well_formed_document_valid_witness :
  validate Json.loads Json.error_text SetOrder.insertion_order (Some (PyDict []))
    (PyDict
       [("from", PyInt 0); ("size", PyBool true);
        ("query",
         PyDict
           [("bool",
             PyDict
               [("must", PyList [PyDict [("match_all", PyDict [])];
                                 PyDict [("term", PyDict [("tag", PyStr "a")])]]);
                ("filter",
                 PyDict
                   [("nested",
                     PyDict [("path", PyStr "user");
                             ("query", PyDict [("exists", PyDict [("field", PyStr "user.id")])])])]);
                ("boost", PyFloat (S754_zero false))])])])
  = Return (true, None).
Proof.
  apply well_formed_document_valid; reflexivity.
Defined.


(** C4: the text holds two objects; the span from the first opening brace
    to the brace that matches it is [{"a":1}], which parses; the brace scan
    takes the span up to the last closing brace, and [recover] raises. *)
Lemma brace_scan_spans_several_objects :
  let text := "x {" ++ Json.quoted "a" ++ ":1} y {" ++ Json.quoted "b" ++ ":2} z" in
  let span := "{" ++ Json.quoted "a" ++ ":1} y {" ++ Json.quoted "b" ++ ":2}" in
  Json.loads text = None
  /\ Re.search QueryUtils.fenced_block_pattern text = None
  /\ QueryUtils.balanced_brace_span text = Some ("{" ++ Json.quoted "a" ++ ":1}")
  /\ Json.loads ("{" ++ Json.quoted "a" ++ ":1}") = Some (PyDict [("a", PyInt 1)])
  /\ option_map Re.group_1 (Re.search QueryUtils.json_object_pattern text) = Some span
  /\ QueryUtils.parse_query_string Json.loads Json.error_text text
     = Raise (ValueError ("Invalid JSON query string: " ++ Json.error_text span)).
Proof.
  repeat split; reflexivity.
Qed.

Lemma brace_scan_first_open_to_last_close_witness :
  Re.search QueryUtils.json_object_pattern
    ("Sure! " ++ "{" ++ (Json.quoted "a" ++ ":1") ++ "}" ++ " done.")
  = Some (Re.Way ("{" ++ (Json.quoted "a" ++ ":1") ++ "}")
                 (Some ("{" ++ (Json.quoted "a" ++ ":1") ++ "}")) " done.")
  /\ QueryUtils.parse_query_string Json.loads Json.error_text
       ("Sure! " ++ "{" ++ (Json.quoted "a" ++ ":1") ++ "}" ++ " done.")
     = QueryUtils.parsed Json.loads Json.error_text
         ("{" ++ (Json.quoted "a" ++ ":1") ++ "}").
Proof.
  apply (brace_scan_first_open_to_last_close Json.loads Json.error_text
           "Sure! " (Json.quoted "a" ++ ":1") " done.");
    [ reflexivity | reflexivity | reflexivity | ].
  apply search_fenced_block_pattern_None. reflexivity.
Defined.

Lemma bool_sub_keys_fixed_priority_witness :
  _validate_query_structure
    (PyDict [("bool",
              PyDict [("must_not", PyList [PyDict [("unknown_clause", PyDict [])]]);
                      ("must", PyList [PyDict [("match_all", PyDict [])]])])])
  = first_sub_key_error
      [("must_not", PyList [PyDict [("unknown_clause", PyDict [])]]);
       ("must", PyList [PyDict [("match_all", PyDict [])]])]
  /\ forall body',
       Permutation
         [("must_not", PyList [PyDict [("unknown_clause", PyDict [])]]);
          ("must", PyList [PyDict [("match_all", PyDict [])]])] body' ->
       _validate_query_structure (PyDict [("bool", PyDict body')])
       = _validate_query_structure
           (PyDict [("bool",
                     PyDict [("must_not", PyList [PyDict [("unknown_clause", PyDict [])]]);
                             ("must", PyList [PyDict [("match_all", PyDict [])]])])]).
Proof.
  apply bool_sub_keys_fixed_priority; [ reflexivity | ].
  repeat constructor; simpl; intuition discriminate.
Defined.

(** The example of the specification, and the priority of [must]: its error
    is the one reported, also when [must_not] comes first in the input and
    fails too. *)
Example bool_priority_examples :
  _validate_query_structure
    (PyDict [("bool",
              PyDict [("must", PyList [PyDict [("match_all", PyDict [])]]);
                      ("must_not", PyList [PyDict [("unknown_clause", PyDict [])]])])])
  = Some "Error in 'must_not' clause: Unknown query type: unknown_clause"
  /\ _validate_query_structure
       (PyDict [("bool",
                 PyDict [("must_not", PyList [PyDict [("unknown_clause", PyDict [])]]);
                         ("must", PyList [PyDict [("match_all", PyDict [])];
                                          PyDict [("other_clause", PyDict [])]])])])
     = Some "Error in 'must' clause: Unknown query type: other_clause".
Proof.
  split; reflexivity.
Qed.

Lemma unknown_top_level_keys_all_reported_witness :
  exists msg,
    validate Json.loads Json.error_text SetOrder.insertion_order None
      (PyDict [("query", PyDict [("match_all", PyDict [])]);
               ("limit", PyInt 5); ("size", PyInt 5); ("order", PyStr "asc")])
    = Return (false, Some msg)
    /\ msg = "Unknown top-level keys: "
             ++ join ", "
                  (unknown_top_level_keys
                     [("query", PyDict [("match_all", PyDict [])]);
                      ("limit", PyInt 5); ("size", PyInt 5); ("order", PyStr "asc")])
    /\ forall k',
         In k' (keys [("query", PyDict [("match_all", PyDict [])]);
                      ("limit", PyInt 5); ("size", PyInt 5); ("order", PyStr "asc")]) ->
         str_in k' VALID_TOP_LEVEL_KEYS = false ->
         occurs_in k' msg.
Proof.
  apply (unknown_top_level_keys_all_reported Json.loads Json.error_text
           SetOrder.insertion_order None _ "limit");
    [ simpl; auto | reflexivity ].
Defined.



Lemma match_all_match_none_accepted_witness :
  _validate_query_structure
    (PyDict [("match_none", PyNone); ("boost", PyInt 2)]) = None
  /\ validate Json.loads Json.error_text SetOrder.insertion_order None
       (PyDict [("query", PyDict [("match_none", PyNone); ("boost", PyInt 2)])])
     = Return (true, None).
Proof.
  apply match_all_match_none_accepted; [ now right | now right ].
Defined.


(* ================================================================== *)
(** ** Further properties                                              *)
(* ================================================================== *)

Import Shape Fence.

(** *** Outcomes of [validate] *)

Section ValidatorBehaviour.

Variable json_loads : string -> option value.
Variable json_error : string -> string.
Variable set_iter : list string -> list string.

Lemma truthy_str_true e :
  truthy_str e = true -> exists msg, e = Some msg /\ msg <> "".
Proof.
  destruct e as [ [ | c s ] | ]; cbn; try discriminate.
  intros _. eexists. split; [ reflexivity | discriminate ].
Qed.

(** The two kinds of outcome of [validate]. *)
Lemma validate_outcome_cases mapping query is_valid error :
  validate json_loads json_error set_iter mapping query = Return (is_valid, error) ->
  (is_valid = true /\ error = None)
  \/ (is_valid = false /\ exists msg, error = Some msg /\ msg <> "").
Proof.
  unfold validate.
  destruct (match query with
            | PyStr s => match json_loads s with
                         | Some v => inr v
                         | None => inl (json_error s)
                         end
            | _ => inr query
            end) as [ e | document ].
  { intros [= <- <-]. right. split; [ reflexivity | ].
    eexists. split; [ reflexivity | discriminate ]. }
  destruct document as [ | | | | | | query_dict ];
    try (intros [= <- <-]; right; split; [ reflexivity | ];
         eexists; split; [ reflexivity | discriminate ]).
  destruct (truthy_str (_validate_top_level_structure query_dict)) eqn:Htop.
  { intros [= <- <-]. right. split; [ reflexivity | now apply truthy_str_true ]. }
  destruct (truthy_str (match dict_get "query" query_dict with
                        | Some q => _validate_query_structure q
                        | None => None
                        end)) eqn:Hquery.
  { intros [= <- <-]. right. split; [ reflexivity | now apply truthy_str_true ]. }
  destruct mapping as [ m | ]; [ | intros [= <- <-]; now left ].
  destruct (truthy m); [ | intros [= <- <-]; now left ].
  destruct (_validate_against_mapping set_iter (Some m) query_dict)
    as [ mapping_errors | e ]; cbn [bind]; [ | discriminate ].
  destruct (truthy_str mapping_errors) eqn:Hmapping.
  - intros [= <- <-]. right. split; [ reflexivity | now apply truthy_str_true ].
  - intros [= <- <-]. now left.
Qed.

(** X1.  Whatever [validate] returns, its flag and its message agree: the
    outcome is valid exactly when it carries no message, and a message is
    never the empty string. *)
Theorem validate_flag_and_message_agree mapping query is_valid error :
  validate json_loads json_error set_iter mapping query = Return (is_valid, error) ->
  (is_valid = true <-> error = None) /\ error <> Some "".
Proof.
  intros H.
  destruct (validate_outcome_cases _ _ _ _ H)
    as [ [-> ->] | [-> (msg & -> & Hmsg)] ].
  - split; [ tauto | discriminate ].
  - split; [ split; discriminate | congruence ].
Qed.

(** X2.  A schema only adds rejections: what [validate] rejects without a
    schema it rejects, with the same message, under every schema (which is
    not consulted, malformed or not); what it accepts under a schema it
    accepts without one. *)
Theorem schema_only_adds_rejections mapping query :
  (forall error,
      validate json_loads json_error set_iter None query = Return (false, error) ->
      validate json_loads json_error set_iter mapping query = Return (false, error))
  /\ (forall error,
         validate json_loads json_error set_iter mapping query = Return (true, error) ->
         validate json_loads json_error set_iter None query = Return (true, None)).
Proof.
  unfold validate.
  destruct (match query with
            | PyStr s => match json_loads s with
                         | Some v => inr v
                         | None => inl (json_error s)
                         end
            | _ => inr query
            end) as [ e | document ].
  { split; [ auto | discriminate ]. }
  destruct document as [ | | | | | | query_dict ];
    try (split; [ auto | discriminate ]).
  destruct (truthy_str (_validate_top_level_structure query_dict)).
  { split; [ auto | discriminate ]. }
  destruct (truthy_str _).
  { split; [ auto | discriminate ]. }
  split; [ discriminate | reflexivity ].
Qed.

End ValidatorBehaviour.

Lemma for_each_returns {A S} (body : A -> S -> result S) l :
  (forall x s, In x l -> exists s', body x s = Return s') ->
  forall s, exists s', for_each body l s = Return s'.
Proof.
  induction l as [ | x l IH ]; intros Hbody s; cbn [for_each].
  - eexists. reflexivity.
  - destruct (Hbody x s (or_introl eq_refl)) as (s' & ->).
    apply IH. intros y t Hy. apply Hbody. now right.
Qed.

Lemma bind_returns {A B} (m : result A) (k : A -> result B) :
  (exists a, m = Return a) -> (forall a, exists b, k a = Return b) ->
  exists b, bind m k = Return b.
Proof. intros (a & ->) Hk. apply Hk. Qed.

Lemma mapping_extract_fields_returns obj :
  properties_are_objects obj = true ->
  forall prefix field_names,
    exists names, mapping_extract_fields prefix obj field_names = Return names.
Proof.
  remember (value_size obj) as n eqn:Hn.
  assert (Hle : value_size obj <= n) by lia. clear Hn.
  revert obj Hle.
  induction n as [ | n IH ]; intros obj Hle Hshape prefix field_names.
  { destruct obj; simpl in Hle; lia. }
  destruct obj as [ | | | | | | entries ]; try (eexists; reflexivity).
  cbn [properties_are_objects] in Hshape. rewrite forallb_forall in Hshape.
  cbn [mapping_extract_fields]. rewrite dict_get_with_spec.
  assert (Hrest : forall acc, exists names,
             for_each
               (fun '(key, value) field_names =>
                  if negb (key =? "properties") && is_dict value
                  then mapping_extract_fields
                         (if prefix =? "" then key ++ "." else prefix ++ key ++ ".")
                         value field_names
                  else Return field_names)
               entries acc = Return names).
  { apply for_each_returns. intros [key value] acc Hin.
    destruct (negb (key =? "properties") && is_dict value);
      [ | eexists; reflexivity ].
    apply IH.
    - pose proof (value_size_entry key value entries Hin). lia.
    - specialize (Hshape _ Hin). cbn [fst snd] in Hshape.
      now apply andb_prop in Hshape as [_ Hshape]. }
  destruct (dict_get "properties" entries) as [ properties | ] eqn:Hget;
    cbn [option_map]; [ | cbn [bind]; apply Hrest ].
  apply dict_get_In in Hget.
  pose proof (value_size_entry _ _ _ Hget) as Hsize.
  specialize (Hshape _ Hget). cbn [fst snd] in Hshape.
  change ("properties" =? "properties") with true in Hshape. cbn iota in Hshape.
  apply andb_prop in Hshape as [Hfields Hproperties].
  destruct properties as [ | | | | | | fields ]; try discriminate.
  cbn [properties_are_objects] in Hproperties.
  rewrite forallb_forall in Hfields, Hproperties.
  apply bind_returns; [ | intros acc; apply Hrest ].
  apply for_each_returns. intros [field_name field_def] acc Hin.
  pose proof (Hfields _ Hin) as Hdict. cbn [snd] in Hdict.
  destruct field_def as [ | | | | | | def_entries ]; try discriminate.
  assert (Hdef : forall p a, exists names,
             mapping_extract_fields p (PyDict def_entries) a = Return names).
  { intros p a. apply IH.
    - pose proof (value_size_entry _ _ _ Hin). lia.
    - specialize (Hproperties _ Hin). cbn [fst snd] in Hproperties.
      now apply andb_prop in Hproperties as [_ Hproperties]. }
  cbv zeta.
  destruct (_ && _); [ apply Hdef | ].
  destruct (has_key "properties" def_entries); [ apply Hdef | ].
  eexists. reflexivity.
Qed.

Lemma for_each_add_multi_match_field fields :
  forallb is_str fields = true ->
  forall field_names,
    exists names, for_each add_multi_match_field fields field_names = Return names.
Proof.
  intros Hstr. apply for_each_returns. intros field acc Hin.
  rewrite forallb_forall in Hstr. specialize (Hstr _ Hin).
  destruct field; try discriminate. eexists. reflexivity.
Qed.

Lemma query_extract_fields_returns obj :
  multi_match_fields_are_strings obj = true ->
  forall field_names,
    exists names, query_extract_fields obj field_names = Return names.
Proof.
  remember (value_size obj) as n eqn:Hn.
  assert (Hle : value_size obj <= n) by lia. clear Hn.
  revert obj Hle.
  induction n as [ | n IH ]; intros obj Hle Hshape field_names.
  { destruct obj; simpl in Hle; lia. }
  destruct obj as [ | | | | | | entries ]; try (eexists; reflexivity).
  cbn [multi_match_fields_are_strings] in Hshape. rewrite forallb_forall in Hshape.
  cbn [query_extract_fields].
  apply for_each_returns. intros [key value] acc Hin.
  pose proof (value_size_entry _ _ _ Hin) as Hsize.
  specialize (Hshape _ Hin). cbn [fst snd] in Hshape.
  apply andb_prop in Hshape as [Hfields Hvalue].
  destruct (str_in key field_query_keys).
  { destruct value; eexists; reflexivity. }
  destruct value as [ | | | | | items | d ]; try (eexists; reflexivity).
  - apply for_each_returns. intros item acc' Hitem.
    destruct (is_dict item || is_list item); [ | eexists; reflexivity ].
    apply IH.
    + pose proof (value_size_item _ _ Hitem). lia.
    + cbn [multi_match_fields_are_strings] in Hvalue.
      rewrite forallb_forall in Hvalue. now apply Hvalue.
  - destruct ((key =? "multi_match") && has_key "fields" d) eqn:Hmm.
    + apply andb_prop in Hmm as [Hkey _]. rewrite Hkey in Hfields.
      destruct (dict_get "fields" d) as [ [ | | | | | fields | ] | ];
        try (eexists; reflexivity).
      now apply for_each_add_multi_match_field.
    + apply IH; [ lia | exact Hvalue ].
Qed.

Section ValidatorTotality.

Variable json_loads : string -> option value.
Variable json_error : string -> string.
Variable set_iter : list string -> list string.

Lemma validate_document_returns m document :
  properties_are_objects m = true ->
  multi_match_fields_are_strings (PyDict document) = true ->
  exists outcome,
    validate json_loads json_error set_iter (Some m) (PyDict document) = Return outcome.
Proof.
  intros Hm Hq.
  destruct (mapping_extract_fields_returns m Hm "" []) as (known & Hknown).
  destruct (query_extract_fields_returns (PyDict document) Hq []) as (names & Hnames).
  assert (Hagainst : exists errors,
             _validate_against_mapping set_iter (Some m) document = Return errors).
  { unfold _validate_against_mapping.
    destruct (negb (truthy m)); [ eexists; reflexivity | ].
    unfold _extract_field_names_from_mapping, _extract_field_names_from_query.
    rewrite Hknown, Hnames. cbn [bind].
    destruct (filter _ _); eexists; reflexivity. }
  destruct Hagainst as (errors & Hagainst).
  cbn [validate].
  destruct (truthy_str (_validate_top_level_structure document));
    [ eexists; reflexivity | ].
  destruct (truthy_str _); [ eexists; reflexivity | ].
  destruct (truthy m); [ | eexists; reflexivity ].
  rewrite Hagainst. cbn [bind].
  destruct (truthy_str errors); eexists; reflexivity.
Qed.


End ValidatorTotality.

Lemma for_each_raises {A S} (P : exn -> Prop) (body : A -> S -> result S) l :
  (forall x s e, In x l -> body x s = Raise e -> P e) ->
  forall s e, for_each body l s = Raise e -> P e.
Proof.
  induction l as [ | x l IH ]; intros Hbody s e; cbn [for_each]; [ discriminate | ].
  destruct (body x s) as [ s' | e' ] eqn:E.
  - apply IH. intros y t e0 Hy. apply Hbody. now right.
  - intros [= <-]. eapply Hbody; [ now left | exact E ].
Qed.

Lemma bind_raises {A B} (P : exn -> Prop) (m : result A) (k : A -> result B) e :
  (forall e', m = Raise e' -> P e') ->
  (forall a e', k a = Raise e' -> P e') ->
  bind m k = Raise e -> P e.
Proof.
  intros Hm Hk. destruct m as [ a | e' ]; cbn [bind].
  - apply Hk.
  - intros [= <-]. now apply Hm.
Qed.

Lemma mapping_extract_fields_raises obj :
  forall prefix field_names e,
    mapping_extract_fields prefix obj field_names = Raise e -> e = AttributeError.
Proof.
  remember (value_size obj) as n eqn:Hn.
  assert (Hle : value_size obj <= n) by lia. clear Hn.
  revert obj Hle.
  induction n as [ | n IH ]; intros obj Hle prefix field_names e.
  { destruct obj; simpl in Hle; lia. }
  destruct obj as [ | | | | | | entries ]; try discriminate.
  cbn [mapping_extract_fields]. rewrite dict_get_with_spec.
  apply bind_raises with (P := fun e => e = AttributeError).
  - destruct (dict_get "properties" entries) as [ properties | ] eqn:Hget;
      cbn [option_map]; [ | discriminate ].
    apply dict_get_In in Hget. pose proof (value_size_entry _ _ _ Hget) as Hsize.
    destruct properties as [ | | | | | | fields ];
      try (intros e' [= <-]; reflexivity).
    apply for_each_raises. intros [field_name field_def] acc e' Hin.
    destruct field_def as [ | | | | | | def_entries ];
      try (intros [= <-]; reflexivity).
    assert (Hdef : value_size (PyDict def_entries) <= n).
    { pose proof (value_size_entry _ _ _ Hin). lia. }
    cbv zeta. destruct (_ && _); [ now apply IH | ].
    destruct (has_key "properties" def_entries); [ now apply IH | discriminate ].
  - intros acc. apply for_each_raises. intros [key value] acc' e' Hin.
    destruct (negb (key =? "properties") && is_dict value); [ | discriminate ].
    apply IH. pose proof (value_size_entry _ _ _ Hin). lia.
Qed.

Lemma add_multi_match_field_raises field field_names e :
  add_multi_match_field field field_names = Raise e ->
  e = AttributeError \/ e = TypeError.
Proof.
  destruct field; cbn [add_multi_match_field];
    try (intros [= <-]; now right); try discriminate.
  - destruct (existsb _ items); intros [= <-]; auto.
  - destruct (has_key "^" entries); intros [= <-]; auto.
Qed.

Lemma query_extract_fields_raises obj :
  forall field_names e,
    query_extract_fields obj field_names = Raise e ->
    e = AttributeError \/ e = TypeError.
Proof.
  remember (value_size obj) as n eqn:Hn.
  assert (Hle : value_size obj <= n) by lia. clear Hn.
  revert obj Hle.
  induction n as [ | n IH ]; intros obj Hle field_names e.
  { destruct obj; simpl in Hle; lia. }
  destruct obj as [ | | | | | | entries ]; try discriminate.
  cbn [query_extract_fields].
  apply (for_each_raises (fun e => e = AttributeError \/ e = TypeError)). intros [key value] acc e' Hin.
  pose proof (value_size_entry _ _ _ Hin) as Hsize.
  destruct (str_in key field_query_keys).
  { destruct value; discriminate. }
  destruct value as [ | | | | | items | d ]; try discriminate.
  - apply (for_each_raises (fun e => e = AttributeError \/ e = TypeError)). intros item acc' e'' Hitem.
    destruct (is_dict item || is_list item); [ | discriminate ].
    apply IH. pose proof (value_size_item _ _ Hitem). lia.
  - destruct ((key =? "multi_match") && has_key "fields" d).
    + destruct (dict_get "fields" d) as [ [ | | | | | fields | ] | ];
        try discriminate.
      apply (for_each_raises (fun e => e = AttributeError \/ e = TypeError)). intros field acc' e''  _.
      apply add_multi_match_field_raises.
    + apply IH. lia.
Qed.

Section ValidatorExceptions.

Variable json_loads : string -> option value.
Variable json_error : string -> string.
Variable set_iter : list string -> list string.


End ValidatorExceptions.

(** *** The names of a schema and of a query *)

Lemma bind_ext {A B} (m : result A) (k k' : A -> result B) :
  (forall a, k a = k' a) -> bind m k = bind m k'.
Proof. intros H. destruct m; cbn [bind]; [ apply H | reflexivity ]. Qed.

Lemma map_append_nil (names : list string) : map (append "") names = names.
Proof.
  induction names as [ | x names IH ]; cbn [map]; [ reflexivity | now rewrite IH ].
Qed.

(** A loop whose body adds names to the set, the names depending on a
    prefix only through being formed with it. *)
Lemma for_each_prefixed {A} (body : string -> A -> list string -> result (list string)) l :
  (forall p x acc, In x l ->
     body p x acc = bind (body "" x []) (fun n => Return (acc ++ map (append p) n)%list)) ->
  forall p acc,
    for_each (body p) l acc
    = bind (for_each (body "") l []) (fun n => Return (acc ++ map (append p) n)%list).
Proof.
  induction l as [ | x l IH ]; intros Hbody p acc; cbn [for_each].
  - cbn [bind map]. now rewrite app_nil_r.
  - rewrite (Hbody p x acc (or_introl eq_refl)).
    destruct (body "" x []) as [ n | e ]; cbn [bind]; [ | reflexivity ].
    assert (Hl : forall q a,
               for_each (body q) l a
               = bind (for_each (body "") l []) (fun n => Return (a ++ map (append q) n)%list)).
    { apply IH. intros q y a Hy. apply Hbody. now right. }
    rewrite (Hl p), (Hl "" n).
    destruct (for_each (body "") l []) as [ n' | e ]; cbn [bind]; [ | reflexivity ].
    now rewrite map_append_nil, map_app, app_assoc.
Qed.

Lemma prefix_or_name (prefix name : string) :
  (if prefix =? "" then name else prefix ++ name) = prefix ++ name.
Proof. destruct prefix; reflexivity. Qed.

Lemma mapping_extract_fields_prefixed obj :
  forall prefix field_names,
    mapping_extract_fields prefix obj field_names
    = bind (mapping_extract_fields "" obj [])
        (fun names => Return (field_names ++ map (append prefix) names)%list).
Proof.
  remember (value_size obj) as n eqn:Hn.
  assert (Hle : value_size obj <= n) by lia. clear Hn.
  revert obj Hle.
  induction n as [ | n IH ]; intros obj Hle prefix field_names.
  { destruct obj; simpl in Hle; lia. }
  destruct obj as [ | | | | | | entries ];
    try (cbn [mapping_extract_fields bind map]; now rewrite app_nil_r).
  pose (bodyA := fun (p : string) '(field_name, field_def) (acc : list string) =>
          let full_name := if p =? "" then field_name else p ++ field_name in
          let acc := (acc ++ [full_name])%list in
          match field_def with
          | PyDict def_entries =>
              if (match dict_get "type" def_entries with
                  | Some (PyStr t) => t =? "nested"
                  | _ => false
                  end)
                 && has_key "properties" def_entries
              then mapping_extract_fields (full_name ++ ".") field_def acc
              else if has_key "properties" def_entries
              then mapping_extract_fields (full_name ++ ".") field_def acc
              else Return acc
          | _ => Raise AttributeError
          end).
  pose (stageA := fun (p : string) (acc : list string) =>
          match dict_get "properties" entries with
          | Some (PyDict items) => for_each (bodyA p) items acc
          | Some _ => Raise AttributeError
          | None => Return acc
          end).
  pose (bodyB := fun (p : string) '(key, value) (acc : list string) =>
          if negb (key =? "properties") && is_dict value
          then mapping_extract_fields
                 (if p =? "" then key ++ "." else p ++ key ++ ".") value acc
          else Return acc).
  assert (Hunfold : forall p acc,
             mapping_extract_fields p (PyDict entries) acc
             = bind (stageA p acc) (fun a => for_each (bodyB p) entries a)).
  { intros p acc. cbn [mapping_extract_fields]. rewrite dict_get_with_spec.
    unfold stageA. destruct (dict_get "properties" entries) as [ [ ] | ]; reflexivity. }
  assert (HstageA : forall p acc,
             stageA p acc
             = bind (stageA "" []) (fun n => Return (acc ++ map (append p) n)%list)).
  { intros p acc. unfold stageA.
    destruct (dict_get "properties" entries) as [ properties | ] eqn:Hget;
      [ | cbn [bind map]; now rewrite app_nil_r ].
    destruct properties as [ | | | | | | items ]; try reflexivity.
    apply dict_get_In in Hget. pose proof (value_size_entry _ _ _ Hget) as Hsize.
    revert p acc. apply for_each_prefixed.
    intros p [field_name field_def] acc Hin. unfold bodyA.
    destruct field_def as [ | | | | | | def_entries ]; try reflexivity.
    assert (Hdef : value_size (PyDict def_entries) <= n).
    { pose proof (value_size_entry _ _ _ Hin). lia. }
    rewrite prefix_or_name. change ("" =? "") with true. cbv iota zeta.
    assert (Hrec : mapping_extract_fields ((p ++ field_name) ++ ".")
                     (PyDict def_entries) (acc ++ [p ++ field_name])
                   = bind (mapping_extract_fields (field_name ++ ".")
                             (PyDict def_entries) ([] ++ [field_name]))
                       (fun n => Return (acc ++ map (append p) n)%list)).
    { rewrite (IH _ Hdef ((p ++ field_name) ++ ".")),
              (IH _ Hdef (field_name ++ ".")).
      destruct (mapping_extract_fields "" (PyDict def_entries) []) as [ names | e ];
        cbn [bind]; [ | reflexivity ].
      cbn [app map]. rewrite map_map, <- app_assoc. cbn [app].
      do 3 f_equal. apply map_ext. intros x. now rewrite !append_assoc. }
    destruct (_ && _); [ exact Hrec | ].
    destruct (has_key "properties" def_entries); [ exact Hrec | ].
    reflexivity. }
  assert (HB : forall p acc,
             for_each (bodyB p) entries acc
             = bind (for_each (bodyB "") entries [])
                 (fun n => Return (acc ++ map (append p) n)%list)).
  { apply for_each_prefixed. intros p [key value] acc Hin. unfold bodyB.
    destruct (negb (key =? "properties") && is_dict value);
      [ | cbn [bind map]; now rewrite app_nil_r ].
    assert (Hvalue : value_size value <= n).
    { pose proof (value_size_entry _ _ _ Hin). lia. }
    rewrite (prefix_or_name p (key ++ ".")). change ("" =? "") with true. cbv iota.
    rewrite (IH _ Hvalue (p ++ key ++ ".")), (IH _ Hvalue (key ++ ".")).
    destruct (mapping_extract_fields "" value []) as [ names | e ];
      cbn [bind]; [ | reflexivity ].
    cbn [app]. rewrite map_map. do 2 f_equal. apply map_ext. intros x.
    now rewrite !append_assoc. }
  rewrite (Hunfold prefix), (Hunfold ""), HstageA.
  destruct (stageA "" []) as [ a0 | e ]; cbn [bind]; [ | reflexivity ].
  rewrite (HB prefix), (HB "" a0).
  destruct (for_each (bodyB "") entries []) as [ names | e ]; cbn [bind];
    [ | reflexivity ].
  now rewrite map_append_nil, map_app, app_assoc.
Qed.

Lemma str_in_In k l : str_in k l = true <-> In k l.
Proof.
  unfold str_in. rewrite existsb_exists. split.
  - intros (x & Hx & E). apply String.eqb_eq in E. now subst.
  - intros H. exists k. split; [ exact H | apply String.eqb_refl ].
Qed.

Lemma bind_return_r {A} (m : result A) : bind m (fun a => Return a) = m.
Proof. destruct m; reflexivity. Qed.

(** X5.  The names of a schema that is held under one key other than
    [properties] (as the answer of [get_mapping] holds the mappings of an
    index under the name of the index) are the names of the inner schema,
    each with the key and a dot in front. *)
Theorem wrapped_mapping_names_are_qualified key sub :
  key <> "properties" ->
  _extract_field_names_from_mapping (PyDict [(key, PyDict sub)])
  = bind (_extract_field_names_from_mapping (PyDict sub))
      (fun names => Return (map (append (key ++ ".")) names)).
Proof.
  intros Hkey. unfold _extract_field_names_from_mapping.
  remember (PyDict sub) as m eqn:Hm.
  assert (Hdict : is_dict m = true) by now subst.
  cbn [mapping_extract_fields dict_get_with for_each].
  apply String.eqb_neq in Hkey. rewrite Hkey, Hdict.
  cbn [bind negb andb]. change ("" =? "") with true. cbv iota.
  rewrite (mapping_extract_fields_prefixed m (key ++ ".") []).
  destruct (mapping_extract_fields "" m []); reflexivity.
Qed.

Lemma properties_cons name def fields acc :
  mapping_extract_fields "" (PyDict [("properties", PyDict ((name, def) :: fields))]) acc
  = bind (match def with
          | PyDict d =>
              if has_key "properties" d
              then mapping_extract_fields (name ++ ".") def (acc ++ [name])
              else Return (acc ++ [name])%list
          | _ => Raise AttributeError
          end)
      (fun a => mapping_extract_fields "" (PyDict [("properties", PyDict fields)]) a).
Proof.
  cbn [mapping_extract_fields dict_get_with].
  change ("properties" =? "properties") with true. cbv iota.
  cbn [for_each negb andb]. change ("" =? "") with true. cbv iota.
  change (negb ("properties" =? "properties")) with false. cbn [andb].
  destruct def as [ | | | | | | d ]; try reflexivity.
  destruct (has_key "properties" d); rewrite ?andb_true_r, ?andb_false_r.
  - match goal with
    | |- context [ if ?c then ?x else ?x ] =>
        replace (if c then x else x) with x by (destruct c; reflexivity)
    end.
    destruct (mapping_extract_fields (name ++ ".") (PyDict d) (acc ++ [name]));
      reflexivity.
  - reflexivity.
Qed.

(** X6.  The names of a [properties] object are read field by field: the
    name of the first field; then, when its definition has [properties], the
    names of the definition, each with the field name and a dot in front;
    then the names of the remaining fields.  An exception of either part is
    that of the whole. *)
Theorem properties_names_field_by_field name def fields :
  _extract_field_names_from_mapping
    (PyDict [("properties", PyDict ((name, PyDict def) :: fields))])
  = bind (if has_key "properties" def
          then _extract_field_names_from_mapping (PyDict def)
          else Return [])
      (fun inner =>
         bind (_extract_field_names_from_mapping
                 (PyDict [("properties", PyDict fields)]))
           (fun others =>
              Return (name :: map (append (name ++ ".")) inner ++ others)%list)).
Proof.
  unfold _extract_field_names_from_mapping.
  rewrite properties_cons. cbv beta iota. cbn [app].
  assert (Hrest : forall acc,
             mapping_extract_fields "" (PyDict [("properties", PyDict fields)]) acc
             = bind (mapping_extract_fields "" (PyDict [("properties", PyDict fields)]) [])
                 (fun others => Return (acc ++ others)%list)).
  { intros acc. rewrite mapping_extract_fields_prefixed. apply bind_ext.
    intros others. now rewrite map_append_nil. }
  assert (Hinner : mapping_extract_fields (name ++ ".") (PyDict def) [name]
                   = bind (mapping_extract_fields "" (PyDict def) [])
                       (fun inner => Return (name :: map (append (name ++ ".")) inner))).
  { now rewrite mapping_extract_fields_prefixed. }
  destruct (has_key "properties" def).
  - rewrite Hinner.
    destruct (mapping_extract_fields "" (PyDict def) []) as [ inner | e ];
      cbn [bind]; [ | reflexivity ].
    rewrite Hrest.
    destruct (mapping_extract_fields "" _ []) as [ others | e ]; reflexivity.
  - cbn [bind map]. rewrite Hrest.
    destruct (mapping_extract_fields "" _ []) as [ others | e ]; reflexivity.
Qed.

Section Conformance.

Variable json_loads : string -> option value.
Variable json_error : string -> string.
Variable set_iter : list string -> list string.

(** X7.  Under a schema, a structurally valid document is valid exactly
    when every field name it references is a name of the schema (the set of
    referenced names being iterated in any order). *)
Theorem valid_under_schema_iff_fields_known m document known names :
  truthy m = true ->
  _validate_top_level_structure document = None ->
  match dict_get "query" document with
  | Some q => _validate_query_structure q
  | None => None
  end = None ->
  _extract_field_names_from_mapping m = Return known ->
  _extract_field_names_from_query (PyDict document) = Return names ->
  (forall name, In name (set_iter names) <-> In name names) ->
  validate json_loads json_error set_iter (Some m) (PyDict document)
  = Return (true, None)
  <-> (forall name, In name names -> In name known).
Proof.
  intros Hm Htop Hquery Hknown Hnames Hiter.
  unfold validate. rewrite Htop. cbn [truthy_str]. rewrite Hquery. cbn [truthy_str].
  rewrite Hm. unfold _validate_against_mapping. rewrite Hm. cbn [negb].
  rewrite Hknown, Hnames. cbn [bind].
  destruct (filter _ (set_iter names)) as [ | u us ] eqn:Hu.
  - cbn [truthy_str]. split; [ intros _ | reflexivity ].
    intros name Hin. apply Hiter in Hin.
    destruct (str_in name known) eqn:E; [ now apply str_in_In | ].
    assert (Hf : In name (filter (fun field => negb (str_in field known))
                                 (set_iter names))).
    { apply filter_In. split; [ exact Hin | now rewrite E ]. }
    rewrite Hu in Hf. contradiction.
  - cbn [truthy_str String.eqb negb]. split; [ discriminate | ].
    intros Hall. exfalso.
    assert (Hf : In u (filter (fun field => negb (str_in field known))
                              (set_iter names)))
      by (rewrite Hu; now left).
    apply filter_In in Hf as [Hin Hf]. apply Hiter, Hall, str_in_In in Hin.
    now rewrite Hin in Hf.
Qed.

(** X8.  The body of a clause whose type is known and is neither [bool]
    nor [nested] is not inspected: the clause is accepted whatever the body
    and the other keys are, also for the compound types [dis_max],
    [function_score], [has_child] and the like. *)
Theorem leaf_clause_body_not_inspected clause_type body others :
  str_in clause_type VALID_QUERY_TYPES = true ->
  clause_type <> "bool" -> clause_type <> "nested" ->
  _validate_query_structure (PyDict ((clause_type, body) :: others)) = None
  /\ validate json_loads json_error set_iter None
       (PyDict [("query", PyDict ((clause_type, body) :: others))])
     = Return (true, None).
Proof.
  intros Htype Hbool Hnested.
  assert (H : _validate_query_structure (PyDict ((clause_type, body) :: others)) = None).
  { cbn [_validate_query_structure]. rewrite Htype. cbn [negb].
    apply String.eqb_neq in Hbool, Hnested. rewrite Hbool, Hnested.
    destruct (_ && _); reflexivity. }
  split; [ exact H | ].
  unfold validate. cbn [_validate_top_level_structure keys map fst filter str_in existsb].
  change (negb (("query" =? "query") || _)) with false.
  cbn [dict_get]. change ("query" =? "size") with false.
  change ("query" =? "from") with false. cbn [or_else truthy_str].
  change ("query" =? "query") with true. cbv iota. rewrite H. reflexivity.
Qed.

End Conformance.

Lemma str_contains_caret s : str_contains "^" s = mentions "^" s.
Proof.
  induction s as [ | a s IH ]; [ reflexivity | ].
  cbn [str_contains mentions String.prefix].
  destruct (Ascii.ascii_dec "^" a) as [ <- | Hne ].
  - rewrite Ascii.eqb_refl. destruct s; reflexivity.
  - rewrite (proj2 (Ascii.eqb_neq a "^")) by congruence. cbn [orb]. exact IH.
Qed.

Lemma mentions_app c a b : mentions c (a ++ b) = mentions c a || mentions c b.
Proof.
  induction a as [ | x a IH ]; [ reflexivity | ].
  cbn [append mentions]. now rewrite IH, orb_assoc.
Qed.

Lemma before_char_app c name tail :
  mentions c name = false -> before_char c (name ++ String c tail) = name.
Proof.
  induction name as [ | x name IH ]; cbn [append mentions before_char].
  - intros _. now rewrite Ascii.eqb_refl.
  - intros H. apply orb_false_elim in H as [Hx Hname]. rewrite Hx.
    now rewrite IH.
Qed.

Lemma add_boosted spec field_names :
  mentions "^" (fst spec) = false ->
  add_multi_match_field (boosted spec) field_names
  = Return (field_names ++ [fst spec])%list.
Proof.
  destruct spec as [name [ boost | ]]; cbn [fst snd boosted add_multi_match_field];
    intros Hname; rewrite str_contains_caret.
  - rewrite mentions_app. cbn [append mentions]. rewrite Ascii.eqb_refl.
    rewrite orb_true_r. now rewrite before_char_app.
  - now rewrite Hname.
Qed.

Lemma dict_get_has_key k d v : dict_get k d = Some v -> has_key k d = true.
Proof.
  intros H. apply dict_get_In in H. apply str_in_In.
  unfold keys. apply in_map_iff. exists (k, v). auto.
Qed.

(** X9.  The names taken from the [fields] of a [multi_match] are the
    field names without their boosts: [title^2] counts as [title]. *)
Theorem multi_match_boosts_are_stripped d specs :
  dict_get "fields" d = Some (PyList (map boosted specs)) ->
  Forall (fun spec => mentions "^" (fst spec) = false) specs ->
  _extract_field_names_from_query (PyDict [("multi_match", PyDict d)])
  = Return (map fst specs).
Proof.
  intros Hfields Hnames. unfold _extract_field_names_from_query.
  cbn [query_extract_fields for_each].
  change (str_in "multi_match" field_query_keys) with false. cbv iota.
  change ("multi_match" =? "multi_match") with true.
  rewrite (dict_get_has_key _ _ _ Hfields), Hfields. cbn [andb].
  assert (Hloop : forall acc,
             for_each add_multi_match_field (map boosted specs) acc
             = Return (acc ++ map fst specs)%list).
  { clear Hfields.
    induction Hnames as [ | spec specs Hspec _ IH ]; intros acc; cbn [map for_each].
    - now rewrite app_nil_r.
    - rewrite (add_boosted _ _ Hspec), IH, <- app_assoc. reflexivity. }
  now rewrite Hloop.
Qed.

Section ExistsClause.

Variable json_loads : string -> option value.
Variable json_error : string -> string.
Variable set_iter : list string -> list string.

(** X10.  The names taken from a field-bearing clause are the keys of its
    body, so that an [exists] clause, [{"exists": {"field": name}}], is
    checked against the schema under the name [field], whatever [name] is:
    the document is valid exactly when the schema has a field called
    [field]. *)
Theorem exists_clause_checked_under_the_key_field m known target :
  truthy m = true ->
  _extract_field_names_from_mapping m = Return known ->
  set_iter ["field"] = ["field"] ->
  validate json_loads json_error set_iter (Some m)
    (PyDict [("query", PyDict [("exists", PyDict [("field", target)])])])
  = if str_in "field" known
    then Return (true, None)
    else Return (false, Some "Unknown fields in query: field").
Proof.
  intros Hm Hknown Hiter. unfold validate.
  change (_validate_top_level_structure _) with (@None string).
  cbn [truthy_str dict_get]. change ("query" =? "query") with true. cbv iota.
  change (_validate_query_structure _) with (@None string). cbn [truthy_str].
  rewrite Hm. unfold _validate_against_mapping. rewrite Hm, Hknown. cbn [negb bind].
  change (_extract_field_names_from_query _) with (Return ["field"]).
  cbn [bind]. rewrite Hiter. cbn [filter].
  destruct (str_in "field" known); reflexivity.
Qed.

End ExistsClause.

(** *** The top-level checks *)

Section TopLevel.

Lemma paging_error_iff key (msg : string) document :
  match dict_get key document with
  | Some v => if negb (is_int v) || int_negative v then Some msg else None
  | None => None
  end = None
  <-> paging_ok key document = true.
Proof.
  unfold paging_ok. destruct (dict_get key document) as [ v | ]; [ | tauto ].
  destruct v; cbn; try (split; [ discriminate | discriminate ]); try tauto.
  destruct (Z.ltb_spec n 0), (Z.leb_spec 0 n); try lia;
    split; congruence.
Qed.

(** X11.  [_validate_top_level_structure] reports no error exactly when
    every key is a top-level key and [size] and [from], when present, are
    non-negative integers ([True] and [False] included). *)
Theorem top_level_structure_accepted_iff document :
  _validate_top_level_structure document = None
  <-> unknown_top_level_keys document = []
      /\ paging_ok "size" document = true
      /\ paging_ok "from" document = true.
Proof.
  unfold _validate_top_level_structure. fold (unknown_top_level_keys document).
  destruct (unknown_top_level_keys document) as [ | k ks ].
  - rewrite <- (paging_error_iff "size" "'size' must be a non-negative integer"),
            <- (paging_error_iff "from" "'from' must be a non-negative integer").
    unfold or_else.
    destruct (match dict_get "size" document with
              | Some v => _
              | None => None
              end); [ | tauto ].
    split; [ discriminate | ]. intros (_ & H & _). discriminate.
  - split; [ discriminate | ]. intros (H & _). discriminate.
Qed.

End TopLevel.

(** *** Indented JSON texts *)

Section NumberBefore.
Import Json.

Variable rest : string.
Hypothesis Hdigits : span_digits rest = (EmptyString, rest).
Hypothesis Hfrac : scan_frac rest = (EmptyString, rest).
Hypothesis Hexp : scan_exp rest = (EmptyString, rest).

Lemma span_digits_uint_before d :
  span_digits (DecimalString.NilEmpty.string_of_uint d ++ rest)
  = (DecimalString.NilEmpty.string_of_uint d, rest).
Proof.
  induction d; cbn [DecimalString.NilEmpty.string_of_uint append span_digits];
    [ exact Hdigits | .. ];
    change (is_digit _) with true; cbn iota; now rewrite IHd.
Qed.

Lemma scan_unsigned_pos_before p :
  scan_unsigned (DecimalString.NilEmpty.string_of_uint (Pos.to_uint p) ++ rest)
  = Some (DecimalString.NilEmpty.string_of_uint (Pos.to_uint p), rest)
  /\ scan_integer (DecimalString.NilEmpty.string_of_uint (Pos.to_uint p) ++ rest)
     = scan_unsigned (DecimalString.NilEmpty.string_of_uint (Pos.to_uint p) ++ rest)
  /\ int_of_lexeme (DecimalString.NilEmpty.string_of_uint (Pos.to_uint p)) = Zpos p
  /\ DecimalString.NilZero.string_of_uint (Pos.to_uint p)
     = DecimalString.NilEmpty.string_of_uint (Pos.to_uint p).
Proof.
  pose proof (to_uint_head p) as Hhead.
  pose proof (span_digits_uint_before (Pos.to_uint p)) as Hspan.
  pose proof (nat_of_digits_uint (Pos.to_uint p)) as Hval.
  rewrite of_uint_to_uint in Hval.
  destruct (Pos.to_uint p) as [ | d | d | d | d | d | d | d | d | d | d ];
    try contradiction;
    cbn [DecimalString.NilEmpty.string_of_uint append] in *;
    (repeat split; [ unfold scan_unsigned; change (is_digit _) with true;
                     cbn iota; now rewrite Hspan | exact Hval ]).
Qed.

Lemma scan_number_int_before n :
  scan_number (DecimalString.NilZero.string_of_int (Z.to_int n) ++ rest)
  = Some (PyInt n, rest).
Proof.
  unfold scan_number.
  destruct n as [ | p | p ]; cbn [Z.to_int DecimalString.NilZero.string_of_int].
  - cbn [DecimalString.NilZero.string_of_uint Pos.to_uint N.to_uint
         DecimalString.NilEmpty.string_of_uint append scan_integer scan_unsigned].
    rewrite Hfrac, Hexp. reflexivity.
  - destruct (scan_unsigned_pos_before p) as (Hscan & Hint & Hval & ->).
    rewrite Hint, Hscan, Hfrac, Hexp. now rewrite Hval.
  - destruct (scan_unsigned_pos_before p) as (Hscan & Hint & Hval & ->).
    cbn [append scan_integer]. rewrite Hscan, Hfrac, Hexp.
    unfold int_of_lexeme. unfold int_of_lexeme in Hval.
    pose proof (to_uint_head p) as Hhead.
    destruct (Pos.to_uint p) as [ | d | d | d | d | d | d | d | d | d | d ];
      try contradiction;
      cbn [DecimalString.NilEmpty.string_of_uint] in *; now rewrite Hval.
Qed.

End NumberBefore.

Section IndentRoundTrip.
Import Json JsonIndent.

Variable float_repr : spec_float -> string.
Variable _indent : string.
Hypothesis indent_is_white_space : forall s, skip_ws (_indent ++ s) = skip_ws s.

Lemma skip_ws_replicate level s :
  skip_ws (replicate level _indent ++ s) = skip_ws s.
Proof.
  induction level as [ | level IH ]; cbn [replicate append]; [ reflexivity | ].
  now rewrite append_assoc, indent_is_white_space.
Qed.

Lemma skip_ws_newline_indent level s :
  skip_ws (newline_indent _indent level ++ s) = skip_ws s.
Proof.
  unfold newline_indent. cbn [append skip_ws].
  change (is_ws "010") with true. cbv iota. apply skip_ws_replicate.
Qed.

Lemma value_end_indent_newline level s :
  value_end_indent (newline_indent _indent level ++ s).
Proof. unfold newline_indent. cbn [append]. constructor. Qed.

Lemma scan_number_int_indent n rest :
  value_end_indent rest ->
  scan_number (DecimalString.NilZero.string_of_int (Z.to_int n) ++ rest)
  = Some (PyInt n, rest).
Proof. intros H. apply scan_number_int_before; destruct H; reflexivity. Qed.

Lemma array_items_indent items :
  Forall (reads_value_indent float_repr _indent) items ->
  forallb unique_keys items = true ->
  (forall f, In f (flat_map repr_floats items) -> reads_back_indent float_repr f) ->
  items <> [] ->
  forall level fuel rest,
    1 + 2 * list_sum (map value_size items) <= fuel ->
    array_items fuel
      (join ("," ++ newline_indent _indent (S level))
            (map (iterencode float_repr _indent (S level)) items)
       ++ newline_indent _indent level ++ "]" ++ rest)
    = Some (items, rest).
Proof.
  induction 1 as [ | v items Hv Hitems IH ]; [ congruence | ].
  intros Hkeys Hfloats _ level fuel rest Hfuel.
  cbn [forallb] in Hkeys. apply andb_prop in Hkeys as [Hkv Hkitems].
  unfold list_sum in *. cbn [map fold_right] in Hfuel.
  destruct fuel as [ | fuel ]; [ lia | ].
  assert (Hfv : forall f, In f (repr_floats v) -> reads_back_indent float_repr f).
  { intros f Hf. apply Hfloats. cbn [flat_map]. apply in_or_app. now left. }
  assert (Hfitems : forall f, In f (flat_map repr_floats items) ->
                              reads_back_indent float_repr f).
  { intros f Hf. apply Hfloats. cbn [flat_map]. apply in_or_app. now right. }
  destruct items as [ | v' items ].
  - cbn [map join String.concat array_items].
    rewrite (Hv Hkv Hfv (S level) fuel (newline_indent _indent level ++ "]" ++ rest));
      [ | lia | apply value_end_indent_newline ].
    rewrite skip_ws_newline_indent. reflexivity.
  - assert (Hnext : array_items fuel
               (join ("," ++ newline_indent _indent (S level))
                     (map (iterencode float_repr _indent (S level)) (v' :: items))
                ++ newline_indent _indent level ++ "]" ++ rest)
             = Some (v' :: items, rest)).
    { apply IH; try assumption; [ discriminate | ].
      cbn [map fold_right] in *. pose proof (value_size_pos v). lia. }
    change (join ("," ++ newline_indent _indent (S level))
                 (map (iterencode float_repr _indent (S level)) (v :: v' :: items)))
      with (iterencode float_repr _indent (S level) v
            ++ ("," ++ newline_indent _indent (S level))
            ++ join ("," ++ newline_indent _indent (S level))
                    (map (iterencode float_repr _indent (S level)) (v' :: items))).
    rewrite !append_assoc. cbn [array_items].
    rewrite (Hv Hkv Hfv (S level) fuel); [ | lia | constructor ].
    cbn [append skip_ws is_ws Ascii.eqb Bool.eqb orb expect].
    rewrite skip_ws_newline_indent.
    assert (Hstart : value_start
              (join ("," ++ newline_indent _indent (S level))
                    (map (iterencode float_repr _indent (S level)) (v' :: items))
               ++ newline_indent _indent level ++ "]" ++ rest)).
    { destruct fuel as [ | fuel' ]; [ discriminate | ].
      cbn [array_items] in Hnext.
      destruct (scan_once fuel' _) as [ [w r] | ] eqn:E; [ | discriminate ].
      eapply scan_once_start, E. }
    cbn [append] in Hstart, Hnext.
    rewrite (skip_ws_start _ Hstart). now rewrite Hnext.
Qed.

Lemma object_items_indent entries :
  Forall (fun e => reads_value_indent float_repr _indent (snd e)) entries ->
  forallb (fun e => unique_keys (snd e)) entries = true ->
  (forall f, In f (flat_map (fun e => repr_floats (snd e)) entries) ->
             reads_back_indent float_repr f) ->
  entries <> [] ->
  forall level fuel rest,
    1 + 2 * list_sum (map (fun e => value_size (snd e)) entries) <= fuel ->
    object_items fuel
      (join ("," ++ newline_indent _indent (S level))
            (map (entry_text_indent float_repr _indent (S level)) entries)
       ++ newline_indent _indent level ++ "}" ++ rest)
    = Some (entries, rest).
Proof.
  induction 1 as [ | [k v] entries Hv Hentries IH ]; [ congruence | ].
  intros Hkeys Hfloats _ level fuel rest Hfuel.
  cbn [forallb snd] in Hkeys, Hv. apply andb_prop in Hkeys as [Hkv Hkentries].
  unfold list_sum in *. cbn [map fold_right snd] in Hfuel.
  destruct fuel as [ | fuel ]; [ lia | ].
  assert (Hfv : forall f, In f (repr_floats v) -> reads_back_indent float_repr f).
  { intros f Hf. apply Hfloats. cbn [flat_map snd]. apply in_or_app. now left. }
  assert (Hfentries : forall f,
             In f (flat_map (fun e => repr_floats (snd e)) entries) ->
             reads_back_indent float_repr f).
  { intros f Hf. apply Hfloats. cbn [flat_map]. apply in_or_app. now right. }
  assert (Hstart : forall tail, value_end_indent tail ->
             value_start (iterencode float_repr _indent (S level) v ++ tail)).
  { intros tail Htail. eapply scan_once_start.
    apply (Hv Hkv Hfv (S level) (2 * value_size v) tail); [ lia | exact Htail ]. }
  destruct entries as [ | e' entries ].
  - cbn [map join String.concat object_items].
    unfold entry_text_indent at 1, encode_basestring_ascii. cbn [fst snd].
    rewrite !append_assoc. cbn [append expect].
    change (Ascii.eqb quote quote) with true. cbv iota.
    rewrite !append_assoc. cbn [append]. rewrite scanstring_escape.
    cbn [skip_ws is_ws Ascii.eqb Bool.eqb orb expect].
    rewrite (skip_ws_start _ (Hstart _ (value_end_indent_newline level _))).
    rewrite (Hv Hkv Hfv (S level) fuel);
      [ | lia | apply value_end_indent_newline ].
    rewrite skip_ws_newline_indent. reflexivity.
  - assert (Hnext : object_items fuel
               (join ("," ++ newline_indent _indent (S level))
                     (map (entry_text_indent float_repr _indent (S level)) (e' :: entries))
                ++ newline_indent _indent level ++ "}" ++ rest)
             = Some (e' :: entries, rest)).
    { apply IH; try assumption; [ discriminate | ].
      cbn [map fold_right] in *. pose proof (value_size_pos v). lia. }
    change (join ("," ++ newline_indent _indent (S level))
                 (map (entry_text_indent float_repr _indent (S level))
                      ((k, v) :: e' :: entries)))
      with (entry_text_indent float_repr _indent (S level) (k, v)
            ++ ("," ++ newline_indent _indent (S level))
            ++ join ("," ++ newline_indent _indent (S level))
                    (map (entry_text_indent float_repr _indent (S level))
                         (e' :: entries))).
    cbn [object_items].
    unfold entry_text_indent at 1, encode_basestring_ascii. cbn [fst snd].
    rewrite !append_assoc. cbn [append expect].
    change (Ascii.eqb quote quote) with true. cbv iota.
    rewrite !append_assoc. cbn [append]. rewrite scanstring_escape.
    cbn [skip_ws is_ws Ascii.eqb Bool.eqb orb expect].
    rewrite (skip_ws_start _ (Hstart _ (indent_end_comma _))).
    rewrite (Hv Hkv Hfv (S level) fuel); [ | lia | constructor ].
    cbn [skip_ws is_ws Ascii.eqb Bool.eqb orb expect].
    rewrite skip_ws_newline_indent.
    assert (Hq : forall tail,
               skip_ws (join ("," ++ newline_indent _indent (S level))
                          (map (entry_text_indent float_repr _indent (S level))
                               (e' :: entries)) ++ tail)
               = join ("," ++ newline_indent _indent (S level))
                   (map (entry_text_indent float_repr _indent (S level))
                        (e' :: entries)) ++ tail).
    { intros tail. destruct entries; reflexivity. }
    cbn [append] in Hq, Hnext. rewrite Hq. now rewrite Hnext.
Qed.

Lemma scan_once_iterencode v : reads_value_indent float_repr _indent v.
Proof.
  induction v as [ | b | n | f | s | items IH | entries IH ] using value_ind;
    intros Hkeys Hfloats level fuel rest Hfuel Hrest;
    (destruct fuel as [ | fuel ]; [ cbn [value_size] in Hfuel; lia | ]).
  - destruct Hrest; reflexivity.
  - destruct b; destruct Hrest; reflexivity.
  - apply scan_once_number. cbn [iterencode dumps]. now apply scan_number_int_indent.
  - destruct f as [ s | [ | ] | | s m e ]; try (destruct Hrest; reflexivity);
      apply scan_once_number; cbn [iterencode dumps floatstr];
      apply Hfloats; try assumption; now left.
  - apply scan_once_string.
  - destruct items as [ | v items ]; [ destruct Hrest; reflexivity | ].
    cbn [unique_keys] in Hkeys. cbn [repr_floats] in Hfloats.
    cbn [value_size] in Hfuel.
    pose proof (array_items_indent (v :: items) IH Hkeys Hfloats
                  ltac:(discriminate) level fuel rest ltac:(lia)) as Hitems.
    change (iterencode float_repr _indent level (PyList (v :: items)))
      with ("[" ++ newline_indent _indent (S level)
            ++ join ("," ++ newline_indent _indent (S level))
                 (map (iterencode float_repr _indent (S level)) (v :: items))
            ++ newline_indent _indent level ++ "]").
    rewrite !append_assoc. cbn [append scan_once].
    change (Ascii.eqb "[" quote) with false.
    change (Ascii.eqb "[" "{") with false.
    change (Ascii.eqb "[" "[") with true. cbv iota.
    rewrite skip_ws_newline_indent.
    assert (Hstart : value_start
              (join ("," ++ newline_indent _indent (S level))
                    (map (iterencode float_repr _indent (S level)) (v :: items))
               ++ newline_indent _indent level ++ "]" ++ rest)).
    { destruct fuel as [ | fuel' ]; [ discriminate | ].
      cbn [array_items] in Hitems.
      destruct (scan_once fuel' _) as [ [w r] | ] eqn:E; [ | discriminate ].
      eapply scan_once_start, E. }
    cbn [append] in Hstart, Hitems.
    rewrite (skip_ws_start _ Hstart), (expect_bracket_start _ Hstart).
    now rewrite Hitems.
  - destruct entries as [ | e entries ]; [ destruct Hrest; reflexivity | ].
    cbn [unique_keys] in Hkeys. apply andb_prop in Hkeys as [Hdistinct Hkeys].
    cbn [repr_floats] in Hfloats. cbn [value_size] in Hfuel.
    pose proof (object_items_indent (e :: entries) IH Hkeys Hfloats
                  ltac:(discriminate) level fuel rest ltac:(lia)) as Hentries.
    change (iterencode float_repr _indent level (PyDict (e :: entries)))
      with ("{" ++ newline_indent _indent (S level)
            ++ join ("," ++ newline_indent _indent (S level))
                 (map (entry_text_indent float_repr _indent (S level)) (e :: entries))
            ++ newline_indent _indent level ++ "}").
    rewrite !append_assoc. cbn [append scan_once].
    change (Ascii.eqb "{" quote) with false.
    change (Ascii.eqb "{" "{") with true. cbv iota.
    rewrite skip_ws_newline_indent.
    assert (Hq : forall tail,
               skip_ws (join ("," ++ newline_indent _indent (S level))
                          (map (entry_text_indent float_repr _indent (S level))
                               (e :: entries)) ++ tail)
               = join ("," ++ newline_indent _indent (S level))
                   (map (entry_text_indent float_repr _indent (S level))
                        (e :: entries)) ++ tail
               /\ expect "}" (join ("," ++ newline_indent _indent (S level))
                                (map (entry_text_indent float_repr _indent (S level))
                                     (e :: entries)) ++ tail)
                  = None).
    { intros tail. destruct entries; split; reflexivity. }
    cbn [append] in Hq, Hentries.
    rewrite (proj1 (Hq _)), (proj2 (Hq _)), Hentries.
    now rewrite (dict_of_pairs_distinct _ Hdistinct).
Qed.

(** [json.loads] reads an indented text of [v] back as [v]. *)
Lemma loads_iterencode level v :
  unique_keys v = true ->
  (forall f, In f (repr_floats v) -> reads_back_indent float_repr f) ->
  loads (iterencode float_repr _indent level v) = Some v.
Proof.
  intros Hkeys Hfloats.
  pose proof (scan_once_iterencode v Hkeys Hfloats level (2 * value_size v) ""
                (Nat.le_refl _) indent_end_of_text) as Hscan.
  rewrite append_nil_r in Hscan.
  apply (loads_enough_fuel _ (2 * value_size v) v ""); [ | reflexivity ].
  now rewrite (skip_ws_start _ (scan_once_start _ _ _ Hscan)).
Qed.

End IndentRoundTrip.

Section DecodedValues.
Import Json.

Lemma str_in_keys_dict_set x k v d :
  str_in x (keys (dict_set k v d)) = str_in x (keys d) || (x =? k).
Proof.
  induction d as [ | [k' v'] d IH ]; cbn [dict_set keys map fst str_in existsb].
  - now rewrite orb_false_r.
  - destruct (String.eqb_spec k' k) as [ -> | Hne ];
      cbn [keys map fst str_in existsb].
    + destruct (x =? k); cbn [orb]; now rewrite ?orb_false_r, ?orb_true_r.
    + change (existsb (String.eqb x) (map fst (dict_set k v d)))
        with (str_in x (keys (dict_set k v d))).
      rewrite IH. unfold str_in, keys. now rewrite orb_assoc.
Qed.

Lemma distinct_dict_set k v d :
  distinct (keys d) = true -> distinct (keys (dict_set k v d)) = true.
Proof.
  induction d as [ | [k' v'] d IH ]; cbn [dict_set keys map fst distinct];
    [ reflexivity | ].
  intros H. apply andb_prop in H as [Hk' Hd].
  destruct (String.eqb_spec k' k) as [ -> | Hne ]; cbn [keys map fst distinct].
  - unfold keys in *. now rewrite Hk', Hd.
  - change (map fst (dict_set k v d)) with (keys (dict_set k v d)).
    rewrite str_in_keys_dict_set, (IH Hd).
    apply negb_true_iff in Hk'. unfold keys. rewrite Hk'.
    apply String.eqb_neq in Hne. now rewrite Hne.
Qed.

Lemma forallb_dict_set (P : value -> bool) k v d :
  P v = true -> forallb (fun e => P (snd e)) d = true ->
  forallb (fun e => P (snd e)) (dict_set k v d) = true.
Proof.
  intros Hv. induction d as [ | [k' v'] d IH ]; cbn [dict_set forallb snd].
  - now rewrite Hv.
  - intros H. apply andb_prop in H as [Hv' Hd].
    destruct (k' =? k); cbn [forallb snd].
    + now rewrite Hv, Hd.
    + now rewrite Hv', (IH Hd).
Qed.

Lemma dict_of_pairs_unique pairs :
  forallb (fun e => unique_keys (snd e)) pairs = true ->
  unique_keys (PyDict (dict_of_pairs pairs)) = true.
Proof.
  intros Hpairs. unfold dict_of_pairs.
  assert (H : forall acc,
             distinct (keys acc) = true ->
             forallb (fun e => unique_keys (snd e)) acc = true ->
             unique_keys
               (PyDict (fold_left (fun d kv => dict_set (fst kv) (snd kv) d) pairs acc))
             = true).
  { induction pairs as [ | [k v] pairs IH ]; intros acc Hd Hu; cbn [fold_left].
    - cbn [unique_keys]. now rewrite Hd, Hu.
    - cbn [forallb snd] in Hpairs. apply andb_prop in Hpairs as [Hv Hpairs].
      apply IH; [ exact Hpairs | now apply distinct_dict_set | ].
      now apply forallb_dict_set. }
  now apply H.
Qed.

Lemma scan_number_unique s v r : scan_number s = Some (v, r) -> unique_keys v = true.
Proof.
  unfold scan_number. destruct (scan_integer s) as [ [integer s1] | ]; [ | discriminate ].
  destruct (scan_frac s1) as [frac s2]. destruct (scan_exp s2) as [exp s3].
  destruct frac, exp; intros [= <- <-]; reflexivity.
Qed.

Lemma scan_unique fuel :
  (forall s v r, scan_once fuel s = Some (v, r) -> unique_keys v = true)
  /\ (forall s vs r, array_items fuel s = Some (vs, r) ->
        forallb unique_keys vs = true)
  /\ (forall s ps r, object_items fuel s = Some (ps, r) ->
        forallb (fun e => unique_keys (snd e)) ps = true).
Proof.
  induction fuel as [ | fuel (IHv & IHa & IHo) ];
    [ repeat split; intros; discriminate | ].
  split; [ | split ].
  - intros s v r. cbn [scan_once]. destruct s as [ | c s' ]; [ discriminate | ].
    destruct (Ascii.eqb c quote).
    { destruct (scanstring s') as [ [str r0] | ]; [ | discriminate ].
      intros [= <- <-]. reflexivity. }
    destruct (Ascii.eqb c "{").
    { destruct (expect "}" (skip_ws s')) as [ r0 | ].
      - intros [= <- <-]. reflexivity.
      - destruct (object_items fuel (skip_ws s')) as [ [ps r0] | ] eqn:E;
          [ | discriminate ].
        intros [= <- <-]. apply dict_of_pairs_unique. eapply IHo, E. }
    destruct (Ascii.eqb c "[").
    { destruct (expect "]" (skip_ws s')) as [ r0 | ].
      - intros [= <- <-]. reflexivity.
      - destruct (array_items fuel (skip_ws s')) as [ [vs r0] | ] eqn:E;
          [ | discriminate ].
        intros [= <- <-]. cbn [unique_keys]. eapply IHa, E. }
    destruct (Re.strip_prefix "null" (String c s')); [ intros [= <- <-]; reflexivity | ].
    destruct (Re.strip_prefix "true" (String c s')); [ intros [= <- <-]; reflexivity | ].
    destruct (Re.strip_prefix "false" (String c s')); [ intros [= <- <-]; reflexivity | ].
    destruct (scan_number (String c s')) as [ [w r0] | ] eqn:E.
    { intros [= <- <-]. eapply scan_number_unique, E. }
    destruct (Re.strip_prefix "NaN" (String c s')); [ intros [= <- <-]; reflexivity | ].
    destruct (Re.strip_prefix "Infinity" (String c s')); [ intros [= <- <-]; reflexivity | ].
    destruct (Re.strip_prefix "-Infinity" (String c s')); [ intros [= <- <-]; reflexivity | ].
    discriminate.
  - intros s vs r. cbn [array_items].
    destruct (scan_once fuel s) as [ [v r1] | ] eqn:E; [ | discriminate ].
    apply IHv in E.
    destruct (expect "]" (skip_ws r1)) as [ r' | ].
    + intros [= <- <-]. cbn [forallb]. now rewrite E.
    + destruct (expect "," (skip_ws r1)) as [ r' | ]; [ | discriminate ].
      destruct (array_items fuel (skip_ws r')) as [ [vs' r''] | ] eqn:E';
        [ | discriminate ].
      intros [= <- <-]. cbn [forallb]. rewrite E. eapply IHa, E'.
  - intros s ps r. cbn [object_items].
    destruct (expect quote s) as [ s' | ]; [ | discriminate ].
    destruct (scanstring s') as [ [key r0] | ]; [ | discriminate ].
    destruct (expect ":" (skip_ws r0)) as [ r' | ]; [ | discriminate ].
    destruct (scan_once fuel (skip_ws r')) as [ [v r1] | ] eqn:E; [ | discriminate ].
    apply IHv in E.
    destruct (expect "}" (skip_ws r1)) as [ r3 | ].
    + intros [= <- <-]. cbn [forallb snd]. now rewrite E.
    + destruct (expect "," (skip_ws r1)) as [ r3 | ]; [ | discriminate ].
      destruct (object_items fuel (skip_ws r3)) as [ [ps' r4] | ] eqn:E';
        [ | discriminate ].
      intros [= <- <-]. cbn [forallb snd]. rewrite E. eapply IHo, E'.
Qed.

(** The dictionaries of a decoded value have distinct keys. *)
Lemma loads_unique_keys s v : loads s = Some v -> unique_keys v = true.
Proof.
  unfold loads.
  destruct (scan_once _ (skip_ws s)) as [ [w r] | ] eqn:E; [ | discriminate ].
  destruct (skip_ws r); [ | discriminate ].
  intros [= <-]. eapply (proj1 (scan_unique _)), E.
Qed.

End DecodedValues.

Section FormatQueryProperties.
Import Json JsonIndent QueryUtils.

Variable json_error : string -> string.
Variable float_repr : spec_float -> string.

Lemma skip_ws_spaces n s : skip_ws (replicate n " " ++ s) = skip_ws s.
Proof.
  induction n as [ | n IH ]; cbn [replicate append skip_ws]; [ reflexivity | ].
  exact IH.
Qed.

Lemma loads_dumps_indent indent v :
  unique_keys v = true ->
  (forall f, In f (repr_floats v) -> reads_back_indent float_repr f) ->
  loads (dumps_indent float_repr (Some indent) v) = Some v.
Proof.
  intros Hkeys Hfloats. unfold dumps_indent.
  apply loads_iterencode; try assumption.
  intros s. apply skip_ws_spaces.
Qed.




End FormatQueryProperties.

Section ValidateText.
Import Json JsonIndent.

Variable json_error : string -> string.
Variable set_iter : list string -> list string.
Variable float_repr : spec_float -> string.


End ValidateText.

(** *** Replies with a fenced block *)

Section FencedBlock.
Import Re QueryUtils.

Lemma closing_fence_none x tail :
  ends_without_space x = true -> mentions "`" x = false ->
  matches closing_fence (x ++ tail) = [].
Proof.
  unfold closing_fence.
  induction x as [ | c x IH ]; [ discriminate | ].
  intros Hend Hno. cbn [mentions] in Hno. apply orb_false_elim in Hno as [Hc Hx].
  cbn [append]. destruct (space c) eqn:Hs.
  - rewrite matches_star_seq_cons by exact Hs.
    destruct x as [ | c' x' ].
    { cbn [ends_without_space] in Hend. now rewrite Hs in Hend. }
    rewrite (IH Hend Hx). cbn [map app].
    rewrite matches_lit_mismatch; [ reflexivity | now rewrite Ascii.eqb_sym ].
  - cbn [matches star_greedy]. rewrite Hs. cbn [map flat_map fst snd rest strip_prefix].
    rewrite Ascii.eqb_sym, Hc. reflexivity.
Qed.

Lemma closing_fence_found ws after :
  all_space ws = true ->
  exists others,
    matches closing_fence (ws ++ "```" ++ after)
    = Way (ws ++ "```") None after :: others.
Proof.
  unfold closing_fence.
  induction ws as [ | c ws IH ]; intros Hws.
  - eexists. reflexivity.
  - cbn [all_space] in Hws. apply andb_prop in Hws as [Hc Hws].
    destruct (IH Hws) as (others & Hothers).
    cbn [append]. rewrite matches_star_seq_cons by exact Hc.
    cbn [append] in Hothers. rewrite Hothers. cbn [map app push consumed group1 rest].
    eexists. reflexivity.
Qed.

Lemma closing_fence_no_group s w :
  In w (matches closing_fence s) -> group1 w = None.
Proof.
  unfold closing_fence. intros H.
  apply in_matches_seq in H as (w1 & w2 & H1 & H2 & ->). cbn [group1].
  cbn [matches] in H1, H2.
  apply in_map_iff in H1 as (m & <- & _).
  destruct (strip_prefix "```" _); [ | contradiction ].
  destruct H2 as [ <- | [] ]. reflexivity.
Qed.

Lemma flat_map_map_in {A B C} (f : A -> list B) (g : A -> list C) (h : B -> C) l :
  (forall x, In x l -> g x = map h (f x)) ->
  flat_map g l = map h (flat_map f l).
Proof.
  induction l as [ | x l IH ]; intros H; cbn [flat_map]; [ reflexivity | ].
  rewrite map_app, (H x (or_introl eq_refl)), IH; [ reflexivity | ].
  intros y Hy. apply H. now right.
Qed.

Lemma flat_map_map {A B C} (f : B -> list C) (g : A -> B) l :
  flat_map f (map g l) = flat_map (fun x => f (g x)) l.
Proof.
  induction l as [ | x l IH ]; cbn [map flat_map]; [ reflexivity | now rewrite IH ].
Qed.

(** The lazy group first tries to take nothing, then to take one more
    character. *)
Lemma matches_lazy_group_cons a s :
  matches (Seq (Group (StarLazy any)) closing_fence) (String a s)
  = (map (fun w => Way (consumed w) (Some EmptyString) (rest w))
         (matches closing_fence (String a s))
     ++ map (fun w => Way (String a (consumed w))
                          (option_map (String a) (group1 w)) (rest w))
            (matches (Seq (Group (StarLazy any)) closing_fence) s))%list.
Proof.
  cbn [matches star_lazy]. rewrite any_true.
  cbn [map flat_map fst snd consumed group1 rest]. f_equal.
  - apply map_ext_in. intros w Hw.
    apply (closing_fence_no_group (String a s)) in Hw. rewrite Hw. reflexivity.
  - rewrite !map_map. cbn [fst snd consumed rest].
    rewrite !flat_map_map.
    apply flat_map_map_in. intros m _. cbn [consumed group1 rest]. rewrite map_map.
    apply map_ext_in. intros w Hw. cbn [consumed group1 rest append].
    apply closing_fence_no_group in Hw. rewrite Hw. reflexivity.
Qed.

Lemma lazy_group_takes_body body ws after :
  mentions "`" body = false ->
  body = EmptyString \/ ends_without_space body = true ->
  all_space ws = true ->
  exists others,
    matches (Seq (Group (StarLazy any)) closing_fence)
            (body ++ ws ++ "```" ++ after)
    = Way (body ++ ws ++ "```") (Some body) after :: others.
Proof.
  intros Hno Hend Hws.
  destruct (closing_fence_found ws after Hws) as (found & Hfound).
  induction body as [ | a body IH ].
  - change ("" ++ ws ++ "```" ++ after) with (ws ++ "```" ++ after).
    change ("" ++ ws ++ "```") with (ws ++ "```").
    destruct (ws ++ "```" ++ after) as [ | c t ] eqn:E.
    { destruct ws; discriminate. }
    rewrite matches_lazy_group_cons, Hfound. cbn [map app consumed rest].
    eexists. reflexivity.
  - destruct Hend as [ Hend | Hend ]; [ discriminate | ].
    cbn [append]. rewrite matches_lazy_group_cons.
    pose proof (closing_fence_none (String a body) (ws ++ "```" ++ after) Hend Hno)
      as Hnone.
    cbn [append] in Hnone. rewrite Hnone. cbn [map app].
    cbn [mentions] in Hno. apply orb_false_elim in Hno as [_ Hno].
    destruct IH as (others & IH); [ exact Hno | | ].
    { destruct body as [ | c body ]; [ now left | right; exact Hend ]. }
    cbn [append] in IH. rewrite IH.
    cbn [map consumed group1 rest option_map]. eexists. reflexivity.
Qed.

Lemma greedy_space_takes_all r ws s w others :
  all_space ws = true -> starts_without_space s = true ->
  matches r s = w :: others ->
  exists others',
    matches (Seq (Star space) r) (ws ++ s)
    = Way (ws ++ consumed w) (group1 w) (rest w) :: others'.
Proof.
  intros Hws Hs Hr. induction ws as [ | c ws IH ].
  - destruct s as [ | a s ]; [ discriminate | ].
    cbn [starts_without_space] in Hs. apply negb_true_iff in Hs.
    cbn [append matches star_greedy]. rewrite Hs.
    cbn [map flat_map fst snd rest consumed group1]. cbn [matches] in Hr.
    rewrite Hr. cbn [map app append]. destruct (group1 w); eexists; reflexivity.
  - cbn [all_space] in Hws. apply andb_prop in Hws as [Hc Hws].
    destruct (IH Hws) as (others' & IH').
    cbn [append]. rewrite matches_star_seq_cons by exact Hc.
    rewrite IH'. cbn [map app push consumed group1 rest]. eexists. reflexivity.
Qed.

End FencedBlock.

Section FencedReply.
Import Re QueryUtils.

Lemma opt_json_taken r s w others :
  matches r s = w :: others ->
  exists others',
    matches (Seq (Opt (Lit "json")) r) ("json" ++ s)
    = Way ("json" ++ consumed w) (group1 w) (rest w) :: others'.
Proof.
  intros Hr. cbn [matches strip_prefix append Ascii.eqb Bool.eqb].
  cbn [app flat_map rest consumed group1]. rewrite Hr. cbn [map app append].
  destruct (group1 w); eexists; reflexivity.
Qed.

Lemma opt_json_absent r s w others :
  strip_prefix "json" s = None ->
  matches r s = w :: others ->
  exists others',
    matches (Seq (Opt (Lit "json")) r) s
    = Way (consumed w) (group1 w) (rest w) :: others'.
Proof.
  intros Hs Hr. cbn [matches]. rewrite Hs.
  cbn [app flat_map rest consumed group1]. rewrite Hr. cbn [map app append].
  destruct (group1 w); eexists; reflexivity.
Qed.

Lemma fence_opened r s w others :
  matches r s = w :: others ->
  exists others',
    matches (Seq (Lit "```") r) ("```" ++ s)
    = Way ("```" ++ consumed w) (group1 w) (rest w) :: others'.
Proof.
  intros Hr. cbn [matches strip_prefix append Ascii.eqb Bool.eqb].
  cbn [flat_map rest consumed group1]. rewrite Hr. cbn [map app append].
  destruct (group1 w); eexists; reflexivity.
Qed.

Lemma search_skips_to_backtick before r s :
  mentions "`" before = false ->
  search (Seq (Lit "```") r) (before ++ s) = search (Seq (Lit "```") r) s.
Proof.
  induction before as [ | c before IH ]; [ reflexivity | ].
  cbn [mentions]. intros H. apply orb_false_elim in H as [Hc Hbefore].
  cbn [append search matches strip_prefix].
  rewrite Ascii.eqb_sym, Hc. cbn [flat_map]. now apply IH.
Qed.

(** The fence pattern on a text whose first backticks open a block that
    holds [body] between white space: group 1 is [body]. *)
Lemma search_fenced_block_body before tag ws1 body ws2 after :
  mentions "`" before = false ->
  tag = "json" \/ (tag = "" /\ forall t, strip_prefix "json" (ws1 ++ body ++ t) = None) ->
  all_space ws1 = true -> all_space ws2 = true ->
  starts_without_space body = true -> ends_without_space body = true ->
  mentions "`" body = false ->
  exists block,
    search fenced_block_pattern
      (before ++ "```" ++ tag ++ ws1 ++ body ++ ws2 ++ "```" ++ after)
    = Some block
    /\ group_1 block = body.
Proof.
  intros Hbefore Htag Hws1 Hws2 Hstart Hend Hbody.
  unfold fenced_block_pattern. rewrite search_skips_to_backtick by exact Hbefore.
  destruct (lazy_group_takes_body body ws2 after Hbody (or_intror Hend) Hws2)
    as (o1 & H1).
  assert (Hs : starts_without_space (body ++ ws2 ++ "```" ++ after) = true).
  { destruct body; [ discriminate | exact Hstart ]. }
  destruct (greedy_space_takes_all _ ws1 _ _ _ Hws1 Hs H1) as (o2 & H2).
  cbn [consumed group1 rest] in H2.
  assert (H3 : exists w3 o3,
             matches (Seq (Opt (Lit "json"))
                        (Seq (Star space)
                           (Seq (Group (StarLazy any)) (Seq (Star space) (Lit "```")))))
                     (tag ++ ws1 ++ body ++ ws2 ++ "```" ++ after)
             = w3 :: o3 /\ group1 w3 = Some body).
  { destruct Htag as [ -> | [ -> Hnot ] ].
    - destruct (opt_json_taken _ _ _ _ H2) as (o3 & H3).
      eexists. exists o3. split; [ exact H3 | reflexivity ].
    - destruct (opt_json_absent _ _ _ _ (Hnot _) H2) as (o3 & H3).
      eexists. exists o3. split; [ exact H3 | reflexivity ]. }
  destruct H3 as (w3 & o3 & H3 & Hg3).
  destruct (fence_opened _ _ _ _ H3) as (o4 & H4).
  cbn [append search] in *. rewrite H4.
  eexists. split; [ reflexivity | ].
  unfold group_1. cbn [group1]. now rewrite Hg3.
Qed.

End FencedReply.

Section FencedReplyRecovered.
Import Re QueryUtils Json.

Variable json_error : string -> string.

Lemma is_ws_space c : is_ws c = true -> space c = true.
Proof.
  unfold is_ws. intros H.
  repeat (apply orb_prop in H as [ H | H ]);
    apply Ascii.eqb_eq in H; subst; reflexivity.
Qed.

Lemma scan_once_head_not_j fuel c s r :
  scan_once fuel (String c s) = Some r -> Ascii.eqb c "j" = false.
Proof.
  intros H. destruct fuel as [ | fuel ]; [ discriminate | ].
  destruct c as [[] [] [] [] [] [] [] []]; try reflexivity;
    exfalso; cbn in H; discriminate.
Qed.

Lemma loads_head_not_json text v ws tail :
  loads text = Some v -> starts_without_space text = true ->
  all_space ws = true ->
  strip_prefix "json" (ws ++ text ++ tail) = None.
Proof.
  intros Hloads Hstart Hws.
  destruct ws as [ | c ws ].
  - destruct text as [ | c text ]; [ discriminate | ].
    cbn [starts_without_space] in Hstart. apply negb_true_iff in Hstart.
    unfold loads in Hloads. cbn [skip_ws] in Hloads.
    destruct (is_ws c) eqn:Hc.
    { apply is_ws_space in Hc. congruence. }
    destruct (scan_once _ (String c text)) as [ [w r] | ] eqn:E; [ | discriminate ].
    apply scan_once_head_not_j in E.
    cbn [append strip_prefix]. now rewrite Ascii.eqb_sym, E.
  - cbn [all_space] in Hws. apply andb_prop in Hws as [Hc _].
    cbn [append strip_prefix].
    destruct (Ascii.eqb_spec "j" c) as [ <- | ]; [ discriminate | reflexivity ].
Qed.


End FencedReplyRecovered.

(** *** The field extractor of [query_utils] *)

(** The extractor of [query_utils] and that of the validator are the same
    function. *)
Lemma extract_fields_query_extract_fields obj :
  forall field_names,
    QueryUtils.extract_fields obj field_names
    = ElasticsearchQueryValidator.query_extract_fields obj field_names.
Proof. reflexivity. Qed.

Section ExtractFields.
Import Json JsonIndent QueryUtils.

Variable json_loads : string -> option value.
Variable json_error : string -> string.

(** X16.  [extract_fields_from_query] returns, for a document, the names
    that the validator's extractor collects, in the same order and with the
    same exceptions; a string is first parsed by [parse_query_string]. *)
Theorem extract_fields_from_query_agrees_with_validator query :
  extract_fields_from_query json_loads json_error query
  = bind (match query with
          | PyStr s => parse_query_string json_loads json_error s
          | _ => Return query
          end)
      ElasticsearchQueryValidator._extract_field_names_from_query.
Proof.
  unfold extract_fields_from_query,
    ElasticsearchQueryValidator._extract_field_names_from_query.
  apply bind_ext. intros query_dict. apply extract_fields_query_extract_fields.
Qed.

End ExtractFields.

Section ExtractFromText.
Import Json JsonIndent QueryUtils.

Variable json_error : string -> string.
Variable float_repr : spec_float -> string.


End ExtractFromText.

(** *** The generator and the translator *)

Section GeneratorProperties.
Import Re QueryUtils ElasticsearchQueryGenerator.

Variable json_loads : string -> option value.
Variable json_error : string -> string.
Variable json_dumps : option Z -> value -> string.

Lemma parse_content_parse_query_string what content :
  parse_content json_loads json_error what content
  = match parse_query_string json_loads json_error content with
    | Return query => inl query
    | Raise _ => inr (what ++ " query is not valid JSON: " ++ json_error content)
    end.
Proof.
  unfold parse_content, parse_query_string.
  destruct (json_loads content); [ reflexivity | ].
  destruct (search fenced_block_pattern content) as [ block | ].
  - destruct (json_loads (group_1 block)); reflexivity.
  - destruct (search json_object_pattern content) as [ span | ]; [ | reflexivity ].
    destruct (json_loads (group_1 span)); reflexivity.
Qed.

(** X18.  [generate_query], [fix_query] and [improve_query] recover the
    query from the content of the model's response as [parse_query_string]
    does: they return the value it returns, and raise an [Exception] whose
    message holds the decoding error of the whole content when it raises. *)
Theorem generator_recovers_like_parse_query_string
  translate_to_query llm_fix_query llm_improve_query
  natural_language query note mapping content :
  (translate_to_query natural_language "elasticsearch" mapping = inl content ->
   generate_query json_loads json_error translate_to_query natural_language mapping
   = match parse_query_string json_loads json_error content with
     | Return generated => Returned generated
     | Raise _ =>
         Exception ("Error generating Elasticsearch query: "
                    ++ "Generated query is not valid JSON: " ++ json_error content)
     end)
  /\ (llm_fix_query (query_str json_dumps query) "elasticsearch" note mapping
      = inl content ->
      fix_query json_loads json_error json_dumps llm_fix_query query note mapping
      = match parse_query_string json_loads json_error content with
        | Return fixed => Returned fixed
        | Raise _ =>
            Exception ("Error fixing Elasticsearch query: "
                       ++ "Fixed query is not valid JSON: " ++ json_error content)
        end)
  /\ (llm_improve_query (query_str json_dumps query) "elasticsearch" note mapping
      = inl content ->
      improve_query json_loads json_error json_dumps llm_improve_query query note mapping
      = match parse_query_string json_loads json_error content with
        | Return improved => Returned improved
        | Raise _ =>
            Exception ("Error improving Elasticsearch query: "
                       ++ "Improved query is not valid JSON: " ++ json_error content)
        end).
Proof.
  unfold generate_query, fix_query, improve_query, guarded.
  repeat split; intros ->; rewrite parse_content_parse_query_string;
    destruct (parse_query_string json_loads json_error content); reflexivity.
Qed.

End GeneratorProperties.

Section TranslatorProperties.
Import NLQueryTranslator.

Variable json_loads : string -> option value.
Variable json_error : string -> string.
Variable set_iter : list string -> list string.

(** X19.  A mapping passed to [NLQueryTranslator.validate] stays in force:
    a later call that passes none, the database supplying none, validates
    against the mapping of the earlier call. *)
Theorem schema_of_an_earlier_call_stays_in_force
  query_validator client client' query query' m :
  supplies_no_mapping client' ->
  let after := fst (validate json_loads json_error set_iter
                      query_validator client query (Some m)) in
  validate json_loads json_error set_iter after client' query' None
  = (Some m,
     ElasticsearchQueryValidator.validate json_loads json_error set_iter
       (Some m) query').
Proof.
  intros Hclient. cbn [validate fst].
  unfold validate.
  destruct client' as [ c | ]; [ | reflexivity ].
  destruct Hclient as [ -> | Hget ]; [ reflexivity | ].
  rewrite Hget. destruct (is_connected c); reflexivity.
Qed.

End TranslatorProperties.

Section FixProperties.
Import NLQueryTranslator.

Variable json_loads : string -> option value.
Variable json_error : string -> string.
Variable set_iter : list string -> list string.
Variable json_dumps : option Z -> value -> string.
Variable llm_fix_query :
  value -> string -> option string -> option value
  -> ElasticsearchQueryGenerator.llm_reply.

Lemma validation_message_kept mapping query is_valid error :
  ElasticsearchQueryValidator.validate json_loads json_error set_iter mapping query
  = Return (is_valid, error) ->
  (if negb is_valid && truthy_str error then error else None) = error.
Proof.
  intros H.
  destruct (validate_outcome_cases _ _ _ _ _ _ _ H)
    as [ [-> ->] | [-> (msg & -> & Hmsg)] ]; [ reflexivity | ].
  destruct msg; [ congruence | reflexivity ].
Qed.

(** X21.  When the caller gives no error message, [fix] asks the model to
    fix the query with exactly the message of the validator, [None] for a
    valid query (the test [if not is_valid and validation_error] drops no
    message); an exception of the validator leaves [fix] as it is, and the
    validator is replaced as by [validate]. *)
Theorem fix_passes_on_the_validation_message
  query_validator client client' query mapping :
  let m := mapping_or_fetched client mapping in
  let validated :=
    validate json_loads json_error set_iter query_validator client' query m in
  fix_ json_loads json_error set_iter json_dumps llm_fix_query
      query_validator client client' query None mapping
  = (fst validated,
     bind (snd validated)
       (fun outcome =>
          Return (ElasticsearchQueryGenerator.fix_query json_loads json_error
                    json_dumps llm_fix_query query (snd outcome) m))).
Proof.
  intros m validated. unfold fix_. fold m. fold validated. f_equal.
  unfold validated, validate. cbn [snd].
  destruct (ElasticsearchQueryValidator.validate _ _ _ _ query)
    as [ [is_valid error] | e ] eqn:E; [ | reflexivity ].
  cbn [bind fst snd]. now rewrite (validation_message_kept _ _ _ _ E).
Qed.

End FixProperties.


(** *** Instances of the further properties *)

Lemma validate_flag_and_message_agree_witness :
  (false = true <-> Some "'size' must be a non-negative integer" = None)
  /\ Some "'size' must be a non-negative integer" <> Some "".
Proof.
  apply (validate_flag_and_message_agree Json.loads Json.error_text
           SetOrder.insertion_order None (PyDict [("size", PyInt (-1))])).
  reflexivity.
Defined.


Lemma valid_under_schema_iff_fields_known_witness :
  validate Json.loads Json.error_text SetOrder.insertion_order
    (Some (PyDict [("properties",
                    PyDict [("title", PyDict [("type", PyStr "text")]);
                            ("body", PyDict [("type", PyStr "text")])])]))
    (PyDict [("query", PyDict [("match", PyDict [("title", PyStr "x")])])])
  = Return (true, None)
  <-> (forall name, In name ["title"] -> In name ["title"; "body"]).
Proof.
  apply (valid_under_schema_iff_fields_known Json.loads Json.error_text
           SetOrder.insertion_order);
    reflexivity.
Defined.

Lemma leaf_clause_body_not_inspected_witness :
  _validate_query_structure
    (PyDict [("dis_max", PyDict [("queries", PyList [PyDict [("no_such_clause", PyInt 1)]])])])
  = None
  /\ validate Json.loads Json.error_text SetOrder.insertion_order None
       (PyDict [("query",
                 PyDict [("dis_max",
                          PyDict [("queries", PyList [PyDict [("no_such_clause", PyInt 1)]])])])])
     = Return (true, None).
Proof.
  apply leaf_clause_body_not_inspected; [ reflexivity | discriminate | discriminate ].
Defined.

Lemma wrapped_mapping_names_are_qualified_witness :
  _extract_field_names_from_mapping
    (PyDict [("products",
              PyDict [("mappings",
                       PyDict [("properties",
                                PyDict [("title", PyDict [("type", PyStr "text")])])])])])
  = bind (_extract_field_names_from_mapping
            (PyDict [("mappings",
                      PyDict [("properties",
                               PyDict [("title", PyDict [("type", PyStr "text")])])])]))
      (fun names => Return (map (append ("products" ++ ".")) names)).
Proof.
  apply wrapped_mapping_names_are_qualified. discriminate.
Defined.

Lemma multi_match_boosts_are_stripped_witness :
  _extract_field_names_from_query
    (PyDict [("multi_match",
              PyDict [("query", PyStr "x");
                      ("fields", PyList (map boosted [("title", Some "2"); ("body", None)]))])])
  = Return (map fst [("title", Some "2"); ("body", @None string)]).
Proof.
  apply multi_match_boosts_are_stripped; [ reflexivity | ].
  repeat constructor.
Defined.

Lemma exists_clause_checked_under_the_key_field_witness :
  validate Json.loads Json.error_text SetOrder.insertion_order
    (Some (PyDict [("properties",
                    PyDict [("title", PyDict [("type", PyStr "text")])])]))
    (PyDict [("query", PyDict [("exists", PyDict [("field", PyStr "title")])])])
  = if str_in "field" ["title"]
    then Return (true, None)
    else Return (false, Some "Unknown fields in query: field").
Proof.
  apply exists_clause_checked_under_the_key_field; reflexivity.
Defined.





Lemma schema_of_an_earlier_call_stays_in_force_witness :
  NLQueryTranslator.validate Json.loads Json.error_text SetOrder.insertion_order
    (fst (NLQueryTranslator.validate Json.loads Json.error_text SetOrder.insertion_order
            None None (PyDict [("query", PyDict [("match_all", PyDict [])])])
            (Some (PyDict [("properties",
                            PyDict [("title", PyDict [("type", PyStr "text")])])]))))
    (Some {| NLQueryTranslator.is_connected := false;
             NLQueryTranslator.get_mapping := None |})
    (PyDict [("query", PyDict [("match", PyDict [("body", PyStr "x")])])])
    None
  = (Some (PyDict [("properties",
                    PyDict [("title", PyDict [("type", PyStr "text")])])]),
     validate Json.loads Json.error_text SetOrder.insertion_order
       (Some (PyDict [("properties",
                       PyDict [("title", PyDict [("type", PyStr "text")])])]))
       (PyDict [("query", PyDict [("match", PyDict [("body", PyStr "x")])])])).
Proof.
  apply (schema_of_an_earlier_call_stays_in_force Json.loads Json.error_text
           SetOrder.insertion_order).
  now left.
Defined.



